(* ===== verification/_CoqProject ===== *)
-Q . S2P
Prelude.v
Js.v
Async.v
Express.v
Handlers.v
Routes.v
Startup.v
Keyed.v
Store.v
PgStore.v
Service.v
Crud.v
Interleave.v
Linearize.v
Hardened.v
Races.v
Accepted.v
Overlap.v
Scenario.v
