(* ===== verification/Prelude.v ===== *)
(** * Verification of the flavors REST service (src/server.js)

    ** The program

    src/server.js is one Express application over a single table
    [flavors] (columns [id], [name], [is_favorite], [updated_at]). It
    reads its port from the environment (line 5), installs the JSON body
    parser (line 9), starts listening (lines 12-14) and registers five
    asynchronous handlers (lines 18-124): list, get by id, create, update
    and delete. Each handler destructures its parameters from the
    request, awaits one or two parameterised SQL statements on the shared
    query executor [db.query], and turns the rows, their absence, or a
    failure into an HTTP response: 200/201/204 on success, 404 with
    'Flavor not found' when the check by id finds no row, 500 with
    'Server error' from the catch block. The executor and the database
    are outside the repository.

    ** The files, in dependency order, and what each models

    - [Prelude] (this file): the libraries every file loads, the scope of
      the handler notations, the hint databases, the [result] type of the
      store-side conversions, the decimal text of integers (the [:id]
      path parameter is text, the [id] column an integer) with its round
      trip, sums of lists of numbers, and association lists (JavaScript
      objects with fields in order).
    - [Js]: the JavaScript values a handler meets ([value], with
      decidable equality), thrown values ([error]), completions, and the
      operations the source applies: destructuring [const { id } =
      req.params] ([get_prop], which throws a TypeError on [undefined]
      and [null]), [rows.length === 0] ([js_is_empty]), [rows[0]]
      ([js_index], which is [undefined] out of range) and [||]
      ([js_or]); the types of JSON values ([jtype], [has_type]).
    - [Async]: [db.query(text, params)] as a [query]; the settlement of
      its promise as a [reply]; the body of an async function as a
      program suspended at each await ([prog], with its bind and its
      equivalence); the executor as the type class [Executor] over the
      state of the store; [exec], which runs a program to completion
      against an executor and records the queries issued and their
      replies; [scripted], an executor that answers from a list.
    - [Express]: the request ([req.params], [req.body]), the response
      object (status code and the body written, if any, with the content
      type the writing call sets: [content_type]), the handler
      monad [handler] (the response and the console as state, abrupt
      completion, awaits), [try_catch], [db_query] (await, then
      destructure [rows] or throw the rejection), [res_status],
      [res_send] (which throws once a body has been written),
      [res_json], [console_error], the run of a handler ([run], [serve])
      and the equations that evaluate a run one operation at a time.
    - [Handlers]: the five handlers, statement by statement
      ([get_flavors] lines 18-29, [get_flavor] 33-50, [post_flavor]
      54-69, [put_flavor] 73-98, [delete_flavor] 102-124), the SQL texts
      as the source spells them, the catch block ([server_error]) and
      the not-found reply ([not_found]); the vocabulary of the REST
      table; the tactic [serve_cases], which evaluates a served request
      and splits on each destructuring and each settlement.
    - [Routes]: the five registrations with their path texts ([routes]),
      path splitting and pattern matching as Express does for these two
      patterns (literal segments without regard to case, HEAD answered
      by the GET registrations), [dispatch], the REST table as a function
      of the method and the path ([rest_table]), the application as a
      function from an HTTP request to the handler it runs
      ([express_app]), requests served one after the other ([handle],
      [session]), and the port ([port], line 5).
    - [Startup]: the main module as the list of its calls on [app]
      ([server_js]: [app.use] line 9, [app.listen] lines 12-14, the five
      registrations), run in order on the state of the process ([load]):
      the stack of layers, the listen under way, the console.
      [listen_target] is what [listen] makes of the port, [boot] what the
      runtime does once the module has run (bind, log the listening line,
      or exit), and [app_handle] a request delivered through the layers
      in the order they were installed.
    - [Keyed]: lists of rows with a key and the finite map they stand
      for; the lemmas that relate filtering, appending, rewriting in
      place and removing to lookup, insert, alter and delete.
    - [Store]: rows ([flavor], [row_of], [flavor_type]) and the contract
      the service needs of the store, the type class [FlavorStore]: the
      table as a finite map from ids to rows, an invariant, and the laws
      of the statements of server.js. Modelled from the specification.
    - [PgStore]: an executable relational store ([pg], [pg_execute]): a
      list of rows, a sequence for ids, a clock for [updated_at],
      coercion of text parameters to integer and boolean columns, NOT
      NULL constraints; its invariant [pg_ok]; and the proof that it is
      a [FlavorStore]. Modelled from the specification.
    - [Service]: the properties of specification section 8, proved for
      the handlers of [Handlers] against every [FlavorStore].
    - [Crud]: the specification of the five operations as a machine on
      the table alone ([crud]; its runs [crud_run], an instance of the
      runs [lts_run] of any labelled machine), the HTTP request of each
      operation ([http_of]), and the refinement: the route table, the
      handlers and any store that keeps the contract take only steps of
      the machine.
    - [Interleave]: requests in flight together: a [pool] of handlers
      suspended at their awaits over the shared store, with the log of
      the queries settled; [resume], which settles the pending query of
      one task; schedules ([interleave]) and the step relation ([step]);
      the requests that have ended, in the order in which they ended
      ([ended]).
    - [Linearize]: which pools are atomic: the invariant [lin] that
      relates a pool to a run of a machine on the table. It is kept for
      any handlers that meet the interface [OpHandlers] of the machine
      (a first query that ends the request or passes its check, a second
      that ends it, under a guard on the row checked), along steps that
      break no guard of a request past its check ([keeps_guards_at],
      [lin_along]), as all steps do when no request breaks the guard of
      another by what it is ([keeps_guards]). For the machine of [Crud]
      the guard is that the row is there ([present]), kept when no
      delete meets another write of its row ([conflict_free]); the
      handlers of server.js are one implementation ([source_handlers]).
    - [Hardened]: the alternative that design note 9 of the
      specification leaves open, the update as one statement with a row
      check ([put_atomic]), as a second implementation of [OpHandlers]
      ([hardened_handlers]). It is not code of the repository: it is the
      reference the source's PUT is measured against.
    - [Races]: the pairs that [Linearize] excludes, an update with a
      delete of its row ([put_and_delete]) and two deletes of one row
      ([two_deletes]). The two handlers are taken by what they do at
      their two awaits ([check_then_act], over the statements
      [check_of], [update_of], [delete_of] of lines 79, 86 and 115), and
      each pair is followed along the steps of its pool by an invariant
      that says where each task stands over the table ([racing],
      [racing2]).
    - [Accepted]: the specification with the race that its section 5
      accepts: the machine [racy], which adds to [crud] an update and a
      delete that report success over a row that is gone, and the
      handlers of server.js as an implementation of it with nothing to
      guard ([racy_handlers]). [told] relates what a request was told to
      what [crud] answers.
    - [Overlap]: the condition on the run under which requests are
      atomic: a step is calm ([calm_at], [calm_step]) unless it settles
      the delete statement of a row while another request awaits its
      update or delete statement on that row ([deleting], [acting]);
      [calm_schedule] decides it for a schedule.
    - [Scenario]: the example scenarios of the specification evaluated
      through the route table against [PgStore], and the theorems of the
      other files applied to concrete stores.

    ** How the parts interact

    A handler is a value of [handler unit]: a function from the state it
    mutates (response, console) to a program that awaits queries.
    [serve m s] runs it on a fresh response against the store [s] of any
    [Executor] and yields the completion, the response, the console, the
    final store and the trace of queries. The handler theorems quantify
    over the executor, so they hold whatever the database does. The
    service theorems assume the executor is a [FlavorStore]; [PgStore]
    discharges that interface, and [Scenario] runs the result. [Startup]
    produces the stack that [Routes] abstracts as [express_app], and
    [Crud] and [Linearize] state against one machine what the sequential
    and the interleaved service do. [Linearize] proves its invariant
    once, for an interface; [source_handlers], [hardened_handlers] and
    [racy_handlers] instantiate it, and the theorems on interleavings
    of [Linearize], [Overlap], [Hardened] and [Accepted] are its
    corollaries.

    ** What the theorems show

    - [Handlers]: for each handler, the whole outcome on every branch
      ([get_flavors_spec] ... [delete_flavor_spec]); then what all five
      guarantee: a response is written exactly once, on exactly the
      requests the handler can destructure ([well_formed], per endpoint;
      [handler_responds_once]); 500 exactly when a query was rejected,
      with exactly those errors logged ([server_error_iff_rejected]);
      queries issued in the source's order and none after a rejection
      ([handler_issues_in_order]); 404 only after a select that found
      nothing, with no write ([not_found_reads_only]); the status codes
      of the REST table, each with the content type of the call that
      wrote it ([response_labelled_by_status]); and the two cases the
      REST table does not describe: a body that cannot be destructured
      ([unreadable_body_escapes]) and an update that finds no row after
      a successful check ([put_lost_row]).
    - [Crud]: the service refines the specification machine over any
      session ([session_refines_crud]).
    - [Linearize]: under every interleaving, operations without a
      conflicting delete are a run of the machine in the order in which
      they ended, and once no request awaits the run holds every request
      exactly once ([conflict_free_linearizable], from [linearizable],
      which is proved once for every implementation of [OpHandlers]).
      In this and in the theorems of [Overlap], [Accepted] and
      [Hardened] the history is that of the pool: its requests are
      [ended], so a request that ended before another was first resumed
      comes before it.
    - [Overlap]: along calm steps the requests are atomic, whatever
      they are ([overlap_free_linearizable]); requests without a
      conflicting delete take only calm steps ([conflict_free_calm]),
      and so does the schedule that serves the requests one after the
      other ([serial_calm]); after a step that is not calm the request
      it overlaps reports success over a row that is gone, which no
      step of the machine does there ([overlap_misreports]).
    - [Accepted]: with no hypothesis on the requests in flight, every
      interleaving is a run of the machine with the accepted race
      ([interleaving_refines_racy]); and the table is always the one the
      requests that have ended leave when [crud] serves them in the
      order in which they ended, each request having been told what
      [crud] answers or success in place of its 404
      ([races_misreport_only]).
    - [Hardened]: served alone, the update as one statement takes the
      same step of the machine as the source's PUT
      ([put_atomic_refines]); in flight, it is atomic against the deletes
      of its row, so that only two deletes of one row still race
      ([atomic_update_linearizable]).
    - [Routes]: dispatch is exactly the REST table ([dispatch_spec],
      from [dispatch_eq]), no two registrations overlap
      ([routes_unambiguous]), and routed requests are well formed
      unless the handler reads a body that cannot be destructured
      ([app_request_well_formed]).
    - [Startup]: the process that is serving delivers requests as
      [express_app] does ([boot_serves_as_app]); the port it serves on is
      between 0 and 65535, with what is logged
      ([serving_port_bounds]); a port out of range ends the process
      before any route is registered ([bad_port_exits]).
    - [Service]: get, create, update and delete on present and absent
      ids, with the response and the table after ([get_by_id],
      [post_creates], [put_by_id], [delete_by_id], [list_all]); reading
      back what was written ([get_after_post], [get_after_put],
      [get_after_delete]); the JSON bodies have the type of their
      endpoint ([response_body_typed]); what each endpoint can do to the
      table whatever it is sent ([endpoint_effect]); and, over any
      session, the number of rows as the responses tell it
      ([session_cardinality]). That the store invariant holds after a
      session ([session_store_ok]) is the store's own law carried along
      and says nothing of the handlers; it is a lemma.
    - [Interleave]: a request resumed twice has ended
      ([resumed_twice_finished]); the queries settled for a request are
      the statements of its endpoint, in the order of the source
      ([request_issues_in_order]); in every run each request has at most
      two queries settled, so the run ends within twice as many steps as
      there are requests, it can go on while a request awaits, and it
      ends with every well-formed request answered
      ([every_request_answered]). Its lemmas relate the pool to the runs
      of [Express], for any handlers: a task that has ended ran as its
      handler runs alone against the replies it received
      ([task_result_scripted]), the schedule that runs each request to
      its end is the sequential run ([serial_is_sequential]), and the
      store invariant survives every interleaving
      ([interleave_store_ok]).
    - [Races]: every outcome of the two check-then-act races, whatever
      the order in which the store settles the queries. An update in
      flight with a delete of its row ([put_delete_race]): the row is
      gone, the delete answers 204, and the update answers the new row,
      404, or 200 with no flavor; a schedule gives the last, and no step
      of the machine of [Crud] answers an update that way. Two deletes
      of one row ([delete_delete_race]): the row is gone, each answers
      204 or 404 and one of them 204; a schedule gives 204 twice, and no
      run of the machine answers both deletes 204.
    - [Scenario]: the scenarios of the specification as one session
      ([scenario_run]), and what the store makes of bodies that are not a
      text and a boolean ([ill_typed_bodies]).
    - [PgStore]: every statement preserves [pg_ok] ([pg_execute_ok]) and
      each law of the contract holds of [pg_execute].
    - [Async], [Express]: the monad laws of programs and handlers up to
      equivalence, with [Proper] instances for rewriting under bind,
      try/catch and run.

    ** Bounds and assumptions

    Nothing is bounded by fuel: a handler awaits at most two queries, and
    [exec] recurses on the program. Integers are unbounded ([Z]): the
    range of the id column and the end of its sequence are not modelled,
    nor floating point. The port is the one place where a range is
    checked by the program's own call, and it is modelled (0 to 65535).
    The contract leaves to the store which parameters denote ids
    ([read_id]), asking only that the decimal text of an integer denotes
    it; [PgStore] reads a number as itself and a text as an optional
    minus sign followed by decimal digits ([Z_of_string]), and rejects
    any other text for an integer column.
    A query takes effect atomically. In [Routes], [Service] and [Crud] a
    request runs to its end before the next begins; in [Interleave],
    [Linearize], [Overlap], [Races] and [Accepted] the store settles the
    pending queries of the requests in any order and settles every
    query, and all the requests of a pool are in flight from the start:
    a request that arrives later is one that is not resumed until then,
    and [Overlap] is where that matters, its condition being on the
    steps taken and not on the requests.
    [Startup] reads PORT as a port when it is a text of decimal digits;
    whether the port is free is an input ([boot]'s second argument).
    The query executor is total and deterministic: [execute] settles
    every query, as resolved with an array of rows or as rejected with
    an error, so a result without rows and a query that is never
    settled are outside the model, and that a pool with a request
    awaiting can take a step is a property of this model of the store,
    not of server.js. A write to a response already written throws
    ([res_send]); for a send without a body that is Express under the
    status 204 of line 118, and no handler reaches a second write.

    Not every definition is a translation of lines of server.js. The
    handlers, their statements and replies, and the values and calls
    they use are. [allowed_status] and [statements] are the tables of
    sections 6 and 4.1 of the specification, and [status_media] the
    content type Express gives each call; the handlers are proved
    against them. [well_formed] is the precondition of a handler, shown
    to be exact; [express_app] is Express's dispatch over the
    registrations; the machines [crud] and [racy], the conditions
    [conflict_free] and [calm_step] and the relation [told] belong to
    the specification side.

    ** Not modelled

    The socket and the bytes on it: the headers other than the content
    type, and the serialisation of responses (the text of a JSON body,
    the body of a HEAD response being dropped). The JSON body parser:
    body-parser is a library the source only installs, the specification
    puts JSON parsing out of scope, and what the parser leaves in
    [req.body] for a request without a JSON body depends on its version,
    which the repository does not fix; a request carries its parsed
    body, and the theorems that need one that can be destructured say
    so. Targets of [listen] other than a decimal port. The connection
    pool behind [db.query] (./db is not in the repository).
    Percent-decoding of path parameters and query strings. What the
    framework answers to a request that no registration matches, and
    what it does with the rejected promise of a handler that threw. The
    delete as one statement: it needs a statement that returns the rows
    it removed, which server.js does not issue and the store contract
    does not describe, so [Hardened] replaces the update only. *)

From Stdlib Require Export ZArith String.
From Stdlib Require Import DecimalString DecimalZ DecimalPos Decimal.
From stdpp Require Export base tactics option list strings sets.

(** ** Scopes and hint database *)

(** Notations of the handler language (await, try/catch, sequencing) live
    in [js_scope]; the files that define the operations add them. *)
Declare Scope js_scope.
Delimit Scope js_scope with js.

(** [flavors] holds the resolution hints on stores (what a settled
    query preserves), and [flavors_simp] the rewriting rules that
    evaluate a handler one operation at a time. *)
Create HintDb flavors discriminated.
Create Rewrite HintDb flavors_simp.

(** ** Results of fallible functions *)

(** A value or an error; the store-side conversions return it. *)
Inductive result (E A : Type) : Type :=
| Ok (a : A)
| Err (e : E).
Arguments Ok {E A} a.
Arguments Err {E A} e.

Definition result_bind {E A B} (m : result E A) (f : A → result E B) : result E B :=
  match m with
  | Ok a => f a
  | Err e => Err e
  end.

#[export] Instance result_ret {E} : MRet (result E) := λ A a, Ok a.
#[export] Instance result_mbind {E} : MBind (result E) := λ A B f m, result_bind m f.

(** ** Decimal text of integers *)

(** [Z_to_string] prints an integer the way it appears in a path
    ([/api/flavors/12]); [Z_of_string] reads an optional minus sign
    followed by at least one decimal digit, and nothing else. *)
Definition Z_to_string (z : Z) : string := NilZero.string_of_int (Z.to_int z).

Definition Z_of_string (s : string) : option Z := Z.of_int <$> NilZero.int_of_string s.

Lemma Z_to_int_nonnil z : Z.to_int z ≠ Pos Nil ∧ Z.to_int z ≠ Neg Nil.
Proof.
  destruct z as [|p|p]; cbn; split; try discriminate.
  all: intros [= H]; revert H; apply Unsigned.to_uint_nonnil.
Qed.

Lemma Z_of_to_string z : Z_of_string (Z_to_string z) = Some z.
Proof.
  unfold Z_of_string, Z_to_string.
  destruct (Z_to_int_nonnil z) as [H1 H2].
  rewrite NilZero.isi by assumption. cbn. by rewrite DecimalZ.of_to.
Qed.

Lemma Z_to_string_inj z1 z2 : Z_to_string z1 = Z_to_string z2 → z1 = z2.
Proof.
  intros H. apply (f_equal Z_of_string) in H.
  rewrite !Z_of_to_string in H. congruence.
Qed.

#[export] Hint Rewrite Z_of_to_string : flavors_simp.

(** ** Lists *)

Section lists.
Context {A : Type}.
Implicit Types (l : list A) (x : A).

(** What holds of every element holds of those a filter keeps. *)
Lemma Forall_filter (P Q : A → Prop) `{∀ x, Decision (Q x)} l :
  Forall P l → Forall P (filter Q l).
Proof.
  rewrite !Forall_forall. intros HP x [_ Hx]%list_elem_of_filter. by apply HP.
Qed.

End lists.

(** Replacing an element of a list of numbers moves the sum by the
    difference. *)
Lemma sum_list_insert (l : list nat) i b b' :
  l !! i = Some b → (sum_list (<[i:=b']> l) + b = sum_list l + b')%nat.
Proof.
  revert i. induction l as [|a l IH]; intros [|i] Hi; simplify_eq/=; [lia|].
  specialize (IH i Hi). lia.
Qed.

(** Reading a list at each of its indices, in order, gives the list. *)
Lemma omap_lookup_seq_app {A} (pre l : list A) :
  omap (λ k, (pre ++ l) !! k) (seq (length pre) (length l)) = l.
Proof.
  revert pre. induction l as [|x l IH]; intros pre; [done|]. cbn.
  rewrite list_lookup_middle by done. f_equal.
  specialize (IH (pre ++ [x])). rewrite length_app, Nat.add_1_r, <-app_assoc in IH. exact IH.
Qed.

Lemma omap_lookup_seq {A} (l : list A) : omap (λ k, l !! k) (seq 0 (length l)) = l.
Proof. exact (omap_lookup_seq_app [] l). Qed.

(** ** Association lists *)

(** The first binding of a key, as a property read on an object whose
    fields are listed in order: a later binding of the same key is
    shadowed. *)
Fixpoint assoc {V} (k : string) (fs : list (string * V)) : option V :=
  match fs with
  | [] => None
  | (k', v) :: fs => if decide (k = k') then Some v else assoc k fs
  end.

Lemma assoc_cons_eq {V} k (v : V) fs : assoc k ((k, v) :: fs) = Some v.
Proof. cbn. by rewrite decide_True. Qed.

Lemma assoc_cons_ne {V} k k' (v : V) fs :
  k ≠ k' → assoc k ((k', v) :: fs) = assoc k fs.
Proof. intros. cbn. by rewrite decide_False. Qed.
