(* ===== verification/Js.v ===== *)
(** * JavaScript values and the operations server.js applies to them

    The values that flow through the handlers: what the JSON body parser
    puts in [req.body], what [req.params] holds, the parameters given to
    [db.query] and the rows it resolves to. The operations are the ones
    the source uses: [a || b] (line 5), object destructuring (lines 34,
    55, 75, 103), [rows.length === 0] and [rows[0]] (lines 39-44).
    Equality of values is decidable ([value_eqb], [value_eq_dec]), and
    [has_type] says of a value that it has a JSON type ([jtype]), which
    is how the bodies of the responses are characterised. *)

From S2P Require Import Prelude.

#[local] Open Scope string_scope.

(** ** Values *)

(** Numbers are the integers (ids, status codes, the port); [VDate t] is
    the [Date] a timestamp column is read as, [t] its clock reading. An
    object lists its fields in order. *)
#[warnings="-register-all"]
Inductive value : Type :=
| VUndefined
| VNull
| VBool (b : bool)
| VNum (n : Z)
| VStr (s : string)
| VDate (t : Z)
| VArr (items : list value)
| VObj (fields : list (string * value)).

#[export] Instance value_inhabited : Inhabited value := populate VUndefined.

(** Equality of values, by the structure of the first. *)
Fixpoint value_eqb (v w : value) {struct v} : bool :=
  match v, w with
  | VUndefined, VUndefined | VNull, VNull => true
  | VBool a, VBool b => Bool.eqb a b
  | VNum a, VNum b | VDate a, VDate b => (a =? b)%Z
  | VStr a, VStr b => String.eqb a b
  | VArr vs, VArr ws =>
      (fix items_eqb (vs ws : list value) : bool :=
         match vs, ws with
         | [], [] => true
         | v :: vs, w :: ws => value_eqb v w && items_eqb vs ws
         | _, _ => false
         end) vs ws
  | VObj fs, VObj gs =>
      (fix fields_eqb (fs gs : list (string * value)) : bool :=
         match fs, gs with
         | [], [] => true
         | (k, v) :: fs, (k', w) :: gs => String.eqb k k' && value_eqb v w && fields_eqb fs gs
         | _, _ => false
         end) fs gs
  | _, _ => false
  end.

(** ** Exceptions and completions *)

(** What the program can see thrown: a rejected [db.query] (with the
    store's error code), a [TypeError] of the language, and the error
    Node raises when a response is written twice. *)
Inductive error : Type :=
| DbError (code : string)
| TypeError (msg : string)
| HeadersSent.

#[export] Instance error_eq_dec : EqDecision error.
Proof. solve_decision. Defined.

(** How a statement ends: normally with a value, or abruptly. *)
Inductive completion (A : Type) : Type :=
| Normal (a : A)
| Thrown (e : error).
Arguments Normal {A} a.
Arguments Thrown {A} e.

#[export] Instance completion_eq_dec {A} `{EqDecision A} : EqDecision (completion A).
Proof. solve_decision. Defined.

(** ** Truthiness and [||] *)

Definition truthy (v : value) : bool :=
  match v with
  | VUndefined | VNull => false
  | VBool b => b
  | VNum n => negb (n =? 0)%Z
  | VStr s => negb (String.eqb s "")
  | VDate _ | VArr _ | VObj _ => true
  end.

(** [a || b]: [a] when it is truthy, [b] otherwise. *)
Definition js_or (a b : value) : value := if truthy a then a else b.

(** ** Property reads *)

(** [const { k } = o]: reading from [undefined] or [null] throws; an
    object yields its field or [undefined]. The other receivers have no
    own field of the names the program reads ([id], [name],
    [is_favorite]), so they yield [undefined]; names their prototypes
    define ([length], methods) are outside the model. *)
Definition get_prop (o : value) (k : string) : completion value :=
  match o with
  | VUndefined => Thrown (TypeError "Cannot destructure property of undefined")
  | VNull => Thrown (TypeError "Cannot destructure property of null")
  | VObj fs => Normal (default VUndefined (assoc k fs))
  | VBool _ | VNum _ | VStr _ | VDate _ | VArr _ => Normal VUndefined
  end.

(** [o] can be destructured: it is neither [undefined] nor [null]. *)
Definition destructurable (o : value) : bool :=
  match o with VUndefined | VNull => false | _ => true end.

(** ** Arrays of rows *)

(** [rows[i]]: the element, or [undefined] past the end. *)
Definition js_index (rows : list value) (i : nat) : value :=
  default VUndefined (rows !! i).

(** [rows.length === 0]. *)
Definition js_is_empty (rows : list value) : bool :=
  (length rows =? 0)%nat.

(** ** Types of JSON values *)

(** The types of the values a response carries: the JSON scalars, a
    timestamp, a value that may be [null], an array of one type, and an
    object with its fields in order. *)
#[warnings="-register-all"]
Inductive jtype : Type :=
| TNumber
| TString
| TBoolean
| TDate
| TNullable (t : jtype)
| TArray (t : jtype)
| TObject (fields : list (string * jtype)).

(** [v] is a value of type [t]. *)
Fixpoint has_type (t : jtype) (v : value) {struct t} : bool :=
  match t, v with
  | TNumber, VNum _ | TString, VStr _ | TBoolean, VBool _ | TDate, VDate _ => true
  | TNullable _, VNull => true
  | TNullable t, v => has_type t v
  | TArray t, VArr vs => forallb (has_type t) vs
  | TObject fields, VObj kvs =>
      (fix fields_typed (fields : list (string * jtype)) (kvs : list (string * value)) : bool :=
         match fields, kvs with
         | [], [] => true
         | (k, t) :: fields, (k', v) :: kvs =>
             String.eqb k k' && has_type t v && fields_typed fields kvs
         | _, _ => false
         end) fields kvs
  | _, _ => false
  end.

(** ** Induction on values *)

(** Induction on a value with the hypothesis for every item of an array
    and every field of an object. *)
Lemma value_ind_nested (P : value → Prop) :
  P VUndefined → P VNull → (∀ b, P (VBool b)) → (∀ n, P (VNum n)) →
  (∀ s, P (VStr s)) → (∀ t, P (VDate t)) →
  (∀ vs, Forall P vs → P (VArr vs)) →
  (∀ fs, Forall (λ kv, P kv.2) fs → P (VObj fs)) →
  ∀ v, P v.
Proof.
  intros Hu Hn Hb Hz Hs Hd Ha Ho. fix IH 1. intros [| |b|n|s|t|vs|fs]; [by auto..| |].
  - apply Ha. induction vs as [|v vs IHvs]; constructor; [apply IH | exact IHvs].
  - apply Ho. induction fs as [|[k v] fs IHfs]; constructor; [apply IH | exact IHfs].
Qed.

Lemma value_eqb_eq v w : value_eqb v w = true ↔ v = w.
Proof.
  revert w. induction v as [| |b|n|s|t|vs IH|fs IH] using value_ind_nested;
    intros [| |b'|n'|s'|t'|ws|gs]; cbn; try (split; [done|congruence]).
  - rewrite Bool.eqb_true_iff. naive_solver.
  - rewrite Z.eqb_eq. naive_solver.
  - rewrite String.eqb_eq. naive_solver.
  - rewrite Z.eqb_eq. naive_solver.
  - revert ws. induction IH as [|v vs Hv _ IHvs]; intros [|w ws]; try (split; [done|congruence]).
    rewrite andb_true_iff, Hv, IHvs. split; [by intros [-> [= ->]] | by intros [= -> ->]].
  - revert gs. induction IH as [|[k v] fs Hv _ IHfs]; intros [|[k' w] gs];
      try (split; [done|congruence]).
    cbn in Hv. rewrite !andb_true_iff, String.eqb_eq, Hv, IHfs.
    split; [by intros [[-> ->] [= ->]] | by intros [= -> -> ->]].
Qed.

#[export] Instance value_eq_dec : EqDecision value.
Proof.
  intros v w. destruct (value_eqb v w) eqn:E; [left|right].
  - by apply value_eqb_eq.
  - intros Heq%value_eqb_eq. congruence.
Defined.

(** ** Lemmas *)

Lemma js_or_truthy a b : truthy a = true → js_or a b = a.
Proof. unfold js_or. by intros ->. Qed.

Lemma js_or_falsy a b : truthy a = false → js_or a b = b.
Proof. unfold js_or. by intros ->. Qed.

Lemma js_or_truthy_r a b : truthy b = true → truthy (js_or a b) = true.
Proof. unfold js_or. by destruct (truthy a) eqn:?. Qed.

Lemma get_prop_normal o k :
  destructurable o = true ↔ ∃ v, get_prop o k = Normal v.
Proof. destruct o; cbn; (split; [by eauto | by intros [? [=]] || done]). Qed.

Lemma get_prop_thrown o k e : get_prop o k = Thrown e → destructurable o = false.
Proof. by destruct o. Qed.

Lemma get_prop_not_destructurable o k :
  destructurable o = false → ∃ msg, get_prop o k = Thrown (TypeError msg).
Proof. destruct o; cbn; by eauto. Qed.

Lemma get_prop_obj_cons_eq k v fs : get_prop (VObj ((k, v) :: fs)) k = Normal v.
Proof. cbn. by rewrite decide_True. Qed.

Lemma js_is_empty_nil rows : js_is_empty rows = true ↔ rows = [].
Proof. by destruct rows. Qed.

Lemma js_is_empty_cons r rows : js_is_empty (r :: rows) = false.
Proof. done. Qed.

Lemma js_index_cons r rows : js_index (r :: rows) 0 = r.
Proof. done. Qed.

Lemma js_index_nil i : js_index [] i = VUndefined.
Proof. done. Qed.

Lemma js_index_lookup rows i v : rows !! i = Some v → js_index rows i = v.
Proof. unfold js_index. by intros ->. Qed.

#[export] Hint Rewrite js_is_empty_cons js_index_cons js_index_nil : flavors_simp.

Lemma has_type_array t vs :
  has_type (TArray t) (VArr vs) = true ↔ Forall (λ v, has_type t v = true) vs.
Proof.
  cbn. induction vs as [|v vs IH]; cbn; [done|].
  rewrite Forall_cons, andb_true_iff. by rewrite IH.
Qed.

Lemma has_type_undefined t : has_type t VUndefined = false.
Proof. induction t; cbn; done. Qed.

Arguments has_type : simpl never.
