(* ===== verification/Async.v ===== *)
(** * Asynchronous programs over the query executor

    An [async] function of server.js runs until it awaits [db.query(sql,
    params)], is resumed with the promise's settlement, and so on until it
    returns. [prog A] is that shape: a tree whose nodes are the awaited
    queries and whose leaves are results. The executor is an interface
    ([Executor]): the handlers are verified against every instance of it,
    and a store implements it. [exec] runs a program to its end against
    an executor, recording the queries issued and their settlements.

    Programs are compared by [prog_equiv], which looks through the
    continuations pointwise; the monad laws hold up to it and [exec]
    respects it. *)

From S2P Require Import Prelude Js.

(** ** Queries and their settlements *)

(** [db.query(text, values)] as the handlers call it. *)
Record query := Query { q_sql : string; q_params : list value }.

#[export] Instance query_eq_dec : EqDecision query.
Proof. solve_decision. Defined.

(** The promise resolves to a result whose [rows] the handlers read, or
    it is rejected with an error. *)
Inductive reply : Type :=
| Resolved (rows : list value)
| Rejected (e : error).

#[export] Instance reply_eq_dec : EqDecision reply.
Proof. solve_decision. Defined.

(** ** Programs *)

Inductive prog (A : Type) : Type :=
| Ret (a : A)
| Await (q : query) (k : reply → prog A).
Arguments Ret {A} a.
Arguments Await {A} q k.

Fixpoint pbind {A B} (p : prog A) (f : A → prog B) : prog B :=
  match p with
  | Ret a => f a
  | Await q k => Await q (λ r, pbind (k r) f)
  end.

(** Two programs are equivalent when they issue the same queries and end
    with the same results, whatever the settlements. *)
Inductive prog_equiv {A} : relation (prog A) :=
| equiv_Ret a : prog_equiv (Ret a) (Ret a)
| equiv_Await q k1 k2 :
    (∀ r, prog_equiv (k1 r) (k2 r)) → prog_equiv (Await q k1) (Await q k2).

#[export] Instance prog_equiv_inst {A} : Equiv (prog A) := prog_equiv.

(** ** The executor interface and the interpreter *)

(** A query executor over a store state [St]: it settles a query and
    leaves the store in a new state. *)
Class Executor (St : Type) := execute : query → St → reply * St.
#[global] Hint Mode Executor ! : typeclass_instances.

(** What a run leaves: the result, the store, and the queries issued with
    their settlements, oldest first. *)
Record outcome (A St : Type) := Outcome {
  out_value : A;
  out_store : St;
  out_trace : list (query * reply)
}.
Arguments Outcome {A St} _ _ _.
Arguments out_value {A St} _.
Arguments out_store {A St} _.
Arguments out_trace {A St} _.

Section exec.
Context {St : Type} `{!Executor St}.

Fixpoint exec {A} (p : prog A) (s : St) : outcome A St :=
  match p with
  | Ret a => Outcome a s []
  | Await q k =>
      let o := exec (k (execute q s).1) (execute q s).2 in
      Outcome (out_value o) (out_store o) ((q, (execute q s).1) :: out_trace o)
  end.

End exec.

(** ** A substitute executor *)

(** The executor of a test: it settles the queries with the replies of
    a script, in order, whatever they ask, and rejects once the script is
    exhausted. *)
#[export] Instance scripted : Executor (list reply) := λ q s,
  match s with
  | r :: s' => (r, s')
  | [] => (Rejected (DbError "script exhausted"), [])
  end.

(** ** Laws *)

Section laws.
Context {A : Type}.
Implicit Types p : prog A.

#[export] Instance prog_equiv_refl : Reflexive (≡@{prog A}).
Proof. intros p. induction p; constructor; auto. Qed.

#[export] Instance prog_equiv_sym : Symmetric (≡@{prog A}).
Proof. intros p1 p2 Hp. induction Hp; constructor; auto. Qed.

#[export] Instance prog_equiv_trans : Transitive (≡@{prog A}).
Proof.
  intros p1 p2 p3 H12. revert p3.
  induction H12 as [|q k1 k2 _ IH]; intros p3 H23; [done|].
  inv H23. constructor. intros r. apply IH, H2.
Qed.

#[export] Instance prog_equiv_equivalence : Equivalence (≡@{prog A}).
Proof. split; apply _. Qed.

Lemma pbind_ret_l {B} (a : B) (f : B → prog A) : pbind (Ret a) f = f a.
Proof. done. Qed.

Lemma pbind_ret_r p : pbind p Ret ≡ p.
Proof. induction p; cbn; constructor; auto. Qed.

Lemma pbind_assoc {B C} (m : prog B) (f : B → prog C) (g : C → prog A) :
  pbind (pbind m f) g ≡ pbind m (λ x, pbind (f x) g).
Proof. induction m; cbn; [reflexivity | constructor; auto]. Qed.

#[export] Instance pbind_proper {B} :
  Proper ((≡) ==> pointwise_relation B (≡) ==> (≡@{prog A})) pbind.
Proof.
  intros m1 m2 Hm f1 f2 Hf.
  induction Hm; cbn; [apply Hf | constructor; auto].
Qed.

End laws.

Section exec_laws.
Context {St : Type} `{!Executor St} {A : Type}.
Implicit Types (p : prog A) (s : St).

(** Equivalent programs run alike. *)
#[export] Instance exec_proper : Proper ((≡) ==> (=) ==> (=)) (@exec St _ A).
Proof.
  intros p1 p2 Hp s ? <-. revert s.
  induction Hp as [|q k1 k2 _ IH]; intros s; cbn; [done|]. by rewrite IH.
Qed.

(** Running [pbind m f] is running [m], then [f] on its result from the
    store [m] left, and the trace is the two traces in order. *)
Lemma exec_pbind {B} (m : prog B) (f : B → prog A) s :
  exec (pbind m f) s =
    let o1 := exec m s in
    let o2 := exec (f (out_value o1)) (out_store o1) in
    Outcome (out_value o2) (out_store o2) (out_trace o1 ++ out_trace o2).
Proof.
  revert s. induction m as [a|q k IH]; intros s; cbn; [by destruct (exec _ _)|].
  by rewrite IH.
Qed.

(** A program that awaits nothing leaves the store alone. *)
Lemma exec_ret (a : A) s : exec (Ret a) s = Outcome a s [].
Proof. done. Qed.

End exec_laws.
