(* ===== verification/Express.v ===== *)
(** * The request and response objects and the handler language

    A route handler of server.js is [async (req, res) => { ... }]: it
    reads [req.params] and [req.body], mutates [res] through
    [res.status], [res.send] and [res.json], logs through
    [console.error], awaits [db.query] and may throw. [handler A] is that
    computation: a state ([hstate]: the response object and the console)
    threaded through a [prog], ending in a [completion]. The state
    survives a throw, so a [catch] block sees what the [try] block did to
    [res] before it threw.

    The response object follows Express: [res.status] only records the
    code, [res.send] and [res.json] write the response, and writing a
    response that was already written throws ([HeadersSent]). Of the
    headers only the content type is kept ([content_type]), which the
    writing call determines. *)

From S2P Require Import Prelude Js Async.

#[local] Open Scope string_scope.
#[local] Open Scope Z_scope.

(** ** Requests and responses *)

(** What a handler reads of a request: the route parameters (an object
    of strings) and the parsed body. *)
Record request := Request { req_params : value; req_body : value }.

#[export] Instance request_eq_dec : EqDecision request.
Proof. solve_decision. Defined.

(** What was written as the response body: text ([res.send(string)]),
    a value serialised as JSON ([res.json]), or nothing ([res.send()]). *)
Inductive body : Type :=
| BodyText (s : string)
| BodyJson (v : value)
| BodyEmpty.

#[export] Instance body_eq_dec : EqDecision body.
Proof. solve_decision. Defined.

(** The media type Express labels a response with, by the call that
    wrote it: [res.json] sets application/json, [res.send] of a string
    text/html, and [res.send()] sets none. *)
Inductive media : Type := TextHtml | ApplicationJson.

#[export] Instance media_eq_dec : EqDecision media.
Proof. solve_decision. Defined.

Definition content_type (b : body) : option media :=
  match b with
  | BodyText _ => Some TextHtml
  | BodyJson _ => Some ApplicationJson
  | BodyEmpty => None
  end.

(** The response object: the status code set so far, and the body once
    the response has been written. *)
Record response := Response { statusCode : Z; sent : option body }.

#[export] Instance response_eq_dec : EqDecision response.
Proof. solve_decision. Defined.

(** Express creates the response with status 200, nothing written. *)
Definition fresh_response : response := Response 200 None.

(** The state a handler acts on: its response object, and the lines
    written to the error console, oldest first. *)
Record hstate := HState { res : response; console : list error }.

#[export] Instance hstate_eq_dec : EqDecision hstate.
Proof. solve_decision. Defined.

Definition init_hstate : hstate := HState fresh_response [].

(** ** The handler monad *)

Definition handler (A : Type) : Type := hstate → prog (completion A * hstate).

Definition hret {A} (a : A) : handler A := λ h, Ret (Normal a, h).

Definition hbind {A B} (m : handler A) (f : A → handler B) : handler B :=
  λ h, pbind (m h) (λ ch,
    match ch.1 with
    | Normal a => f a ch.2
    | Thrown e => Ret (Thrown e, ch.2)
    end).

#[export] Instance handler_ret : MRet handler := @hret.
#[export] Instance handler_bind : MBind handler := λ A B f m, hbind m f.

(** [throw e]. *)
Definition throw {A} (e : error) : handler A := λ h, Ret (Thrown e, h).

(** A completion computed without effect, as by a destructuring. *)
Definition complete {A} (c : completion A) : handler A := λ h, Ret (c, h).

(** [try { m } catch (e) { f e }]: the catch block runs in the state the
    try block left when it threw. *)
Definition try_catch {A} (m : handler A) (f : error → handler A) : handler A :=
  λ h, pbind (m h) (λ ch,
    match ch.1 with
    | Normal a => Ret (Normal a, ch.2)
    | Thrown e => f e ch.2
    end).

(** [const { rows } = await db.query(sql, params)]: suspend on the
    query; a rejection is thrown at the await. *)
Definition db_query (sql : string) (params : list value) : handler (list value) :=
  λ h, Await (Query sql params) (λ r,
    match r with
    | Resolved rows => Ret (Normal rows, h)
    | Rejected e => Ret (Thrown e, h)
    end).

(** [res.status(code)]. *)
Definition res_status (code : Z) : handler unit :=
  λ h, Ret (Normal (), HState (Response code (sent (res h))) (console h)).

(** [res.send(b)]: write the response with the status set so far. On a
    response already written the call throws: with a body, Express sets
    the content type and length, which Node refuses once the head is
    sent (ERR_HTTP_HEADERS_SENT); without a body, under the status 204
    of line 118, the only bodiless send of server.js, Express removes
    those headers, which Node refuses the same way. A bodiless send
    under another status is not code of server.js; it is given the same
    outcome here, and no handler reaches a second write
    ([Handlers.handler_responds_once]). *)
Definition res_send (b : body) : handler unit :=
  λ h, match sent (res h) with
       | Some _ => Ret (Thrown HeadersSent, h)
       | None => Ret (Normal (), HState (Response (statusCode (res h)) (Some b)) (console h))
       end.

(** [res.json(v)]. *)
Definition res_json (v : value) : handler unit := res_send (BodyJson v).

(** [console.error(e)]. *)
Definition console_error (e : error) : handler unit :=
  λ h, Ret (Normal (), HState (res h) (console h ++ [e])).

(** ** Notation *)

(** [try m catch e =>> f] is [try { m } catch (e) { f }]. Sequencing is
    stdpp's [x ← m; k] and [m ;; k] at the instances above. *)
Notation "'try' m 'catch' e '=>>' f" := (try_catch m (λ e, f))
  (at level 10, m at level 100, e name, f at level 200, only parsing) : js_scope.

(** ** Running a handler *)

(** What a run of a handler leaves. *)
Abbreviation hout A St := (outcome (completion A * hstate) St).

(** The completion, handler state, response and console a run ended with. *)
Definition out_completion {A St} (o : hout A St) : completion A := (out_value o).1.
Definition out_hstate {A St} (o : hout A St) : hstate := (out_value o).2.
Definition out_res {A St} (o : hout A St) : response := res (out_hstate o).
Definition out_console {A St} (o : hout A St) : list error := console (out_hstate o).

(** [prepend t o]: the run [o] happened after the queries [t]. *)
Definition prepend {A St} (t : list (query * reply)) (o : outcome A St) : outcome A St :=
  Outcome (out_value o) (out_store o) (t ++ out_trace o).

(** [and_then o k]: after the run [o], continue with [k] when it ended
    normally and stop when it threw; [or_else o k] is the converse, the
    continuation of a [catch]. *)
Definition and_then {A B St} (o : hout A St)
    (k : A → hstate → St → hout B St) : hout B St :=
  match out_completion o with
  | Normal a => prepend (out_trace o) (k a (out_hstate o) (out_store o))
  | Thrown e => Outcome (Thrown e, out_hstate o) (out_store o) (out_trace o)
  end.

Definition or_else {A St} (o : hout A St)
    (k : error → hstate → St → hout A St) : hout A St :=
  match out_completion o with
  | Normal a => o
  | Thrown e => prepend (out_trace o) (k e (out_hstate o) (out_store o))
  end.

(** The completion of an await on a settled query. *)
Definition settle (r : reply) : completion (list value) :=
  match r with
  | Resolved rows => Normal rows
  | Rejected e => Thrown e
  end.

Section run.
Context {St : Type} `{!Executor St}.

(** Run a handler from a handler state and a store to its end. *)
Definition run {A} (m : handler A) (h : hstate) (s : St) : hout A St := exec (m h) s.

(** Serve one request: run its handler on a fresh response. *)
Definition serve (m : handler unit) (s : St) : hout unit St := run m init_hstate s.

End run.
Arguments run : simpl never.

(** ** Equivalence of handlers and the monad laws *)

#[export] Instance handler_equiv {A} : Equiv (handler A) := λ m1 m2, ∀ h, m1 h ≡ m2 h.

Section laws.
Context {A : Type}.
Implicit Types m : handler A.

#[export] Instance handler_equivalence : Equivalence (≡@{handler A}).
Proof.
  split.
  - by intros m h.
  - intros m1 m2 Hm h. symmetry. apply Hm.
  - intros m1 m2 m3 H12 H23 h. etrans; [apply H12 | apply H23].
Qed.

Lemma hbind_ret_l {B} (b : B) (f : B → handler A) : hbind (hret b) f ≡ f b.
Proof. by intros h. Qed.

Lemma hbind_ret_r m : hbind m hret ≡ m.
Proof.
  intros h. unfold hbind, hret. etrans; [|apply pbind_ret_r].
  apply pbind_proper; [done|]. by intros [[a|e] h'].
Qed.

Lemma hbind_assoc {B C} (m : handler B) (f : B → handler C) (g : C → handler A) :
  hbind (hbind m f) g ≡ hbind m (λ x, hbind (f x) g).
Proof.
  intros h. unfold hbind. etrans; [apply pbind_assoc|].
  apply pbind_proper; [done|]. by intros [[b|e] h'].
Qed.

#[export] Instance hbind_proper {B} :
  Proper ((≡) ==> pointwise_relation B (≡) ==> (≡@{handler A})) hbind.
Proof.
  intros m1 m2 Hm f1 f2 Hf h. unfold hbind.
  apply pbind_proper; [apply Hm|]. intros [[b|e] h']; cbn; [apply Hf|done].
Qed.

#[export] Instance try_catch_proper :
  Proper ((≡) ==> pointwise_relation error (≡) ==> (≡@{handler A})) try_catch.
Proof.
  intros m1 m2 Hm f1 f2 Hf h. unfold try_catch.
  apply pbind_proper; [apply Hm|]. intros [[b|e] h']; cbn; [done|apply Hf].
Qed.

(** A try block that returns normally skips the catch block; one that
    throws at once runs it. *)
Lemma try_catch_ret (a : A) f : try_catch (hret a) f ≡ hret a.
Proof. by intros h. Qed.

Lemma try_catch_throw e (f : error → handler A) : try_catch (throw e) f ≡ f e.
Proof. by intros h. Qed.

End laws.

(** ** The equations of a run *)

Section run_laws.
Context {St : Type} `{!Executor St}.
Implicit Types (h : hstate) (s : St).

(** Equivalent handlers run alike. *)
#[export] Instance run_proper {A} : Proper ((≡) ==> (=) ==> (=) ==> (=)) (@run St _ A).
Proof. intros m1 m2 Hm h ? <- s ? <-. unfold run. by rewrite (Hm h). Qed.

#[export] Instance serve_proper : Proper ((≡) ==> (=) ==> (=)) (@serve St _).
Proof. intros m1 m2 Hm s ? <-. unfold serve. by rewrite Hm. Qed.

Lemma prepend_nil {A} (o : outcome A St) : prepend [] o = o.
Proof. by destruct o. Qed.

Lemma prepend_Outcome {A} t (a : A) s t' :
  prepend t (Outcome a s t') = Outcome a s (t ++ t').
Proof. done. Qed.

Lemma and_then_normal {A B} (a : A) h s t (k : A → hstate → St → hout B St) :
  and_then (Outcome (Normal a, h) s t) k = prepend t (k a h s).
Proof. done. Qed.

Lemma and_then_thrown {A B} e h s t (k : A → hstate → St → hout B St) :
  and_then (Outcome (Thrown e, h) s t) k = Outcome (Thrown e, h) s t.
Proof. done. Qed.

Lemma or_else_normal {A} (a : A) h s t (k : error → hstate → St → hout A St) :
  or_else (Outcome (Normal a, h) s t) k = Outcome (Normal a, h) s t.
Proof. done. Qed.

Lemma or_else_thrown {A} e h s t (k : error → hstate → St → hout A St) :
  or_else (Outcome (Thrown e, h) s t) k = prepend t (k e h s).
Proof. done. Qed.

Lemma run_ret {A} (a : A) h s : run (mret a) h s = Outcome (Normal a, h) s [].
Proof. done. Qed.

Lemma run_throw {A} e h s : run (throw (A:=A) e) h s = Outcome (Thrown e, h) s [].
Proof. done. Qed.

Lemma run_complete {A} (c : completion A) h s : run (complete c) h s = Outcome (c, h) s [].
Proof. done. Qed.

(** Sequencing runs the first handler, then the second from where the
    first stopped, unless the first threw. *)
Lemma run_bind {A B} (m : handler A) (f : A → handler B) h s :
  run (m ≫= f) h s = and_then (run m h s) (λ a, run (f a)).
Proof.
  unfold run, mbind, handler_bind, hbind, and_then, out_completion, out_hstate.
  rewrite exec_pbind. cbn.
  destruct (exec (m h) s) as [[[a|e] h'] s' t]; cbn; by rewrite ?app_nil_r.
Qed.

(** A try block runs to its end; the catch block runs from there if it
    threw. *)
Lemma run_try_catch {A} (m : handler A) (f : error → handler A) h s :
  run (try_catch m f) h s = or_else (run m h s) (λ e, run (f e)).
Proof.
  unfold run, try_catch, or_else, out_completion, out_hstate.
  rewrite exec_pbind. cbn.
  destruct (exec (m h) s) as [[[a|e] h'] s' t]; cbn; by rewrite ?app_nil_r.
Qed.

(** An await issues the query, and throws when it is rejected. *)
Lemma run_db_query sql params h s :
  run (db_query sql params) h s =
    let rs := execute (Query sql params) s in
    Outcome (settle rs.1, h) rs.2 [(Query sql params, rs.1)].
Proof. unfold run, db_query. cbn. by destruct (execute _ s) as [[rows|e] s']. Qed.

Lemma run_res_status code h s :
  run (res_status code) h s =
    Outcome (Normal (), HState (Response code (sent (res h))) (console h)) s [].
Proof. done. Qed.

Lemma run_res_send b h s :
  run (res_send b) h s =
    match sent (res h) with
    | Some _ => Outcome (Thrown HeadersSent, h) s []
    | None => Outcome (Normal (), HState (Response (statusCode (res h)) (Some b)) (console h)) s []
    end.
Proof. unfold run, res_send. destruct h as [[code [b'|]] c]; done. Qed.

Lemma run_res_json v h s : run (res_json v) h s = run (res_send (BodyJson v)) h s.
Proof. done. Qed.

Lemma run_console_error e h s :
  run (console_error e) h s = Outcome (Normal (), HState (res h) (console h ++ [e])) s [].
Proof. done. Qed.

End run_laws.

#[export] Hint Rewrite @prepend_nil @prepend_Outcome @and_then_normal @and_then_thrown
  @or_else_normal @or_else_thrown @run_ret @run_throw @run_complete @run_bind
  @run_try_catch @run_db_query @run_res_status @run_res_json @run_res_send
  @run_console_error : flavors_simp.

(** Evaluate a run as far as the equations go, splitting on the
    settlement of each query and on the tests it meets. *)
Ltac run_simp := repeat (autorewrite with flavors_simp; cbn).
