(* ===== verification/Handlers.v ===== *)
(** * The five route handlers of server.js

    Each definition is the body of one [app.<method>(path, async (req,
    res) => ...)] of the source, statement by statement; the SQL texts
    and the response texts are the source's literals. The theorems hold
    for every query executor. *)

From S2P Require Import Prelude Js Async Express.

#[local] Open Scope string_scope.
#[local] Open Scope Z_scope.
#[local] Open Scope js_scope.

(** ** The SQL statements *)

Definition sql_select_all : string := "SELECT * FROM flavors".
Definition sql_select_by_id : string := "SELECT * FROM flavors WHERE id = $1".
Definition sql_insert : string :=
  "INSERT INTO flavors (name, is_favorite) VALUES ($1, $2) RETURNING *".
Definition sql_update : string :=
  "UPDATE flavors SET name = $1, is_favorite = $2, updated_at = NOW() WHERE id = $3 RETURNING *".
Definition sql_delete : string := "DELETE FROM flavors WHERE id = $1".

(** ** The two fixed replies *)

(** The catch block every handler ends with: log the error, answer 500
    with a fixed text. *)
Definition server_error (err : error) : handler unit :=
  console_error err;;
  res_status 500;; res_send (BodyText "Server error").

(** [res.status(404).send('Flavor not found')]. *)
Definition not_found : handler unit :=
  res_status 404;; res_send (BodyText "Flavor not found").

(** ** The handlers *)

(** The bodies of the five [app.<method>(path, async (req, res) => ...)]
    registrations, in the order of the source. *)

(** GET /api/flavors. Line 21 gives [db.query] the text alone; a query
    without a parameter list is the query with none. *)
Definition get_flavors (req : request) : handler unit :=
  try
    rows ← db_query sql_select_all [];
    res_json (VArr rows)
  catch error =>> server_error error.

(** GET /api/flavors/:id *)
Definition get_flavor (req : request) : handler unit :=
  id ← complete (get_prop (req_params req) "id");
  try
    rows ← db_query sql_select_by_id [id];
    if js_is_empty rows then not_found
    else res_json (js_index rows 0)
  catch err =>> server_error err.

(** POST /api/flavors *)
Definition post_flavor (req : request) : handler unit :=
  name ← complete (get_prop (req_body req) "name");
  is_favorite ← complete (get_prop (req_body req) "is_favorite");
  try
    rows ← db_query sql_insert [name; is_favorite];
    res_status 201;; res_json (js_index rows 0)
  catch err =>> server_error err.

(** PUT /api/flavors/:id *)
Definition put_flavor (req : request) : handler unit :=
  id ← complete (get_prop (req_params req) "id");
  name ← complete (get_prop (req_body req) "name");
  is_favorite ← complete (get_prop (req_body req) "is_favorite");
  try
    checkFlavor ← db_query sql_select_by_id [id];
    if js_is_empty checkFlavor then not_found
    else
      rows ← db_query sql_update [name; is_favorite; id];
      res_json (js_index rows 0)
  catch err =>> server_error err.

(** DELETE /api/flavors/:id *)
Definition delete_flavor (req : request) : handler unit :=
  id ← complete (get_prop (req_params req) "id");
  try
    checkFlavor ← db_query sql_select_by_id [id];
    if js_is_empty checkFlavor then not_found
    else
      db_query sql_delete [id];;
      res_status 204;; res_send BodyEmpty
  catch err =>> server_error err.

(** ** The endpoints *)

(** The five registrations of the source, by what they do. *)
Inductive endpoint : Type :=
| ListFlavors
| GetFlavor
| CreateFlavor
| UpdateFlavor
| DeleteFlavor.

#[export] Instance endpoint_eq_dec : EqDecision endpoint.
Proof. solve_decision. Defined.

Definition handler_of (ep : endpoint) : request → handler unit :=
  match ep with
  | ListFlavors => get_flavors
  | GetFlavor => get_flavor
  | CreateFlavor => post_flavor
  | UpdateFlavor => put_flavor
  | DeleteFlavor => delete_flavor
  end.

(** ** The responses of the REST contract (spec section 6) *)

Definition ok_json (v : value) : response := Response 200 (Some (BodyJson v)).
Definition created_json (v : value) : response := Response 201 (Some (BodyJson v)).
Definition no_content : response := Response 204 (Some BodyEmpty).
Definition not_found_response : response :=
  Response 404 (Some (BodyText "Flavor not found")).
Definition server_error_response : response :=
  Response 500 (Some (BodyText "Server error")).

(** The handler returned normally, having written [r] and logged [log]. *)
Definition answered (r : response) (log : list error) : completion unit * hstate :=
  (Normal (), HState r log).

(** The status codes an endpoint may answer with: its row of the table
    of section 6 of the specification, success and failure. *)
Definition allowed_status (ep : endpoint) : list Z :=
  match ep with
  | ListFlavors => [200; 500]
  | GetFlavor => [200; 404; 500]
  | CreateFlavor => [201; 500]
  | UpdateFlavor => [200; 404; 500]
  | DeleteFlavor => [204; 404; 500]
  end.

(** The media type Express gives the call each status code of
    server.js is sent with: 200 and 201 by [res.json], 404 and 500 by
    [res.send] of a string, 204 by [res.send()]. A table the handlers
    are proved against, as the two around it. *)
Definition status_media (code : Z) : option media :=
  if decide (code ∈ [200; 201]) then Some ApplicationJson
  else if decide (code ∈ [404; 500]) then Some TextHtml
  else None.

(** The statements an endpoint may issue, in the order it issues them:
    the store calls section 4.1 of the specification gives each
    operation. *)
Definition statements (ep : endpoint) : list string :=
  match ep with
  | ListFlavors => [sql_select_all]
  | GetFlavor => [sql_select_by_id]
  | CreateFlavor => [sql_insert]
  | UpdateFlavor => [sql_select_by_id; sql_update]
  | DeleteFlavor => [sql_select_by_id; sql_delete]
  end.

(** A request is well formed for an endpoint when the objects the
    handler destructures before its try block can be destructured:
    [req.params] for the three handlers of an item path (lines 34, 74 and
    103), [req.body] for POST and PUT (lines 55 and 75), nothing for the
    list. [handler_responds_once] shows that these are exactly the
    requests a handler answers. *)
Definition well_formed (ep : endpoint) (req : request) : bool :=
  match ep with
  | ListFlavors => true
  | GetFlavor | DeleteFlavor => destructurable (req_params req)
  | CreateFlavor => destructurable (req_body req)
  | UpdateFlavor => destructurable (req_params req) && destructurable (req_body req)
  end.

(** The errors of the rejected queries of a trace, oldest first. *)
Definition rejections (t : list (query * reply)) : list error :=
  omap (λ qr, match qr.2 with Rejected e => Some e | Resolved _ => None end) t.

(** The texts of the statements of a trace, oldest first. *)
Definition issued (t : list (query * reply)) : list string := (λ qr, q_sql qr.1) <$> t.

(** ** Sample rows and requests *)

Definition vanilla : value :=
  VObj [("id", VNum 1); ("name", VStr "Vanilla"); ("is_favorite", VBool true);
        ("updated_at", VNull)].

Definition vanilla_bean : value :=
  VObj [("id", VNum 1); ("name", VStr "Vanilla Bean"); ("is_favorite", VBool false);
        ("updated_at", VDate 7)].

(** GET or DELETE /api/flavors/1, with no body parsed. *)
Definition req_id_1 : request := Request (VObj [("id", VStr "1")]) (VObj []).

(** POST /api/flavors with [{"name":"Vanilla","is_favorite":true}]. *)
Definition req_post_vanilla : request :=
  Request (VObj []) (VObj [("name", VStr "Vanilla"); ("is_favorite", VBool true)]).

(** PUT /api/flavors/1 with [{"name":"Vanilla Bean","is_favorite":false}]. *)
Definition req_put_bean : request :=
  Request (VObj [("id", VStr "1")])
          (VObj [("name", VStr "Vanilla Bean"); ("is_favorite", VBool false)]).

(** POST /api/flavors whose body was not parsed. *)
Definition req_post_no_body : request := Request (VObj []) VUndefined.

(** ** The two fixed replies, run *)

Section replies.
Context {St : Type} `{!Executor St}.
Implicit Types (h : hstate) (s : St).

(** On a response not yet written, the catch block logs the error and
    answers 500; it issues no query. *)
Lemma run_server_error err h s :
  sent (res h) = None →
  run (server_error err) h s =
    Outcome (answered server_error_response (console h ++ [err])) s [].
Proof. intros Hs. unfold server_error. run_simp. by rewrite Hs. Qed.

(** On a response already written, the catch block throws in turn: the
    handler's promise is rejected, and what was written stays. *)
Lemma run_server_error_sent err h s b :
  sent (res h) = Some b →
  run (server_error err) h s =
    Outcome (Thrown HeadersSent, HState (Response 500 (Some b)) (console h ++ [err])) s [].
Proof. intros Hs. unfold server_error. run_simp. by rewrite Hs. Qed.

Lemma run_not_found h s :
  sent (res h) = None →
  run not_found h s = Outcome (answered not_found_response (console h)) s [].
Proof. intros Hs. unfold not_found. run_simp. by rewrite Hs. Qed.

End replies.

(** Evaluate a served request by computation: unfold the handler and the
    handler language, then split on each destructuring and on the
    settlement of each query as the run reaches it. *)
Ltac serve_cases :=
  cbv [serve run handler_of get_flavors get_flavor post_flavor put_flavor
    delete_flavor server_error not_found mbind handler_bind hbind try_catch db_query
    complete res_status res_send res_json console_error];
  cbn;
  repeat (match goal with
          | H : ?x = _ |- context [?x] => rewrite H
          | |- context [get_prop ?o ?k] => destruct (get_prop o k) as [?|?] eqn:?
          | |- context [execute ?q ?s] =>
              let E := fresh "Hexec" in
              destruct (execute q s) as [[[|? ?]|?] ?] eqn:E
          end; cbn).

(** ** What each handler answers, on every branch *)

Section specs.
Context {St : Type} `{!Executor St}.
Implicit Types (req : request) (s : St).

(** C5: GET /api/flavors issues the one unfiltered select; it answers
    200 with the rows as a JSON array when the query resolves, and logs
    the error and answers 500 when it is rejected. *)
Theorem get_flavors_spec req s :
  let q := Query sql_select_all [] in
  let rs := execute q s in
  serve (get_flavors req) s =
    Outcome (match rs.1 with
             | Resolved rows => answered (ok_json (VArr rows)) []
             | Rejected e => answered server_error_response [e]
             end) rs.2 [(q, rs.1)].
Proof. intros q rs. subst q rs. by serve_cases. Qed.

(** C3: GET /api/flavors/:id issues the select by id with the path
    parameter as it came; no row is 404, a row is 200 with the first row,
    a rejection is logged and answered 500. *)
Theorem get_flavor_spec req s id :
  get_prop (req_params req) "id" = Normal id →
  let q := Query sql_select_by_id [id] in
  let rs := execute q s in
  serve (get_flavor req) s =
    Outcome (match rs.1 with
             | Resolved [] => answered not_found_response []
             | Resolved (row :: _) => answered (ok_json row) []
             | Rejected e => answered server_error_response [e]
             end) rs.2 [(q, rs.1)].
Proof. intros Hid q rs. subst q rs. by serve_cases. Qed.

(** C4: POST /api/flavors issues the insert with the body's [name] and
    [is_favorite] as they came and answers 201 with the first returned
    row; a rejection is logged and answered 500. *)
Theorem post_flavor_spec req s name fav :
  get_prop (req_body req) "name" = Normal name →
  get_prop (req_body req) "is_favorite" = Normal fav →
  let q := Query sql_insert [name; fav] in
  let rs := execute q s in
  serve (post_flavor req) s =
    Outcome (match rs.1 with
             | Resolved rows => answered (created_json (js_index rows 0)) []
             | Rejected e => answered server_error_response [e]
             end) rs.2 [(q, rs.1)].
Proof. intros Hn Hf q rs. subst q rs. by serve_cases. Qed.

(** C1: PUT /api/flavors/:id first selects by id; no row is 404 and
    nothing else is issued; otherwise it issues the update with [name],
    [is_favorite], [id] in that order and answers 200 with the first
    returned row. A rejection of either query is logged and answered 500. *)
Theorem put_flavor_spec req s id name fav :
  get_prop (req_params req) "id" = Normal id →
  get_prop (req_body req) "name" = Normal name →
  get_prop (req_body req) "is_favorite" = Normal fav →
  let q1 := Query sql_select_by_id [id] in
  let q2 := Query sql_update [name; fav; id] in
  let rs1 := execute q1 s in
  let rs2 := execute q2 rs1.2 in
  serve (put_flavor req) s =
    match rs1.1 with
    | Rejected e => Outcome (answered server_error_response [e]) rs1.2 [(q1, rs1.1)]
    | Resolved [] => Outcome (answered not_found_response []) rs1.2 [(q1, rs1.1)]
    | Resolved (_ :: _) =>
        Outcome (match rs2.1 with
                 | Resolved rows => answered (ok_json (js_index rows 0)) []
                 | Rejected e => answered server_error_response [e]
                 end) rs2.2 [(q1, rs1.1); (q2, rs2.1)]
    end.
Proof. intros Hid Hn Hf q1 q2 rs1 rs2. subst q1 q2 rs1 rs2. by serve_cases. Qed.

(** C2: DELETE /api/flavors/:id first selects by id; no row is 404 and
    nothing else is issued; otherwise it issues the delete and answers
    204 with an empty body. A rejection of either query is logged and
    answered 500. *)
Theorem delete_flavor_spec req s id :
  get_prop (req_params req) "id" = Normal id →
  let q1 := Query sql_select_by_id [id] in
  let q2 := Query sql_delete [id] in
  let rs1 := execute q1 s in
  let rs2 := execute q2 rs1.2 in
  serve (delete_flavor req) s =
    match rs1.1 with
    | Rejected e => Outcome (answered server_error_response [e]) rs1.2 [(q1, rs1.1)]
    | Resolved [] => Outcome (answered not_found_response []) rs1.2 [(q1, rs1.1)]
    | Resolved (_ :: _) =>
        Outcome (match rs2.1 with
                 | Resolved _ => answered no_content []
                 | Rejected e => answered server_error_response [e]
                 end) rs2.2 [(q1, rs1.1); (q2, rs2.1)]
    end.
Proof. intros Hid q1 q2 rs1 rs2. subst q1 q2 rs1 rs2. by serve_cases. Qed.

End specs.

(** ** What every handler guarantees *)

Section guarantees.
Context {St : Type} `{!Executor St}.
Implicit Types (ep : endpoint) (req : request) (s : St).

(** A handler given a request it cannot destructure throws the
    TypeError of the destructuring before its try block: nothing is
    written, nothing logged, no query issued. *)
Lemma ill_formed_escapes ep req s :
  well_formed ep req = false →
  ∃ msg, serve (handler_of ep req) s = Outcome (Thrown (TypeError msg), init_hstate) s [].
Proof.
  intros Hwf. destruct ep; cbn in Hwf; [done|..];
    try apply andb_false_iff in Hwf as [Hwf|Hwf];
    serve_cases;
    repeat match goal with
    | H : get_prop ?o ?k = Normal _ |- _ =>
        assert (destructurable o = true) by (apply (get_prop_normal o k); eauto); congruence
    | H : get_prop ?o ?k = Thrown ?e |- _ =>
        destruct (get_prop_not_destructurable o k (get_prop_thrown _ _ _ H)) as [msg Hm];
        rewrite H in Hm; simplify_eq; by eexists
    end.
Qed.

(** C6: a handler returns normally with its response written, exactly
    once, on exactly the requests it can destructure, whatever the
    executor does: given such a request no path falls through without
    answering and none writes twice; given another, the handler throws
    before its try block and answers nothing. *)
Theorem handler_responds_once ep req s :
  well_formed ep req = true ↔
  out_completion (serve (handler_of ep req) s) = Normal () ∧
  is_Some (sent (out_res (serve (handler_of ep req) s))).
Proof.
  split.
  - intros Hwf. destruct ep; cbn in Hwf; try apply andb_prop in Hwf as [Hp Hb];
      serve_cases; try (split; [done | by eexists]).
    all: match goal with H : get_prop _ _ = Thrown _ |- _ =>
           apply get_prop_thrown in H; congruence end.
  - intros [Hc _]. destruct (well_formed ep req) eqn:Hwf; [done|].
    destruct (ill_formed_escapes ep req s Hwf) as [msg Hs]. by rewrite Hs in Hc.
Qed.

(** C12: a response a handler has written carries a status code of its
    row of the REST table and the media type of the call that wrote it:
    application/json with 200 and 201, nothing with 204, and text/html
    with 404 and 500, whose texts go out through [res.send] of a string,
    which Express does not label as plain text. *)
Theorem response_labelled_by_status ep req s b :
  sent (out_res (serve (handler_of ep req) s)) = Some b →
  statusCode (out_res (serve (handler_of ep req) s)) ∈ allowed_status ep ∧
  content_type b = status_media (statusCode (out_res (serve (handler_of ep req) s))).
Proof.
  destruct ep; serve_cases; intros; simplify_eq/=; (split; [set_solver | done]).
Qed.

(** C7: a handler answers 500 exactly when one of its queries was
    rejected, and the console holds exactly the errors of the rejected
    queries: every store failure is trapped, logged and answered with the
    generic error. *)
Theorem server_error_iff_rejected ep req s :
  out_completion (serve (handler_of ep req) s) = Normal () →
  (statusCode (out_res (serve (handler_of ep req) s)) = 500
     ↔ rejections (out_trace (serve (handler_of ep req) s)) ≠ []) ∧
  out_console (serve (handler_of ep req) s)
    = rejections (out_trace (serve (handler_of ep req) s)).
Proof. destruct ep; serve_cases; intros; by (done || (split; [split|])). Qed.

(** C11: the statements a handler issues are a prefix of its fixed
    sequence, and a rejected query is the last one of the run: at most
    two queries, in the order of the source, never a statement of another
    endpoint, and no retry or further query after a store failure. *)
Theorem handler_issues_in_order ep req s :
  issued (out_trace (serve (handler_of ep req) s)) `prefix_of` statements ep ∧
  ∀ i q e, out_trace (serve (handler_of ep req) s) !! i = Some (q, Rejected e) →
           S i = length (out_trace (serve (handler_of ep req) s)).
Proof.
  destruct ep; serve_cases; (split; [by eexists|]); intros i ? ? Hi;
    repeat (destruct i as [|i]; simplify_eq/=); done.
Qed.

(** C9: a 404 is answered only after a select by id that found no row,
    and nothing was issued after it: the not-found path never writes to
    the store. *)
Theorem not_found_reads_only ep req s :
  statusCode (out_res (serve (handler_of ep req) s)) = 404 →
  ∃ id, out_trace (serve (handler_of ep req) s)
          = [(Query sql_select_by_id [id], Resolved [])].
Proof. destruct ep; serve_cases; intros; by (done || eexists). Qed.

(** C10: when PUT's check finds the row but the update then resolves
    with no row (the row was deleted in between), the handler still
    answers 200, and the value it gives to [res.json] is [rows[0]] of an
    empty array, that is [undefined]: the response carries no flavor. *)
Theorem put_lost_row req s id name fav row rows s1 s2 :
  get_prop (req_params req) "id" = Normal id →
  get_prop (req_body req) "name" = Normal name →
  get_prop (req_body req) "is_favorite" = Normal fav →
  execute (Query sql_select_by_id [id]) s = (Resolved (row :: rows), s1) →
  execute (Query sql_update [name; fav; id]) s1 = (Resolved [], s2) →
  serve (put_flavor req) s =
    Outcome (answered (ok_json VUndefined) []) s2
      [(Query sql_select_by_id [id], Resolved (row :: rows));
       (Query sql_update [name; fav; id], Resolved [])].
Proof. intros Hid Hn Hf E1 E2. by serve_cases. Qed.

(** C8: POST and PUT destructure [req.body] before their try block:
    when the body is [undefined] or [null] the handler throws a
    TypeError that nothing catches, with no response written and no
    query issued. *)
Theorem unreadable_body_escapes ep req s :
  ep = CreateFlavor ∨ ep = UpdateFlavor →
  destructurable (req_params req) = true →
  destructurable (req_body req) = false →
  ∃ msg, serve (handler_of ep req) s = Outcome (Thrown (TypeError msg), init_hstate) s [].
Proof.
  intros Hep Hp Hb.
  destruct (get_prop_not_destructurable _ "name" Hb) as [msg Hn].
  exists msg. destruct Hep as [-> | ->]; serve_cases; try done.
  all: match goal with H : get_prop _ _ = Thrown _ |- _ =>
         apply get_prop_thrown in H; congruence end.
Qed.

End guarantees.

(** ** Concrete runs

    The theorems above at the sample requests, against the scripted
    executor of [Async]. *)

Lemma get_flavor_spec_witness :
  get_prop (req_params req_id_1) "id" = Normal (VStr "1") ∧
  serve (get_flavor req_id_1) [Resolved [vanilla]] =
    Outcome (answered (ok_json vanilla) []) []
      [(Query sql_select_by_id [VStr "1"], Resolved [vanilla])].
Proof.
  split; [reflexivity|].
  exact (get_flavor_spec req_id_1 [Resolved [vanilla]] (VStr "1") eq_refl).
Defined.

Lemma post_flavor_spec_witness :
  get_prop (req_body req_post_vanilla) "name" = Normal (VStr "Vanilla") ∧
  get_prop (req_body req_post_vanilla) "is_favorite" = Normal (VBool true) ∧
  serve (post_flavor req_post_vanilla) [Resolved [vanilla]] =
    Outcome (answered (created_json vanilla) []) []
      [(Query sql_insert [VStr "Vanilla"; VBool true], Resolved [vanilla])].
Proof.
  split; [reflexivity|]. split; [reflexivity|].
  exact (post_flavor_spec req_post_vanilla [Resolved [vanilla]] _ _ eq_refl eq_refl).
Defined.

Lemma put_flavor_spec_witness :
  get_prop (req_params req_put_bean) "id" = Normal (VStr "1") ∧
  get_prop (req_body req_put_bean) "name" = Normal (VStr "Vanilla Bean") ∧
  get_prop (req_body req_put_bean) "is_favorite" = Normal (VBool false) ∧
  serve (put_flavor req_put_bean) [Resolved [vanilla]; Resolved [vanilla_bean]] =
    Outcome (answered (ok_json vanilla_bean) []) []
      [(Query sql_select_by_id [VStr "1"], Resolved [vanilla]);
       (Query sql_update [VStr "Vanilla Bean"; VBool false; VStr "1"],
        Resolved [vanilla_bean])].
Proof.
  repeat (split; [reflexivity|]).
  exact (put_flavor_spec req_put_bean [Resolved [vanilla]; Resolved [vanilla_bean]]
           _ _ _ eq_refl eq_refl eq_refl).
Defined.

Lemma delete_flavor_spec_witness :
  get_prop (req_params req_id_1) "id" = Normal (VStr "1") ∧
  serve (delete_flavor req_id_1) [Resolved [vanilla]; Resolved []] =
    Outcome (answered no_content []) []
      [(Query sql_select_by_id [VStr "1"], Resolved [vanilla]);
       (Query sql_delete [VStr "1"], Resolved [])].
Proof.
  split; [reflexivity|].
  exact (delete_flavor_spec req_id_1 [Resolved [vanilla]; Resolved []] _ eq_refl).
Defined.

Lemma handler_responds_once_witness :
  well_formed UpdateFlavor req_put_bean = true ∧
  out_completion (serve (handler_of UpdateFlavor req_put_bean) [Resolved [vanilla]])
    = Normal () ∧
  is_Some (sent (out_res (serve (handler_of UpdateFlavor req_put_bean)
                            [Resolved [vanilla]]))).
Proof.
  split; [reflexivity|].
  exact (proj1 (handler_responds_once UpdateFlavor req_put_bean [Resolved [vanilla]]) eq_refl).
Defined.

Lemma response_labelled_by_status_witness :
  sent (out_res (serve (handler_of DeleteFlavor req_id_1) [Resolved []]))
    = Some (BodyText "Flavor not found") ∧
  statusCode (out_res (serve (handler_of DeleteFlavor req_id_1) [Resolved []]))
    ∈ allowed_status DeleteFlavor ∧
  content_type (BodyText "Flavor not found")
    = status_media (statusCode (out_res (serve (handler_of DeleteFlavor req_id_1)
                                           [Resolved []]))).
Proof.
  split; [reflexivity|].
  exact (response_labelled_by_status DeleteFlavor req_id_1 [Resolved []] _ eq_refl).
Defined.

Lemma server_error_iff_rejected_witness :
  out_completion (serve (handler_of UpdateFlavor req_put_bean)
                    [Resolved [vanilla]; Rejected (DbError "23502")]) = Normal () ∧
  (statusCode (out_res (serve (handler_of UpdateFlavor req_put_bean)
                          [Resolved [vanilla]; Rejected (DbError "23502")])) = 500
     ↔ rejections (out_trace (serve (handler_of UpdateFlavor req_put_bean)
                                [Resolved [vanilla]; Rejected (DbError "23502")])) ≠ []) ∧
  out_console (serve (handler_of UpdateFlavor req_put_bean)
                 [Resolved [vanilla]; Rejected (DbError "23502")])
    = rejections (out_trace (serve (handler_of UpdateFlavor req_put_bean)
                               [Resolved [vanilla]; Rejected (DbError "23502")])).
Proof.
  split; [reflexivity|].
  exact (server_error_iff_rejected UpdateFlavor req_put_bean
           [Resolved [vanilla]; Rejected (DbError "23502")] eq_refl).
Defined.

Lemma not_found_reads_only_witness :
  statusCode (out_res (serve (handler_of UpdateFlavor req_put_bean) [Resolved []])) = 404 ∧
  ∃ id, out_trace (serve (handler_of UpdateFlavor req_put_bean) [Resolved []])
          = [(Query sql_select_by_id [id], Resolved [])].
Proof.
  split; [reflexivity|].
  exact (not_found_reads_only UpdateFlavor req_put_bean [Resolved []] eq_refl).
Defined.

Lemma put_lost_row_witness :
  serve (put_flavor req_put_bean) [Resolved [vanilla]; Resolved []] =
    Outcome (answered (ok_json VUndefined) []) []
      [(Query sql_select_by_id [VStr "1"], Resolved [vanilla]);
       (Query sql_update [VStr "Vanilla Bean"; VBool false; VStr "1"], Resolved [])].
Proof.
  exact (put_lost_row req_put_bean [Resolved [vanilla]; Resolved []] _ _ _ vanilla [] _ _
           eq_refl eq_refl eq_refl eq_refl eq_refl).
Defined.

Lemma unreadable_body_escapes_witness :
  destructurable (req_params req_post_no_body) = true ∧
  destructurable (req_body req_post_no_body) = false ∧
  ∃ msg, serve (handler_of CreateFlavor req_post_no_body) [Resolved [vanilla]]
           = Outcome (Thrown (TypeError msg), init_hstate) [Resolved [vanilla]] [].
Proof.
  split; [reflexivity|]. split; [reflexivity|].
  exact (unreadable_body_escapes CreateFlavor req_post_no_body [Resolved [vanilla]]
           (or_introl eq_refl) eq_refl eq_refl).
Defined.
