(* ===== verification/Routes.v ===== *)
(** * The route table and the port of server.js

    [routes] is the five [app.<method>(path, ...)] registrations of the
    source with their path texts, in the order of the source, and [port]
    is line 5. Matching a request against a path text is Express's: a
    path is cut at its slashes, a segment [:name] of the pattern binds
    the request's segment (which must not be empty) and any other segment
    must be the same text up to the case of its letters, one trailing
    slash is ignored, a registration for GET answers HEAD as well, and
    the first registration that matches is taken. [rest_table] says the
    same without the registrations, and [dispatch_eq] that the two
    agree. Percent-decoding of parameters and letters outside ASCII are
    not modelled; the path of a request is its path without a query
    string. *)

From Stdlib Require Import Ascii.
From S2P Require Import Prelude Js Async Express Handlers.

#[local] Open Scope string_scope.

(** ** Methods and patterns *)

Inductive method : Type := GET | POST | PUT | DELETE | PATCH | HEAD | OPTIONS.

#[export] Instance method_eq_dec : EqDecision method.
Proof. solve_decision. Defined.

(** One segment of a path pattern: a literal, or a named parameter. *)
Inductive segment : Type :=
| Lit (s : string)
| Param (name : string).

(** ** Cutting paths *)

(** The pieces of a text between its slashes: ["/a/b"] gives
    [[""; "a"; "b"]]. *)
Fixpoint pieces (s : string) : list string :=
  match s with
  | EmptyString => [""]
  | String c s' =>
      if Ascii.eqb c "/"%char then "" :: pieces s'
      else match pieces s' with
           | p :: ps => String c p :: ps
           | [] => [String c ""]
           end
  end.

(** Drop one empty piece at the end: a trailing slash. *)
Definition drop_trailing (ps : list string) : list string :=
  match reverse ps with
  | "" :: rest => reverse rest
  | _ => ps
  end.

(** The segments of an absolute path; [None] when it does not start with
    a slash. *)
Definition path_segments (path : string) : option (list string) :=
  match pieces path with
  | "" :: ps => Some (drop_trailing ps)
  | _ => None
  end.

(** The pattern a path text of a registration stands for. *)
Definition compile_segment (p : string) : segment :=
  match p with
  | String ":"%char name => Param name
  | _ => Lit p
  end.

Definition compile_path (text : string) : list segment :=
  compile_segment <$> default [] (path_segments text).

(** ** Letters *)

(** Express compares the literal segments of a pattern without regard
    to the case of the letters A to Z. *)
Definition lower_ascii (c : ascii) : ascii :=
  let n := nat_of_ascii c in
  if (65 <=? n)%nat && (n <=? 90)%nat then ascii_of_nat (n + 32) else c.

Fixpoint lower (s : string) : string :=
  match s with
  | "" => ""
  | String c s => String (lower_ascii c) (lower s)
  end.

Definition same_text (a b : string) : bool := String.eqb (lower a) (lower b).
Arguments same_text : simpl never.

(** ** Matching *)

(** Match the segments of a request against a pattern, collecting the
    parameters in order. *)
Fixpoint match_segments (pat : list segment) (segs : list string)
  : option (list (string * value)) :=
  match pat, segs with
  | [], [] => Some []
  | Lit l :: pat, s :: segs =>
      if same_text l s then match_segments pat segs else None
  | Param name :: pat, s :: segs =>
      if decide (s = "") then None
      else ((name, VStr s) ::.) <$> match_segments pat segs
  | _, _ => None
  end.

(** ** The registrations *)

Record route := Route {
  route_method : method;
  route_path : string;
  route_endpoint : endpoint
}.

Definition routes : list route :=
  [ Route GET "/api/flavors" ListFlavors;
    Route GET "/api/flavors/:id" GetFlavor;
    Route POST "/api/flavors" CreateFlavor;
    Route PUT "/api/flavors/:id" UpdateFlavor;
    Route DELETE "/api/flavors/:id" DeleteFlavor ].

(** A registration answers the requests of its method, and one for GET
    those of HEAD as well. *)
Definition answers (registered m : method) : bool :=
  bool_decide (registered = m) || (bool_decide (registered = GET) && bool_decide (m = HEAD)).

(** A registration applied to a request: the endpoint and [req.params]
    when the registration answers the method and the path matches. *)
Definition route_match (m : method) (segs : list string) (r : route)
  : option (endpoint * value) :=
  if answers (route_method r) m then
    (λ ps, (route_endpoint r, VObj ps)) <$> match_segments (compile_path (route_path r)) segs
  else None.

(** The first registration that matches, in the order of the source. *)
Definition dispatch (m : method) (segs : list string) : option (endpoint * value) :=
  head (omap (route_match m segs) routes).

(** ** The REST table *)

(** The two shapes of path the table knows: the collection, and an item
    with its segment. *)
Definition collection_path (segs : list string) : bool :=
  match segs with
  | [a; b] => same_text "api" a && same_text "flavors" b
  | _ => false
  end.

Definition item_path (segs : list string) : option string :=
  match segs with
  | [a; b; s] =>
      if same_text "api" a && same_text "flavors" b && negb (String.eqb s "")
      then Some s else None
  | _ => None
  end.

(** The table of the REST interface: the endpoint of a method and a
    path, with the parameters of the path. *)
Definition rest_table (m : method) (segs : list string) : option (endpoint * value) :=
  if collection_path segs then
    match m with
    | GET | HEAD => Some (ListFlavors, VObj [])
    | POST => Some (CreateFlavor, VObj [])
    | _ => None
    end
  else
    s ← item_path segs;
    match m with
    | GET | HEAD => Some (GetFlavor, VObj [("id", VStr s)])
    | PUT => Some (UpdateFlavor, VObj [("id", VStr s)])
    | DELETE => Some (DeleteFlavor, VObj [("id", VStr s)])
    | _ => None
    end.

(** ** The application *)

(** A request as it reaches the application: its method, its path, and
    [req.body] as the body parser left it. *)
Record http_request := HttpRequest {
  http_method : method;
  http_path : string;
  http_body : value
}.

(** The application object [app] of the source, as the function from a
    request to the handler it is given to, with [req.params] filled in by
    the match; [None] when no registration matches, and the request is
    left to the framework. *)
Definition express_app (r : http_request) : option (handler unit) :=
  segs ← path_segments (http_path r);
  '(ep, params) ← dispatch (http_method r) segs;
  Some (handler_of ep (Request params (http_body r))).

(** ** Serving requests one after the other *)

Section session.
Context {St : Type} `{!Executor St}.

(** One request against the store: the response its handler left (whose
    [sent] is [None] if the handler threw before writing it) and the
    store afterwards; no response at all when no registration matches. *)
Definition handle (r : http_request) (s : St) : option response * St :=
  match express_app r with
  | Some h => (Some (out_res (serve h s)), out_store (serve h s))
  | None => (None, s)
  end.

(** A sequence of requests, each served to its end before the next. *)
Fixpoint session (rs : list http_request) (s : St) : list (option response) * St :=
  match rs with
  | [] => ([], s)
  | r :: rs =>
      let '(resp, s') := handle r s in
      let '(resps, s'') := session rs s' in
      (resp :: resps, s'')
  end.

End session.

(** ** The port *)

(** [process.env.PORT || 3000]: the variable's text when it is set and
    not empty, 3000 otherwise. *)
Definition port (env : list (string * string)) : value :=
  js_or (default VUndefined (VStr <$> assoc "PORT" env)) (VNum 3000).

(** ** A sample request *)

Definition http_put_bean : http_request :=
  HttpRequest PUT "/api/flavors/1"
    (VObj [("name", VStr "Vanilla Bean"); ("is_favorite", VBool false)]).

(** ** The two shapes of path *)

(** The collection pattern matches the collection paths and binds
    nothing; the item pattern matches the item paths and binds [id] to
    the segment as text. *)
Lemma match_collection segs :
  match_segments (compile_path "/api/flavors") segs
    = if collection_path segs then Some [] else None.
Proof.
  change (compile_path _) with [Lit "api"; Lit "flavors"].
  destruct segs as [|a [|b [|c segs]]]; cbn; try done; repeat case_match; done.
Qed.

Lemma match_item segs :
  match_segments (compile_path "/api/flavors/:id") segs
    = (λ s, [("id", VStr s)]) <$> item_path segs.
Proof.
  change (compile_path _) with [Lit "api"; Lit "flavors"; Param "id"].
  destruct segs as [|a [|b [|c [|d segs]]]]; cbn; try done;
    repeat (destruct (same_text _ _); try done); cbn.
  - case_decide as Hc; [by subst|]. by rewrite (proj2 (String.eqb_neq _ _) Hc).
  - by case_decide.
Qed.

(** A path is not both. *)
Lemma collection_not_item segs : collection_path segs = true → item_path segs = None.
Proof. by destruct segs as [|a [|b [|c segs]]]. Qed.

(** The paths as the source spells them. *)
Lemma item_path_exact s : s ≠ "" → item_path ["api"; "flavors"; s] = Some s.
Proof. intros Hs. cbn. by rewrite (proj2 (String.eqb_neq _ _) Hs). Qed.

Lemma item_path_segment segs s : item_path segs = Some s → s ≠ "".
Proof.
  destruct segs as [|a [|b [|c [|d segs]]]]; cbn; try done.
  destruct (_ && _) eqn:E; [|done]. intros [= <-].
  apply andb_prop in E as [_ E]. by apply negb_true_iff, String.eqb_neq in E.
Qed.

(** ** Dispatch *)

(** Dispatch over the registrations is the REST table. *)
Lemma dispatch_eq m segs : dispatch m segs = rest_table m segs.
Proof.
  unfold dispatch, routes, route_match, rest_table.
  cbn [omap list_omap route_method route_path route_endpoint].
  rewrite !match_collection, !match_item.
  destruct (collection_path segs) eqn:Hc;
    [rewrite (collection_not_item _ Hc) | destruct (item_path segs)]; by destruct m.
Qed.

Lemma dispatch_collection m :
  dispatch m ["api"; "flavors"] =
    match m with
    | GET | HEAD => Some (ListFlavors, VObj [])
    | POST => Some (CreateFlavor, VObj [])
    | _ => None
    end.
Proof. by rewrite dispatch_eq. Qed.

Lemma dispatch_item m s :
  s ≠ "" →
  dispatch m ["api"; "flavors"; s] =
    match m with
    | GET | HEAD => Some (GetFlavor, VObj [("id", VStr s)])
    | PUT => Some (UpdateFlavor, VObj [("id", VStr s)])
    | DELETE => Some (DeleteFlavor, VObj [("id", VStr s)])
    | _ => None
    end.
Proof.
  intros Hs. rewrite dispatch_eq. unfold rest_table.
  change (collection_path _) with false. cbv iota. by rewrite (item_path_exact _ Hs).
Qed.

(** A request that dispatch routes has one of the two shapes. *)
Lemma dispatch_inv m segs x :
  dispatch m segs = Some x →
  (collection_path segs = true ∧ x.2 = VObj []) ∨
  (∃ s, item_path segs = Some s ∧ s ≠ "" ∧ x.2 = VObj [("id", VStr s)]).
Proof.
  rewrite dispatch_eq. unfold rest_table. destruct (collection_path segs); intros Hx.
  - left. by destruct m; simplify_eq.
  - right. destruct (item_path segs) as [s|] eqn:Hs; [|done]. exists s.
    pose proof (item_path_segment _ _ Hs). by destruct m; simplify_eq/=.
Qed.

(** C25: dispatch implements the REST table: GET (and HEAD with it) and
    POST on the collection path, GET (and HEAD), PUT and DELETE on the
    item path with the segment bound to [id] as text, and nothing else. *)
Theorem dispatch_spec m segs ep params :
  dispatch m segs = Some (ep, params) ↔
    (collection_path segs = true ∧ params = VObj [] ∧
       ((m ∈ [GET; HEAD] ∧ ep = ListFlavors) ∨ (m = POST ∧ ep = CreateFlavor))) ∨
    (∃ s, item_path segs = Some s ∧ params = VObj [("id", VStr s)] ∧
       ((m ∈ [GET; HEAD] ∧ ep = GetFlavor) ∨ (m = PUT ∧ ep = UpdateFlavor) ∨
        (m = DELETE ∧ ep = DeleteFlavor))).
Proof.
  rewrite dispatch_eq. unfold rest_table. split.
  - intros Hd. destruct (collection_path segs).
    + left. destruct m; simplify_eq; (split; [done|]); (split; [done|]); set_solver.
    + right. destruct (item_path segs) as [s|]; [|done]. exists s.
      destruct m; simplify_eq/=; (split; [done|]); (split; [done|]); set_solver.
  - intros [(-> & -> & Hm)|(s & Hs & -> & Hm)].
    + destruct Hm as [[Hm ->]|[-> ->]]; [|done].
      by repeat (apply elem_of_cons in Hm as [->|Hm]); [..|apply elem_of_nil in Hm].
    + destruct (collection_path segs) eqn:Hc; [by rewrite (collection_not_item _ Hc) in Hs|].
      rewrite Hs. destruct Hm as [[Hm ->]|[[-> ->]|[-> ->]]]; [|done..].
      by repeat (apply elem_of_cons in Hm as [->|Hm]); [..|apply elem_of_nil in Hm].
Qed.

(** A registration that matches is the one dispatch takes. *)
Lemma route_match_dispatch m segs r x :
  r ∈ routes → route_match m segs r = Some x →
  dispatch m segs = Some x ∧ route_endpoint r = x.1.
Proof.
  intros Hr Hm. rewrite dispatch_eq. unfold routes in Hr. unfold route_match in Hm.
  destruct (answers _ m) eqn:Hmeth; [|done]. apply fmap_Some in Hm as (ps & Hps & ->).
  unfold rest_table.
  repeat (apply elem_of_cons in Hr as [->|Hr]); [..|by apply elem_of_nil in Hr];
    cbn [route_method route_path route_endpoint] in *;
    rewrite ?match_collection, ?match_item in Hps;
    destruct (collection_path segs) eqn:Hc; try done;
    rewrite ?(collection_not_item _ Hc) in Hps; try done;
    destruct (item_path segs); simplify_eq/=; by destruct m.
Qed.

(** C26: at most one registration matches a request, so the order of
    the registrations in the source does not matter. *)
Theorem routes_unambiguous m segs r1 r2 :
  r1 ∈ routes → r2 ∈ routes →
  is_Some (route_match m segs r1) → is_Some (route_match m segs r2) → r1 = r2.
Proof.
  intros Hr1 Hr2 [x1 H1] [x2 H2].
  destruct (route_match_dispatch _ _ _ _ Hr1 H1) as [Hd1 He1].
  destruct (route_match_dispatch _ _ _ _ Hr2 H2) as [Hd2 He2].
  assert (route_endpoint r1 = route_endpoint r2) as He by congruence.
  clear -Hr1 Hr2 He. unfold routes in *.
  repeat (apply elem_of_cons in Hr1 as [->|Hr1]); [..|by apply elem_of_nil in Hr1];
    repeat (apply elem_of_cons in Hr2 as [->|Hr2]); by (done || apply elem_of_nil in Hr2).
Qed.

(** The parameters dispatch produces can always be destructured, and on
    the three item routes they bind [id] to a text that is not empty: no
    routed request reaches a handler without its id. *)
Lemma dispatch_binds_id m segs ep params :
  dispatch m segs = Some (ep, params) →
  destructurable params = true ∧
  (ep ∈ [GetFlavor; UpdateFlavor; DeleteFlavor] →
   ∃ s, s ≠ "" ∧ get_prop params "id" = Normal (VStr s)).
Proof.
  intros Hd. destruct (dispatch_inv _ _ _ Hd) as [[Hc Hp]|(s & Hs & Hne & Hp)];
    cbn in Hp; subst params.
  - split; [done|]. intros Hin. exfalso. rewrite dispatch_eq in Hd. unfold rest_table in Hd.
    rewrite Hc in Hd.
    repeat (apply elem_of_cons in Hin as [->|Hin]); [..|by apply elem_of_nil in Hin];
      by destruct m.
  - split; [done|]. intros _. by exists s.
Qed.

(** A request the application routes reaches the handler of its
    endpoint with the parameters dispatch bound and the body as parsed.
    The parameters can always be destructured, so the request is well
    formed for its handler unless the handler reads the body and the
    body cannot be destructured: only POST and PUT can throw before
    their try block. *)
Lemma app_request_well_formed r h :
  express_app r = Some h →
  ∃ ep params, h = handler_of ep (Request params (http_body r)) ∧
               well_formed ep (Request params (http_body r))
                 = if decide (ep ∈ [CreateFlavor; UpdateFlavor])
                   then destructurable (http_body r) else true.
Proof.
  unfold express_app. intros Happ.
  destruct (path_segments (http_path r)) as [segs|]; [|done]. cbn in Happ.
  destruct (dispatch (http_method r) segs) as [[ep params]|] eqn:Hd; [|done].
  cbn in Happ. simplify_eq. exists ep, params. split; [done|].
  destruct (dispatch_binds_id _ _ _ _ Hd) as [Hp _].
  destruct ep; cbn; rewrite ?Hp; case_decide as Hin; try done.
  all: first [ by repeat (apply elem_of_cons in Hin as [?|Hin]); [..|by apply elem_of_nil in Hin]
             | by destruct Hin; repeat constructor ].
Qed.

(** ** The port *)

(** The port is the text of PORT when it is set and not empty, and 3000
    otherwise; it is never a falsy value. *)
Lemma port_spec env :
  port env = match assoc "PORT" env with
             | Some p => if decide (p = "") then VNum 3000 else VStr p
             | None => VNum 3000
             end
  ∧ truthy (port env) = true.
Proof.
  unfold port, js_or. destruct (assoc "PORT" env) as [p|]; cbn; [|done].
  case_decide as Hp; [by subst|].
  apply String.eqb_neq in Hp. rewrite Hp. cbn. by rewrite Hp.
Qed.

(** ** Concrete requests *)

Lemma routes_unambiguous_witness :
  Route PUT "/api/flavors/:id" UpdateFlavor ∈ routes ∧
  is_Some (route_match PUT ["api"; "flavors"; "1"] (Route PUT "/api/flavors/:id" UpdateFlavor)) ∧
  Route PUT "/api/flavors/:id" UpdateFlavor = Route PUT "/api/flavors/:id" UpdateFlavor.
Proof.
  assert (Route PUT "/api/flavors/:id" UpdateFlavor ∈ routes) as Hin
    by (unfold routes; repeat constructor).
  assert (is_Some (route_match PUT ["api"; "flavors"; "1"]
                     (Route PUT "/api/flavors/:id" UpdateFlavor))) as Hm
    by (by eexists).
  split; [exact Hin|]. split; [exact Hm|].
  exact (routes_unambiguous PUT ["api"; "flavors"; "1"] _ _ Hin Hin Hm Hm).
Defined.

Lemma dispatch_binds_id_witness :
  dispatch PUT ["api"; "flavors"; "1"] = Some (UpdateFlavor, VObj [("id", VStr "1")]) ∧
  destructurable (VObj [("id", VStr "1")]) = true ∧
  (UpdateFlavor ∈ [GetFlavor; UpdateFlavor; DeleteFlavor] →
   ∃ s, s ≠ "" ∧ get_prop (VObj [("id", VStr "1")]) "id" = Normal (VStr s)).
Proof.
  split; [reflexivity|].
  exact (dispatch_binds_id PUT ["api"; "flavors"; "1"] UpdateFlavor _ eq_refl).
Defined.

Lemma app_request_well_formed_witness :
  express_app http_put_bean = Some (handler_of UpdateFlavor req_put_bean) ∧
  ∃ ep params,
    handler_of UpdateFlavor req_put_bean
      = handler_of ep (Request params (http_body http_put_bean)) ∧
    well_formed ep (Request params (http_body http_put_bean))
      = if decide (ep ∈ [CreateFlavor; UpdateFlavor])
        then destructurable (http_body http_put_bean) else true.
Proof.
  split; [reflexivity|].
  exact (app_request_well_formed http_put_bean _ eq_refl).
Defined.
