(* ===== verification/Startup.v ===== *)
(** * The main module of server.js, from load to listening

    server.js is run once, top to bottom: it creates the application
    (line 4), reads the port (line 5), installs the JSON body parser
    (line 9), asks the application to listen (lines 12-14) and registers
    the five handlers (lines 18-102). Each of these calls changes the
    application: [app.use] and [app.get] ... [app.delete] append a layer
    to its stack, and [app.listen] checks the port at once and leaves the
    socket to be bound when the module has run. Only then does the
    runtime bind the socket, call the listening callback, which logs one
    line, and start to deliver requests.

    A request delivered to the application goes through the layers in
    the order they were appended: the body parser fills [req.body], and
    the first route that matches runs its handler. The handlers of
    server.js never pass the request on, so the first match is the only
    one.

    Node reads the port it is given as a number. This file reads a text
    of decimal digits as that number and leaves every other text
    ([OtherTarget]: a pipe name, or a numeral in another notation) out
    of the model. *)

From Stdlib Require Import Ascii.
From S2P Require Import Prelude Js Async Express Handlers Routes.

#[local] Open Scope string_scope.
#[local] Open Scope Z_scope.

(** ** Numbers read from text *)

(** The value of a decimal digit. *)
Definition digit_value (c : ascii) : option Z :=
  let n := Z.of_nat (nat_of_ascii c) - 48 in
  if (0 <=? n) && (n <=? 9) then Some n else None.

(** The number a text of decimal digits denotes, most significant digit
    first, after the digits [acc] already read. *)
Fixpoint digits_from (acc : Z) (s : string) : option Z :=
  match s with
  | "" => Some acc
  | String c s => d ← digit_value c; digits_from (10 * acc + d) s
  end.

(** A text that is a decimal numeral, not empty, and the number it
    denotes. *)
Definition decimal (s : string) : option Z :=
  match s with
  | "" => None
  | _ => digits_from 0 s
  end.

(** A value in a template literal, for the values that have a text of
    their own. *)
Definition to_text (v : value) : option string :=
  match v with
  | VUndefined => Some "undefined"
  | VNull => Some "null"
  | VBool b => Some (if b then "true" else "false")
  | VNum n => Some (Z_to_string n)
  | VStr s => Some s
  | VDate _ | VArr _ | VObj _ => None
  end.

(** ** The application and the process *)

(** [bodyParser.json()], the one middleware of the source. *)
Inductive middleware : Type := JsonBody.

(** A layer of the application's stack. *)
Inductive layer : Type :=
| LMiddleware (mw : middleware)
| LRoute (r : route).

(** The top-level calls of server.js on [app]. *)
Inductive statement : Type :=
| AppUse (mw : middleware)
| AppListen
| AppRoute (r : route).

(** The process: the stack of the application, the port of a listen
    that is under way, and the lines written to the console. *)
Record process := Process {
  proc_stack : list layer;
  proc_listen : option Z;
  proc_stdout : list string
}.

(** [const app = express()], nothing else done yet. *)
Definition fresh_process : process := Process [] None [].

(** The calls on [app] in the order of the source: line 9, lines 12-14,
    and the five registrations. *)
Definition server_js : list statement :=
  AppUse JsonBody :: AppListen :: (AppRoute <$> routes).

(** ** Listening *)

(** What [listen] makes of its first argument: a TCP port in range (0
    asks the system for a free port), a port out of range, or something
    that is not a decimal numeral. *)
Inductive target : Type :=
| TcpPort (n : Z)
| BadPort
| OtherTarget.

Definition in_range (n : Z) : target :=
  if (0 <=? n) && (n <=? 65535) then TcpPort n else BadPort.

Definition listen_target (port : value) : target :=
  match port with
  | VNum n => in_range n
  | VStr p => from_option in_range OtherTarget (decimal p)
  | _ => OtherTarget
  end.

(** The line the listening callback logs (line 13). *)
Definition listening_line (port : value) : option string :=
  String.append "Server running on port " <$> to_text port.

(** ** Running the module *)

(** How a run of the module ends: loaded, thrown out of with an error
    code, or outside the model. *)
Inductive loaded : Type :=
| Loaded (p : process)
| Threw (code : string) (p : process)
| NotModelled.

Definition app_use (mw : middleware) (p : process) : process :=
  Process (proc_stack p ++ [LMiddleware mw]) (proc_listen p) (proc_stdout p).

Definition app_route (r : route) (p : process) : process :=
  Process (proc_stack p ++ [LRoute r]) (proc_listen p) (proc_stdout p).

(** [app.listen(port, callback)]: a port out of range throws at the
    call; a port in range is left to be bound. *)
Definition app_listen (port : value) (p : process) : loaded :=
  match listen_target port with
  | TcpPort n => Loaded (Process (proc_stack p) (Some n) (proc_stdout p))
  | BadPort => Threw "ERR_SOCKET_BAD_PORT" p
  | OtherTarget => NotModelled
  end.

Definition exec_statement (env : list (string * string)) (st : statement) (p : process)
  : loaded :=
  match st with
  | AppUse mw => Loaded (app_use mw p)
  | AppListen => app_listen (port env) p
  | AppRoute r => Loaded (app_route r p)
  end.

(** The statements in order; a throw ends the run. *)
Fixpoint exec_module (env : list (string * string)) (sts : list statement) (p : process)
  : loaded :=
  match sts with
  | [] => Loaded p
  | st :: sts =>
      match exec_statement env st p with
      | Loaded p' => exec_module env sts p'
      | other => other
      end
  end.

Definition load (env : list (string * string)) : loaded :=
  exec_module env server_js fresh_process.

(** ** After the module has run *)

(** The process once the runtime has acted on the load: serving on a
    port, exited with an uncaught error, exited for want of anything to
    wait for, or outside the model. *)
Inductive running : Type :=
| Serving (n : Z) (p : process)
| Exited (code : string) (p : process)
| Idle (p : process)
| Unknown.

(** [free] says whether the port can be bound; when it cannot, the
    server emits an error nothing listens for, and the process exits. *)
Definition boot (env : list (string * string)) (free : bool) : running :=
  match load env with
  | Loaded p =>
      match proc_listen p with
      | Some n =>
          if free then
            Serving n (Process (proc_stack p) None
                         (proc_stdout p ++ option_list (listening_line (port env))))
          else Exited "EADDRINUSE" p
      | None => Idle p
      end
  | Threw code p => Exited code p
  | NotModelled => Unknown
  end.

(** ** Delivering a request *)

(** A request through the layers, [body] being [req.body] so far: the
    body parser sets it, a route that matches ends the walk with its
    handler, and a request that falls off the stack is left to the
    framework. *)
Fixpoint through (stack : list layer) (r : http_request) (body : value)
  : option (handler unit) :=
  match stack with
  | [] => None
  | LMiddleware JsonBody :: stack => through stack r (http_body r)
  | LRoute rt :: stack =>
      match path_segments (http_path r) ≫= (λ segs, route_match (http_method r) segs rt) with
      | Some (ep, params) => Some (handler_of ep (Request params body))
      | None => through stack r body
      end
  end.

(** [req.body] is [undefined] until a parser sets it. *)
Definition app_handle (p : process) (r : http_request) : option (handler unit) :=
  through (proc_stack p) r VUndefined.

(** ** Sample environments *)

Definition env_default : list (string * string) := [].
Definition env_8080 : list (string * string) := [("PORT", "8080")].
Definition env_70000 : list (string * string) := [("PORT", "70000")].

(** ** Decimal numerals *)

Lemma digit_value_range c d : digit_value c = Some d → 0 ≤ d ≤ 9.
Proof. unfold digit_value. cbn zeta. case_match; [|done]. intros [= <-]. lia. Qed.

Lemma digits_from_le acc s n : digits_from acc s = Some n → 0 ≤ acc → acc ≤ n.
Proof.
  revert acc. induction s as [|c s IH]; intros acc; cbn; [intros [= <-]; lia|].
  destruct (digit_value c) as [d|] eqn:Hd; [|done]. cbn. intros Hn Hacc.
  apply digit_value_range in Hd. apply IH in Hn; lia.
Qed.

Lemma decimal_nonneg s n : decimal s = Some n → 0 ≤ n.
Proof. destruct s; [done|]. intros Hn. by apply digits_from_le in Hn. Qed.

(** ** Listening *)

Lemma in_range_TcpPort n m : in_range n = TcpPort m ↔ n = m ∧ 0 ≤ m ≤ 65535.
Proof.
  unfold in_range. destruct (_ && _) eqn:E; [|split; [done|lia]].
  split; [intros [= <-]; lia|by intros [-> _]].
Qed.

Lemma in_range_BadPort n : in_range n = BadPort ↔ n < 0 ∨ 65535 < n.
Proof. unfold in_range. destruct (_ && _) eqn:E; [split; [done|lia]|]. split; [lia|done]. Qed.

(** The port of an environment is the fallback or the text of PORT. *)
Lemma port_cases env :
  (port env = VNum 3000 ∧ (assoc "PORT" env = None ∨ assoc "PORT" env = Some "")) ∨
  (∃ txt, txt ≠ "" ∧ assoc "PORT" env = Some txt ∧ port env = VStr txt).
Proof.
  unfold port, js_or. destruct (assoc "PORT" env) as [txt|]; cbn; [|by left; eauto].
  destruct (decide (txt = "")) as [->|Hne]; [left; eauto|].
  right. exists txt. by rewrite (proj2 (String.eqb_neq _ _) Hne).
Qed.

Lemma listen_target_port env n :
  listen_target (port env) = TcpPort n →
  0 ≤ n ≤ 65535 ∧
  match assoc "PORT" env with
  | None | Some "" => n = 3000 ∧ listening_line (port env) = Some "Server running on port 3000"
  | Some txt => decimal txt = Some n ∧
                listening_line (port env) = Some ("Server running on port " ++ txt)
  end.
Proof.
  destruct (port_cases env) as [[-> Henv]|(txt & Hne & -> & ->)]; unfold listen_target.
  - intros [<- ?]%in_range_TcpPort. by destruct Henv as [-> | ->].
  - destruct (decimal txt) as [m|]; [|done]. intros [-> ?]%in_range_TcpPort.
    by destruct txt.
Qed.

Lemma listen_target_bad env txt n :
  assoc "PORT" env = Some txt → decimal txt = Some n → 65535 < n →
  listen_target (port env) = BadPort.
Proof.
  intros Henv Hn Hlt. destruct (port_cases env) as [[_ [?| Ht]]|(? & _ & ? & ->)]; simplify_eq.
  unfold listen_target. rewrite Hn. apply in_range_BadPort. lia.
Qed.

(** ** Running the module *)

(** The stack of the application when every statement has run. *)
#[local] Abbreviation full_stack := (LMiddleware JsonBody :: (LRoute <$> routes)).

(** What loading comes to: it is decided by the port alone. *)
Lemma load_eq env :
  load env =
  match listen_target (port env) with
  | TcpPort n => Loaded (Process full_stack (Some n) [])
  | BadPort => Threw "ERR_SOCKET_BAD_PORT" (Process [LMiddleware JsonBody] None [])
  | OtherTarget => NotModelled
  end.
Proof. unfold load, server_js. cbn. unfold app_listen. by destruct (listen_target _). Qed.

Lemma boot_eq env free :
  boot env free =
  match listen_target (port env) with
  | TcpPort n =>
      if free then Serving n (Process full_stack None (option_list (listening_line (port env))))
      else Exited "EADDRINUSE" (Process full_stack (Some n) [])
  | BadPort => Exited "ERR_SOCKET_BAD_PORT" (Process [LMiddleware JsonBody] None [])
  | OtherTarget => Unknown
  end.
Proof. unfold boot. rewrite load_eq. by destruct (listen_target _). Qed.

Lemma boot_inv env free n p :
  boot env free = Serving n p →
  free = true ∧ listen_target (port env) = TcpPort n ∧
  p = Process full_stack None (option_list (listening_line (port env))).
Proof. rewrite boot_eq. repeat case_match; naive_solver. Qed.

(** ** Delivering a request *)

(** A stack of routes alone answers as the first route that matches. *)
Lemma through_routes rts r body :
  through (LRoute <$> rts) r body =
  segs ← path_segments (http_path r);
  '(ep, params) ← head (omap (route_match (http_method r) segs) rts);
  Some (handler_of ep (Request params body)).
Proof.
  induction rts as [|rt rts IH]; cbn; [by destruct (path_segments _)|].
  rewrite IH. destruct (path_segments (http_path r)) as [segs|]; cbn; [|done].
  by destruct (route_match _ segs rt) as [[ep params]|].
Qed.

(** ** The server that is up *)

(** C27: once server.js is serving (the module has loaded and the port was
    free), a request delivered to the process is given to the handler that
    [express_app] names, with the path parameters of the first matching
    route and the parsed body as [req.body]; a request that [express_app]
    leaves to the framework is left to it by the process as well. *)
Theorem boot_serves_as_app env free n p r :
  boot env free = Serving n p → app_handle p r = express_app r.
Proof.
  intros (_ & _ & ->)%boot_inv. unfold app_handle, express_app, dispatch. cbn [proc_stack through].
  apply through_routes.
Qed.

(** C39: the port server.js serves on is a TCP port, between 0 and 65535:
    3000 when PORT is unset or empty, and otherwise the number PORT
    denotes; the one line logged names the port as the environment
    spelled it. *)
Theorem serving_port_bounds env free n p :
  boot env free = Serving n p →
  0 ≤ n ≤ 65535 ∧
  match assoc "PORT" env with
  | None | Some "" => n = 3000 ∧ proc_stdout p = ["Server running on port 3000"]
  | Some txt => decimal txt = Some n ∧ proc_stdout p = ["Server running on port " ++ txt]
  end.
Proof.
  intros (_ & [Hn Henv]%listen_target_port & ->)%boot_inv. split; [done|]. cbn [proc_stdout].
  repeat case_match; destruct Henv as [? ->]; done.
Qed.

(** C40: with PORT a number above 65535 server.js does not start: [listen]
    throws at line 12, when the body parser is installed and no route is
    registered yet, and nothing is logged. *)
Theorem bad_port_exits env free txt n :
  assoc "PORT" env = Some txt → decimal txt = Some n → 65535 < n →
  boot env free = Exited "ERR_SOCKET_BAD_PORT" (Process [LMiddleware JsonBody] None []).
Proof.
  intros Henv Hn Hlt. by rewrite boot_eq, (listen_target_bad env txt n).
Qed.

(** A port that is taken ends the process after the whole module has
    run, with all five routes registered and nothing logged. *)
Lemma port_in_use_exits env n p :
  boot env true = Serving n p →
  boot env false = Exited "EADDRINUSE" (Process (proc_stack p) (Some n) []).
Proof.
  intros (_ & Hn & ->)%boot_inv. by rewrite boot_eq, Hn.
Qed.

(** ** Witnesses *)

Lemma boot_serves_as_app_witness :
  app_handle (Process full_stack None
                ["Server running on port 8080"]) http_put_bean
  = express_app http_put_bean.
Proof. exact (boot_serves_as_app env_8080 true 8080 _ http_put_bean eq_refl). Defined.

Lemma serving_port_bounds_witness :
  0 ≤ 8080 ≤ 65535 ∧
  decimal "8080" = Some 8080 ∧
  proc_stdout (Process full_stack None
                 ["Server running on port 8080"]) = ["Server running on port 8080"].
Proof. exact (serving_port_bounds env_8080 true 8080 _ eq_refl). Defined.

Lemma bad_port_exits_witness :
  boot env_70000 true = Exited "ERR_SOCKET_BAD_PORT" (Process [LMiddleware JsonBody] None []).
Proof. apply (bad_port_exits env_70000 true "70000" 70000); [done..|lia]. Defined.
