(* ===== verification/Keyed.v ===== *)
(** * Lists of records with a key, and the finite map they stand for

    A table kept as a list of rows in physical order, each row carrying
    its key, stands for the finite map from keys to rows ([index]). This
    file relates the list operations a store performs (filter by key,
    append, rewrite in place, remove) to lookup, insert, alter and delete
    on that map. The lemmas that need it assume the keys distinct. *)

From stdpp Require Export gmap.
From S2P Require Import Prelude.

Section keyed.
Context {A : Type} (key : A → Z).
Implicit Types (l : list A) (x : A) (i : Z).

(** The map a list stands for: each row under its key. *)
Definition index (l : list A) : gmap Z A :=
  list_to_map ((λ x, (key x, x)) <$> l).

(** Rewrite the rows of key [i] with [g], in place. *)
Definition update_at (i : Z) (g : A → A) (l : list A) : list A :=
  (λ x, if decide (key x = i) then g x else x) <$> l.

Lemma index_nil : index [] = ∅.
Proof. done. Qed.

Lemma index_cons x l : index (x :: l) = <[key x := x]> (index l).
Proof. done. Qed.

Lemma index_lookup_None l i : index l !! i = None ↔ i ∉ key <$> l.
Proof.
  induction l as [|x l IH]; [rewrite index_nil, lookup_empty; set_solver|].
  rewrite index_cons, fmap_cons, not_elem_of_cons, <-IH.
  destruct (decide (key x = i)) as [<-|Hne].
  - rewrite lookup_insert_eq. intuition congruence.
  - rewrite lookup_insert_ne by done. intuition congruence.
Qed.

Lemma index_lookup_elem l i x : index l !! i = Some x → x ∈ l ∧ key x = i.
Proof.
  induction l as [|y l IH]; [done|]. rewrite index_cons.
  destruct (decide (key y = i)) as [<-|Hne].
  - rewrite lookup_insert_eq. intros [= ->]. split; [left|done].
  - rewrite lookup_insert_ne by done. intros [? ?]%IH. split; [by right|done].
Qed.

Lemma index_lookup_Some l i x :
  NoDup (key <$> l) → index l !! i = Some x ↔ x ∈ l ∧ key x = i.
Proof.
  intros Hnd. split; [apply index_lookup_elem|]. intros [Hx <-].
  induction l as [|y l IH]; [by apply elem_of_nil in Hx|].
  apply NoDup_cons in Hnd as [Hy Hnd]. rewrite index_cons.
  apply elem_of_cons in Hx as [->|Hx]; [by rewrite lookup_insert_eq|].
  rewrite lookup_insert_ne; [by apply IH|].
  intros Heq. apply Hy. rewrite Heq. by apply list_elem_of_fmap_2.
Qed.

(** With distinct keys, the rows of key [i] are the row the map holds
    under [i], if any. *)
Lemma filter_key l i :
  NoDup (key <$> l) → filter (λ x, key x = i) l = option_list (index l !! i).
Proof.
  induction l as [|x l IH]; [done|]. intros [Hx Hnd]%NoDup_cons.
  rewrite index_cons, filter_cons. case_decide as Hk.
  - subst i. rewrite lookup_insert_eq, IH by done.
    by rewrite (proj2 (index_lookup_None l (key x)) Hx).
  - rewrite lookup_insert_ne by done. by apply IH.
Qed.

(** Appending a row under a new key inserts it. *)
Lemma index_snoc l x :
  key x ∉ key <$> l → index (l ++ [x]) = <[key x := x]> (index l).
Proof.
  induction l as [|y l IH]; [done|].
  rewrite fmap_cons, not_elem_of_cons. intros [Hne Hx]. cbn [app].
  rewrite !index_cons, IH by done. by apply insert_insert_ne.
Qed.

(** Removing the rows of key [i] deletes [i]. *)
Lemma index_filter_ne l i : index (filter (λ x, key x ≠ i) l) = delete i (index l).
Proof.
  induction l as [|x l IH]; [by rewrite filter_nil, index_nil, delete_empty|].
  rewrite filter_cons, index_cons. case_decide as Hk.
  - by rewrite index_cons, IH, delete_insert_ne.
  - subst i. by rewrite IH, delete_insert_eq.
Qed.

(** Rewriting in place keeps the keys when the rewriting does. *)
Lemma update_at_keys i g l :
  (∀ x, key (g x) = key x) → key <$> update_at i g l = key <$> l.
Proof.
  intros Hg. unfold update_at. rewrite <-list_fmap_compose.
  apply list_fmap_ext. intros _ x _. cbn. by case_decide.
Qed.

(** Rewriting the rows of key [i] in place alters the map at [i]. *)
Lemma index_update_at i g l :
  (∀ x, key (g x) = key x) → index (update_at i g l) = alter g i (index l).
Proof.
  intros Hg. induction l as [|x l IH];
    [by unfold update_at; rewrite fmap_nil, index_nil, alter_empty|].
  unfold update_at in *. rewrite fmap_cons, !index_cons, IH. case_decide as Hk.
  - subst i. rewrite Hg, alter_insert_eq. apply map_eq. intros j.
    destruct (decide (key x = j)) as [<-|];
      [by rewrite !lookup_insert_eq | by rewrite !lookup_insert_ne, lookup_alter_ne].
  - by rewrite alter_insert_ne.
Qed.

(** The rows of key [i] after rewriting are the rewritten rows of key
    [i]. *)
Lemma filter_update_at i g l :
  (∀ x, key (g x) = key x) →
  filter (λ x, key x = i) (update_at i g l) = g <$> filter (λ x, key x = i) l.
Proof.
  intros Hg. induction l as [|x l IH]; [done|].
  unfold update_at in *. rewrite fmap_cons, !filter_cons.
  destruct (decide (key x = i)) as [Hk|Hk].
  - rewrite decide_True by (by rewrite Hg). by rewrite fmap_cons, IH.
  - by rewrite decide_False.
Qed.

(** With distinct keys, the list is the values of its map, in some
    order. *)
Lemma index_values l : NoDup (key <$> l) → l ≡ₚ (map_to_list (index l)).*2.
Proof.
  intros Hnd. unfold index. rewrite map_to_list_to_map.
  - rewrite <-list_fmap_compose. by rewrite list_fmap_id.
  - by rewrite <-list_fmap_compose.
Qed.

Lemma index_size l : NoDup (key <$> l) → size (index l) = length l.
Proof.
  intros Hnd. rewrite <-length_map_to_list, <-(length_fmap snd).
  by rewrite <-(index_values l).
Qed.

End keyed.
Arguments index : simpl never.
Arguments update_at : simpl never.

(** An altered entry is the entry inserted anew. *)
Lemma alter_lookup_insert {A} (g : A → A) (i : Z) (m : gmap Z A) x :
  m !! i = Some x → alter g i m = <[i := g x]> m.
Proof.
  intros Hx. apply map_eq. intros j. destruct (decide (i = j)) as [<-|Hne].
  - by rewrite lookup_alter_eq, lookup_insert_eq, Hx.
  - by rewrite lookup_alter_ne, lookup_insert_ne.
Qed.
