(* ===== verification/Store.v ===== *)
(** * The flavors table and the contract of its store

    The store is outside the repository (server.js requires [./db]); the
    specification describes it as a query executor over one table
    [flavors] with columns [id], [name], [is_favorite], [updated_at].
    This file states what the service needs of it as an interface,
    [FlavorStore]: an executor whose state abstracts to a finite map from
    ids to rows ([table]), with an invariant ([store_ok]) and the laws
    of the statements of server.js: what each answers and does to the
    table for parameters of the expected types, and what a statement
    that resolves has done whatever its parameters. The rows a store
    yields have the type [flavor_type]. The service-level theorems are
    proved against this interface; [PgStore] implements it. *)

From stdpp Require Export gmap.
From S2P Require Import Prelude Js Async Express Handlers.

#[local] Open Scope string_scope.
#[local] Open Scope Z_scope.

(** ** Rows *)

(** A row of [flavors]. A column other than [id] may be NULL when the
    schema allows it; [updated_at] is a reading of the store's clock. *)
Record flavor := Flavor {
  f_id : Z;
  f_name : option string;
  f_favorite : option bool;
  f_updated : option Z
}.

#[export] Instance flavor_eq_dec : EqDecision flavor.
Proof. solve_decision. Defined.

(** A column value as the driver hands it to JavaScript. *)
Definition nullable {A} (f : A → value) (x : option A) : value :=
  match x with Some a => f a | None => VNull end.

(** A row as the object [SELECT *] and [RETURNING *] yield, columns in
    the order of the table. *)
Definition row_of (f : flavor) : value :=
  VObj [("id", VNum (f_id f));
        ("name", nullable VStr (f_name f));
        ("is_favorite", nullable VBool (f_favorite f));
        ("updated_at", nullable VDate (f_updated f))].

Arguments row_of : simpl never.

(** [t] is later than the row's timestamp, if it has one. *)
Definition newer (f : flavor) (t : Z) : Prop :=
  ∀ t0, f_updated f = Some t0 → t0 < t.

(** The type of a row: the columns of the data model, in the order of
    the table; every column but the id may be NULL. *)
Definition flavor_type : jtype :=
  TObject [("id", TNumber); ("name", TNullable TString);
           ("is_favorite", TNullable TBoolean); ("updated_at", TNullable TDate)].

(** ** Requests of the REST interface *)

(** The request a handler receives for the item path with segment
    [txt], and the body of a create or update. *)
Definition item_params (txt : string) : value := VObj [("id", VStr txt)].

Definition flavor_body (name : string) (fav : bool) : value :=
  VObj [("name", VStr name); ("is_favorite", VBool fav)].

(** ** The contract *)

Class FlavorStore (St : Type) `{!Executor St} := {
  (** The rows of the table, by id. *)
  table : St → gmap Z flavor;
  (** The invariant of the store. *)
  store_ok : St → Prop;
  (** The parameters the store reads as an id, with the id each denotes;
      the decimal text of an integer denotes it. *)
  read_id : value → option Z;
  read_id_text i : read_id (VStr (Z_to_string i)) = Some i;

  (** Every statement preserves the invariant. *)
  execute_ok q s : store_ok s → store_ok (execute q s).2;
  (** The selects never change the table. *)
  select_all_table ps s :
    table (execute (Query sql_select_all ps) s).2 = table s;
  select_by_id_table ps s :
    table (execute (Query sql_select_by_id ps) s).2 = table s;
  (** A rejected statement leaves the table as it was. *)
  rejected_table q (s : St) e :
    (execute q s).1 = Rejected e → table (execute q s).2 = table s;

  (** The unfiltered select resolves to all the rows, in some order. *)
  select_all_rows s :
    store_ok s →
    ∃ fs, (execute (Query sql_select_all []) s).1 = Resolved (row_of <$> fs) ∧
          fs ≡ₚ (map_to_list (table s)).*2;
  (** The select by id, given a parameter that denotes an id, resolves
      to the row of that id if there is one and to no row otherwise. *)
  select_by_id_rows s v i :
    store_ok s → read_id v = Some i →
    (execute (Query sql_select_by_id [v]) s).1
      = Resolved (row_of <$> option_list (table s !! i));
  (** It resolves to a row only for one parameter that denotes an id. *)
  select_by_id_found (s : St) ps r rows :
    (execute (Query sql_select_by_id ps) s).1 = Resolved (r :: rows) →
    ∃ v i, ps = [v] ∧ read_id v = Some i;
  (** Given a text that denotes no id, it is rejected. *)
  select_by_id_malformed (s : St) txt :
    read_id (VStr txt) = None →
    ∃ e, (execute (Query sql_select_by_id [VStr txt]) s).1 = Rejected e;

  (** The insert of a text and a boolean adds one row under an id that
      was not in the table, and resolves to that row. *)
  insert_row s n b :
    store_ok s →
    ∃ f, (execute (Query sql_insert [VStr n; VBool b]) s).1 = Resolved [row_of f] ∧
         f_name f = Some n ∧ f_favorite f = Some b ∧
         table s !! f_id f = None ∧
         table (execute (Query sql_insert [VStr n; VBool b]) s).2
           = <[f_id f := f]> (table s);

  (** Whatever its parameters, an insert that resolves has added one row
      under an id that was not in the table, and resolves to that row. *)
  insert_resolved ps s rows :
    store_ok s → (execute (Query sql_insert ps) s).1 = Resolved rows →
    ∃ f, rows = [row_of f] ∧ table s !! f_id f = None ∧
         table (execute (Query sql_insert ps) s).2 = <[f_id f := f]> (table s);

  (** The update of an existing id replaces its name and favorite flag,
      stamps it with a later time, and resolves to the new row. *)
  update_row s v i n b f0 :
    store_ok s → read_id v = Some i → table s !! i = Some f0 →
    ∃ t, newer f0 t ∧
         (execute (Query sql_update [VStr n; VBool b; v]) s).1
           = Resolved [row_of (Flavor i (Some n) (Some b) (Some t))] ∧
         table (execute (Query sql_update [VStr n; VBool b; v]) s).2
           = <[i := Flavor i (Some n) (Some b) (Some t)]> (table s);
  (** The update of an id that is not in the table changes nothing and
      resolves to no row. *)
  update_missing s v i n b :
    store_ok s → read_id v = Some i → table s !! i = None →
    (execute (Query sql_update [VStr n; VBool b; v]) s).1 = Resolved [] ∧
    table (execute (Query sql_update [VStr n; VBool b; v]) s).2 = table s;

  (** Given a text that denotes no id, the update is rejected as the
      select is. *)
  update_malformed (s : St) n b txt :
    read_id (VStr txt) = None →
    ∃ e, (execute (Query sql_update [VStr n; VBool b; VStr txt]) s).1 = Rejected e;

  (** Whatever the new name and flag, an update that resolves resolves
      to the row the table then holds for the id, if it holds one. *)
  update_resolved s vn vb v i rows :
    store_ok s → read_id v = Some i →
    (execute (Query sql_update [vn; vb; v]) s).1 = Resolved rows →
    rows = row_of <$> option_list (table (execute (Query sql_update [vn; vb; v]) s).2 !! i);

  (** The delete removes the row of the id, if any, and resolves to no
      row. *)
  delete_row s v i :
    store_ok s → read_id v = Some i →
    (execute (Query sql_delete [v]) s).1 = Resolved [] ∧
    table (execute (Query sql_delete [v]) s).2 = delete i (table s);

  (** Whatever its parameters, an update neither adds nor removes a row,
      a delete only removes rows, and an insert only adds rows. *)
  update_keeps_dom ps s :
    store_ok s → dom (table (execute (Query sql_update ps) s).2) = dom (table s);
  delete_shrinks ps s :
    store_ok s → table (execute (Query sql_delete ps) s).2 ⊆ table s;
  insert_grows ps s :
    store_ok s → table s ⊆ table (execute (Query sql_insert ps) s).2
}.
#[global] Hint Mode FlavorStore ! - : typeclass_instances.
Arguments table {St _ _} s : simpl never.
Arguments store_ok {St _ _} s : simpl never.
Arguments read_id St {_ _} v.
Arguments read_id_text St {_ _} i.

(** ** Lemmas on rows *)

Lemma row_of_inj f1 f2 : row_of f1 = row_of f2 → f1 = f2.
Proof.
  destruct f1 as [i1 [n1|] [b1|] [t1|]], f2 as [i2 [n2|] [b2|] [t2|]];
    cbn; intros [=]; by subst.
Qed.

#[export] Instance row_of_inj_inst : Inj (=) (=) row_of.
Proof. intros ??. apply row_of_inj. Qed.

Lemma row_of_typed f : has_type flavor_type (row_of f) = true.
Proof. by destruct f as [i [n|] [b|] [t|]]. Qed.

Lemma rows_of_typed fs : Forall (λ r, has_type flavor_type r = true) (row_of <$> fs).
Proof. apply Forall_fmap, Forall_true, row_of_typed. Qed.

Lemma row_of_id f : get_prop (row_of f) "id" = Normal (VNum (f_id f)).
Proof. done. Qed.

Lemma row_of_name f : get_prop (row_of f) "name" = Normal (nullable VStr (f_name f)).
Proof. done. Qed.

Lemma row_of_favorite f :
  get_prop (row_of f) "is_favorite" = Normal (nullable VBool (f_favorite f)).
Proof. done. Qed.

Lemma item_params_id txt : get_prop (item_params txt) "id" = Normal (VStr txt).
Proof. done. Qed.

Lemma flavor_body_name name fav : get_prop (flavor_body name fav) "name" = Normal (VStr name).
Proof. done. Qed.

Lemma flavor_body_favorite name fav :
  get_prop (flavor_body name fav) "is_favorite" = Normal (VBool fav).
Proof. done. Qed.

Lemma newer_None f t : f_updated f = None → newer f t.
Proof. by intros Hf t0 ?; simplify_eq. Qed.

(** ** The laws, for a settled query *)

Section steps.
Context {St : Type} `{FlavorStore St}.
Implicit Types (s : St) (ps : list value) (r : reply) (v : value).

Lemma execute_step_ok q s r s' : execute q s = (r, s') → store_ok s → store_ok s'.
Proof. intros E Hok. pose proof (execute_ok q s Hok) as Hs. by rewrite E in Hs. Qed.

Lemma select_all_step ps s r s' :
  execute (Query sql_select_all ps) s = (r, s') → table s' = table s.
Proof. intros E. pose proof (select_all_table ps s) as Hs. by rewrite E in Hs. Qed.

Lemma select_by_id_step ps s r s' :
  execute (Query sql_select_by_id ps) s = (r, s') → table s' = table s.
Proof. intros E. pose proof (select_by_id_table ps s) as Hs. by rewrite E in Hs. Qed.

Lemma update_step ps s r s' :
  execute (Query sql_update ps) s = (r, s') → store_ok s → dom (table s') = dom (table s).
Proof. intros E Hok. pose proof (update_keeps_dom ps s Hok) as Hs. by rewrite E in Hs. Qed.

Lemma delete_step ps s r s' :
  execute (Query sql_delete ps) s = (r, s') → store_ok s → table s' ⊆ table s.
Proof. intros E Hok. pose proof (delete_shrinks ps s Hok) as Hs. by rewrite E in Hs. Qed.

Lemma insert_step ps s r s' :
  execute (Query sql_insert ps) s = (r, s') → store_ok s → table s ⊆ table s'.
Proof. intros E Hok. pose proof (insert_grows ps s Hok) as Hs. by rewrite E in Hs. Qed.

Lemma rejected_step q s e s' : execute q s = (Rejected e, s') → table s' = table s.
Proof. intros E. pose proof (rejected_table q s e) as Hs. rewrite E in Hs. by apply Hs. Qed.

(** *** The number of rows *)

Lemma update_step_size ps s r s' :
  execute (Query sql_update ps) s = (r, s') → store_ok s → size (table s') = size (table s).
Proof. intros E Hok. by rewrite <-!size_dom, (update_step _ _ _ _ E Hok). Qed.

(** An insert that resolves has added one row. *)
Lemma insert_step_size ps s rows s' :
  execute (Query sql_insert ps) s = (Resolved rows, s') → store_ok s →
  size (table s') = S (size (table s)).
Proof.
  intros E Hok. destruct (insert_resolved ps s rows Hok) as (f & _ & Hf & Ht); [by rewrite E|].
  rewrite E in Ht. cbn in Ht. by rewrite Ht, map_size_insert_None.
Qed.

(** A delete by the parameters with which a select just found a row is
    not rejected, and removes one row. *)
Lemma delete_found_step ps s row rows s1 r s2 :
  execute (Query sql_select_by_id ps) s = (Resolved (row :: rows), s1) →
  execute (Query sql_delete ps) s1 = (r, s2) → store_ok s →
  (∃ rows', r = Resolved rows') ∧ S (size (table s2)) = size (table s).
Proof.
  intros E1 E2 Hok.
  destruct (select_by_id_found s ps row rows) as (v & i & -> & Hi); [by rewrite E1|].
  pose proof (select_by_id_rows s v i Hok Hi) as Hrows. rewrite E1 in Hrows. cbn in Hrows.
  destruct (table s !! i) as [f|] eqn:Hf; [|done].
  destruct (delete_row s1 v i) as [Hr Ht]; [by eapply execute_step_ok | done |].
  rewrite E2 in Hr, Ht. cbn in Hr, Ht. split; [by eexists|].
  rewrite Ht, (select_by_id_step _ _ _ _ E1), map_size_delete, Hf.
  assert (size (table s) ≠ 0%nat); [|lia].
  apply map_size_non_empty_iff. intros Hem. by rewrite Hem, lookup_empty in Hf.
Qed.

(** ** The laws, as the settlement a handler awaits

    Each law of the contract in the form a handler's run meets it: the
    reply and the store the query settles with, and what is known of that
    store. *)

Lemma select_all_settled s :
  store_ok s →
  ∃ fs s', execute (Query sql_select_all []) s = (Resolved (row_of <$> fs), s') ∧
           fs ≡ₚ (map_to_list (table s)).*2 ∧ table s' = table s ∧ store_ok s'.
Proof.
  intros Hok. destruct (select_all_rows s Hok) as (fs & Hr & Hfs).
  exists fs, (execute (Query sql_select_all []) s).2. rewrite <-Hr.
  eauto using surjective_pairing, select_all_table, execute_ok.
Qed.

Lemma select_by_id_settled s v i :
  store_ok s → read_id St v = Some i →
  ∃ s', execute (Query sql_select_by_id [v]) s
          = (Resolved (row_of <$> option_list (table s !! i)), s') ∧
        table s' = table s ∧ store_ok s'.
Proof.
  intros Hok Hi. exists (execute (Query sql_select_by_id [v]) s).2.
  rewrite <-(select_by_id_rows s v i Hok Hi).
  eauto using surjective_pairing, select_by_id_table, execute_ok.
Qed.

Lemma select_by_id_malformed_settled s txt :
  read_id St (VStr txt) = None →
  ∃ e s', execute (Query sql_select_by_id [VStr txt]) s = (Rejected e, s') ∧
          table s' = table s.
Proof.
  intros Hi. destruct (select_by_id_malformed s txt Hi) as [e He].
  exists e, (execute (Query sql_select_by_id [VStr txt]) s).2. rewrite <-He.
  eauto using surjective_pairing, select_by_id_table.
Qed.

Lemma insert_settled s n b :
  store_ok s →
  ∃ f s', execute (Query sql_insert [VStr n; VBool b]) s = (Resolved [row_of f], s') ∧
          f_name f = Some n ∧ f_favorite f = Some b ∧ table s !! f_id f = None ∧
          table s' = <[f_id f := f]> (table s) ∧ store_ok s'.
Proof.
  intros Hok. destruct (insert_row s n b Hok) as (f & Hr & ? & ? & ? & ?).
  exists f, (execute (Query sql_insert [VStr n; VBool b]) s).2. rewrite <-Hr.
  eauto 10 using surjective_pairing, execute_ok.
Qed.

Lemma update_settled s v i n b f0 :
  store_ok s → read_id St v = Some i → table s !! i = Some f0 →
  ∃ t s', newer f0 t ∧
          execute (Query sql_update [VStr n; VBool b; v]) s
            = (Resolved [row_of (Flavor i (Some n) (Some b) (Some t))], s') ∧
          table s' = <[i := Flavor i (Some n) (Some b) (Some t)]> (table s) ∧
          store_ok s'.
Proof.
  intros Hok Hi Hf. destruct (update_row s v i n b f0 Hok Hi Hf) as (t & ? & Hr & ?).
  exists t, (execute (Query sql_update [VStr n; VBool b; v]) s).2. rewrite <-Hr.
  eauto 10 using surjective_pairing, execute_ok.
Qed.

Lemma update_missing_settled s v i n b :
  store_ok s → read_id St v = Some i → table s !! i = None →
  ∃ s', execute (Query sql_update [VStr n; VBool b; v]) s = (Resolved [], s') ∧
        table s' = table s ∧ store_ok s'.
Proof.
  intros Hok Hi Hf. destruct (update_missing s v i n b Hok Hi Hf) as [Hr ?].
  exists (execute (Query sql_update [VStr n; VBool b; v]) s).2. rewrite <-Hr.
  eauto using surjective_pairing, execute_ok.
Qed.

Lemma update_malformed_settled s n b txt :
  read_id St (VStr txt) = None →
  ∃ e s', execute (Query sql_update [VStr n; VBool b; VStr txt]) s = (Rejected e, s') ∧
          table s' = table s.
Proof.
  intros Hi. destruct (update_malformed s n b txt Hi) as [e He].
  exists e, (execute (Query sql_update [VStr n; VBool b; VStr txt]) s).2. rewrite <-He.
  eauto using surjective_pairing, rejected_table.
Qed.

Lemma delete_settled s v i :
  store_ok s → read_id St v = Some i →
  ∃ s', execute (Query sql_delete [v]) s = (Resolved [], s') ∧
        table s' = delete i (table s) ∧ store_ok s'.
Proof.
  intros Hok Hi. destruct (delete_row s v i Hok Hi) as [Hr ?].
  exists (execute (Query sql_delete [v]) s).2. rewrite <-Hr.
  eauto using surjective_pairing, execute_ok.
Qed.

(** *** The rows a resolved statement yields *)

Lemma select_all_typed s rows s' :
  store_ok s → execute (Query sql_select_all []) s = (Resolved rows, s') →
  Forall (λ row, has_type flavor_type row = true) rows.
Proof.
  intros Hok E. destruct (select_all_rows s Hok) as (fs & Hr & _).
  rewrite E in Hr. cbn in Hr. simplify_eq. apply rows_of_typed.
Qed.

(** A select by id that found a row was given an id that is in the
    table, and found a row of the data model. *)
Lemma select_by_id_typed s ps row rows s' :
  store_ok s → execute (Query sql_select_by_id ps) s = (Resolved (row :: rows), s') →
  has_type flavor_type row = true ∧
  ∃ v i, ps = [v] ∧ read_id St v = Some i ∧ is_Some (table s' !! i) ∧ store_ok s'.
Proof.
  intros Hok E.
  destruct (select_by_id_found s ps row rows) as (v & i & -> & Hi); [by rewrite E|].
  pose proof (select_by_id_rows s v i Hok Hi) as Hr. rewrite E in Hr. cbn in Hr.
  rewrite (select_by_id_step _ _ _ _ E).
  destruct (table s !! i) as [f|] eqn:Hf; simplify_eq/=.
  split; [apply row_of_typed|]. exists v, i. rewrite Hf. eauto using execute_step_ok.
Qed.

Lemma insert_typed s ps rows s' :
  store_ok s → execute (Query sql_insert ps) s = (Resolved rows, s') →
  has_type flavor_type (js_index rows 0) = true.
Proof.
  intros Hok E. destruct (insert_resolved ps s rows Hok) as (f & -> & _); [by rewrite E|].
  apply row_of_typed.
Qed.

(** An update of an id that is in the table resolves to a row. *)
Lemma update_typed s vn vb v i rows s' :
  store_ok s → read_id St v = Some i → is_Some (table s !! i) →
  execute (Query sql_update [vn; vb; v]) s = (Resolved rows, s') →
  has_type flavor_type (js_index rows 0) = true.
Proof.
  intros Hok Hi Hin E. pose proof (update_resolved s vn vb v i rows Hok Hi) as Hr.
  pose proof (update_step _ _ _ _ E Hok) as Hdom. rewrite E in Hr. cbn in Hr.
  apply elem_of_dom in Hin. rewrite <-Hdom in Hin. apply elem_of_dom in Hin as [f Hf].
  rewrite Hr, Hf by done. apply row_of_typed.
Qed.

End steps.

#[export] Hint Resolve execute_step_ok select_all_step select_by_id_step
  update_step delete_step insert_step rejected_step : flavors.
