(* ===== verification/PgStore.v ===== *)
(** * A relational store for the flavors table

    An executable model of what stands behind [db.query]: the table as a
    list of rows in physical order, the sequence that generates ids, and
    a clock that [NOW()] reads. It understands the five statements of
    server.js, converts their parameters to the columns' types, and
    rejects everything else. It implements the [FlavorStore] contract.

    Modelled from the specification and from the behaviour of a
    PostgreSQL table [flavors(id serial primary key, name, is_favorite,
    updated_at)]; the schema's choices the specification leaves open
    (which columns may be NULL, whether an insert stamps [updated_at])
    are a field of the state ([schema]). Parameter conversion covers the
    JSON scalars; a Date, an array or an object given as a parameter is
    rejected, where PostgreSQL would take a rendering of it as text. *)

From S2P Require Import Prelude Js Async Express Handlers Keyed Store.

#[local] Open Scope string_scope.
#[local] Open Scope Z_scope.

(** ** State *)

Record schema := Schema {
  name_required : bool;
  favorite_required : bool;
  stamp_on_insert : bool
}.

Record pg := Pg {
  pg_schema : schema;
  pg_rows : list flavor;
  pg_next_id : Z;
  pg_clock : Z
}.

(** An empty table whose sequence starts at 1. *)
Definition pg_empty (sch : schema) : pg := Pg sch [] 1 0.

(** ** Error codes *)

Definition invalid_text_representation : string := "22P02".
Definition not_null_violation : string := "23502".
Definition syntax_error : string := "42601".
Definition protocol_violation : string := "08P01".

(** ** Parameters *)

(** A parameter for an integer column: [undefined] and [null] are NULL,
    a number is itself, a text is read as a decimal integer. *)
Definition as_integer (v : value) : result string (option Z) :=
  match v with
  | VUndefined | VNull => Ok None
  | VNum n => Ok (Some n)
  | VStr s =>
      match Z_of_string s with
      | Some n => Ok (Some n)
      | None => Err invalid_text_representation
      end
  | VBool _ | VDate _ | VArr _ | VObj _ => Err invalid_text_representation
  end.

(** A parameter for a text column. *)
Definition as_text (v : value) : result string (option string) :=
  match v with
  | VUndefined | VNull => Ok None
  | VStr s => Ok (Some s)
  | VNum n => Ok (Some (Z_to_string n))
  | VBool b => Ok (Some (if b then "true" else "false"))
  | VDate _ | VArr _ | VObj _ => Err invalid_text_representation
  end.

(** The texts a boolean column reads as true and as false. *)
Definition true_texts : list string := ["true"; "t"; "yes"; "y"; "on"; "1"].
Definition false_texts : list string := ["false"; "f"; "no"; "n"; "off"; "0"].

(** A parameter for a boolean column. *)
Definition as_boolean (v : value) : result string (option bool) :=
  match v with
  | VUndefined | VNull => Ok None
  | VBool b => Ok (Some b)
  | VStr s =>
      if decide (s ∈ true_texts) then Ok (Some true)
      else if decide (s ∈ false_texts) then Ok (Some false)
      else Err invalid_text_representation
  | VNum n =>
      if decide (n = 1) then Ok (Some true)
      else if decide (n = 0) then Ok (Some false)
      else Err invalid_text_representation
  | VDate _ | VArr _ | VObj _ => Err invalid_text_representation
  end.

(** ** Statements *)

Definition rejection (code : string) (db : pg) : reply * pg :=
  (Rejected (DbError code), db).

(** The NOT NULL constraints of the schema, on a name and a flag. *)
Definition violates (sch : schema) (n : option string) (b : option bool) : bool :=
  (name_required sch && bool_decide (n = None))
  || (favorite_required sch && bool_decide (b = None)).

Definition with_rows (db : pg) (rows : list flavor) : pg :=
  Pg (pg_schema db) rows (pg_next_id db) (pg_clock db).

(** [SELECT * FROM flavors] *)
Definition run_select_all (ps : list value) (db : pg) : reply * pg :=
  match ps with
  | [] => (Resolved (row_of <$> pg_rows db), db)
  | _ => rejection protocol_violation db
  end.

(** [SELECT * FROM flavors WHERE id = $1] *)
Definition run_select_by_id (ps : list value) (db : pg) : reply * pg :=
  match ps with
  | [v] =>
      match as_integer v with
      | Ok (Some i) => (Resolved (row_of <$> filter (λ f, f_id f = i) (pg_rows db)), db)
      | Ok None => (Resolved [], db)
      | Err code => rejection code db
      end
  | _ => rejection protocol_violation db
  end.

(** [INSERT INTO flavors (name, is_favorite) VALUES ($1, $2) RETURNING *]:
    the id is drawn from the sequence before the constraints are
    checked, so a violation still consumes it. *)
Definition run_insert (ps : list value) (db : pg) : reply * pg :=
  match ps with
  | [vn; vb] =>
      match as_text vn, as_boolean vb with
      | Ok n, Ok b =>
          let drawn := Pg (pg_schema db) (pg_rows db) (pg_next_id db + 1) (pg_clock db) in
          if violates (pg_schema db) n b then rejection not_null_violation drawn
          else
            let f := Flavor (pg_next_id db) n b
                       (if stamp_on_insert (pg_schema db) then Some (pg_clock db) else None) in
            (Resolved [row_of f], with_rows drawn (pg_rows db ++ [f]))
      | Err code, _ | _, Err code => rejection code db
      end
  | _ => rejection protocol_violation db
  end.

(** [UPDATE flavors SET name = $1, is_favorite = $2, updated_at = NOW()
    WHERE id = $3 RETURNING *]: the constraints are checked on the rows
    the statement rewrites, so with no such row nothing is rejected. *)
Definition run_update (ps : list value) (db : pg) : reply * pg :=
  match ps with
  | [vn; vb; vi] =>
      match as_text vn, as_boolean vb, as_integer vi with
      | Ok n, Ok b, Ok (Some i) =>
          match filter (λ f, f_id f = i) (pg_rows db) with
          | [] => (Resolved [], db)
          | _ :: _ =>
              if violates (pg_schema db) n b then rejection not_null_violation db
              else
                let rows := update_at f_id i
                              (λ f, Flavor (f_id f) n b (Some (pg_clock db))) (pg_rows db) in
                (Resolved (row_of <$> filter (λ f, f_id f = i) rows), with_rows db rows)
          end
      | Ok _, Ok _, Ok None => (Resolved [], db)
      | Err code, _, _ | _, Err code, _ | _, _, Err code => rejection code db
      end
  | _ => rejection protocol_violation db
  end.

(** [DELETE FROM flavors WHERE id = $1] *)
Definition run_delete (ps : list value) (db : pg) : reply * pg :=
  match ps with
  | [v] =>
      match as_integer v with
      | Ok (Some i) => (Resolved [], with_rows db (filter (λ f, f_id f ≠ i) (pg_rows db)))
      | Ok None => (Resolved [], db)
      | Err code => rejection code db
      end
  | _ => rejection protocol_violation db
  end.

(** The clock advances with every statement. *)
Definition tick (db : pg) : pg :=
  Pg (pg_schema db) (pg_rows db) (pg_next_id db) (pg_clock db + 1).

(** The executor: the five statements by their text, anything else a
    syntax error. *)
Definition pg_execute (q : query) (db : pg) : reply * pg :=
  let db := tick db in
  if decide (q_sql q = sql_select_all) then run_select_all (q_params q) db
  else if decide (q_sql q = sql_select_by_id) then run_select_by_id (q_params q) db
  else if decide (q_sql q = sql_insert) then run_insert (q_params q) db
  else if decide (q_sql q = sql_update) then run_update (q_params q) db
  else if decide (q_sql q = sql_delete) then run_delete (q_params q) db
  else rejection syntax_error db.

#[export] Instance pg_executor : Executor pg := pg_execute.

(** ** Invariant and abstraction *)

(** A row respects the NOT NULL constraints of the schema. *)
Definition row_ok (sch : schema) (f : flavor) : Prop :=
  violates sch (f_name f) (f_favorite f) = false.

(** The ids are distinct and below the sequence, no timestamp is ahead of
    the clock (which is therefore ahead of them after a tick), and every
    row respects the constraints. *)
Record pg_ok (db : pg) : Prop := PgOk {
  ok_nodup : NoDup (f_id <$> pg_rows db);
  ok_below : Forall (λ f, f_id f < pg_next_id db) (pg_rows db);
  ok_clock : Forall (λ f, ∀ t, f_updated f = Some t → t ≤ pg_clock db) (pg_rows db);
  ok_rows : Forall (row_ok (pg_schema db)) (pg_rows db)
}.

Definition pg_table (db : pg) : gmap Z flavor := index f_id (pg_rows db).

(** The parameters the store reads as an id. *)
Definition pg_read_id (v : value) : option Z :=
  match as_integer v with
  | Ok (Some i) => Some i
  | _ => None
  end.

(** ** The executor, statement by statement *)

Section dispatch.
Implicit Types (db : pg) (ps : list value).

Lemma pg_execute_select_all ps db :
  execute (Query sql_select_all ps) db = run_select_all ps (tick db).
Proof. done. Qed.

Lemma pg_execute_select_by_id ps db :
  execute (Query sql_select_by_id ps) db = run_select_by_id ps (tick db).
Proof. done. Qed.

Lemma pg_execute_insert ps db :
  execute (Query sql_insert ps) db = run_insert ps (tick db).
Proof. done. Qed.

Lemma pg_execute_update ps db :
  execute (Query sql_update ps) db = run_update ps (tick db).
Proof. done. Qed.

Lemma pg_execute_delete ps db :
  execute (Query sql_delete ps) db = run_delete ps (tick db).
Proof. done. Qed.

(** Whatever the text, the executor runs one of the five statements on
    the ticked state or rejects without touching it. *)
Lemma pg_execute_cases q db :
  execute q db ∈
    [run_select_all (q_params q) (tick db); run_select_by_id (q_params q) (tick db);
     run_insert (q_params q) (tick db); run_update (q_params q) (tick db);
     run_delete (q_params q) (tick db); rejection syntax_error (tick db)].
Proof.
  unfold execute, pg_executor, pg_execute. cbn zeta.
  repeat case_decide; set_solver.
Qed.

End dispatch.

(** ** Parameters of the expected types *)

Lemma pg_read_id_integer v i : pg_read_id v = Some i → as_integer v = Ok (Some i).
Proof. unfold pg_read_id. destruct (as_integer v) as [[?|]|]; naive_solver. Qed.

Lemma pg_read_id_text i : pg_read_id (VStr (Z_to_string i)) = Some i.
Proof. unfold pg_read_id. cbn. by rewrite Z_of_to_string. Qed.

Lemma pg_read_id_malformed txt :
  pg_read_id (VStr txt) = None → as_integer (VStr txt) = Err invalid_text_representation.
Proof. unfold pg_read_id. cbn. by destruct (Z_of_string txt). Qed.

Lemma violates_present sch n b : violates sch (Some n) (Some b) = false.
Proof. unfold violates. by rewrite !bool_decide_eq_false_2, !andb_false_r. Qed.

(** ** The invariant is preserved *)

Section invariant.
Implicit Types (db : pg) (ps : list value).

Lemma pg_empty_ok sch : pg_ok (pg_empty sch).
Proof. split; cbn; by constructor. Qed.

Lemma tick_ok db : pg_ok db → pg_ok (tick db).
Proof.
  intros [? ? Hc ?]. split; cbn; [done..| |done].
  eapply Forall_impl; [exact Hc|]. intros f Hf t Ht. specialize (Hf t Ht). lia.
Qed.

(** After a tick the clock is strictly ahead of every timestamp. *)
Lemma tick_newer db f : pg_ok db → f ∈ pg_rows db → newer f (pg_clock (tick db)).
Proof.
  intros [_ _ Hc _] Hf t Ht. rewrite Forall_forall in Hc.
  specialize (Hc f Hf t Ht). cbn. lia.
Qed.

Lemma rejection_ok code db : pg_ok db → pg_ok (rejection code db).2.
Proof. done. Qed.

Lemma run_select_all_store ps db : (run_select_all ps db).2 = db.
Proof. by destruct ps. Qed.

Lemma run_select_by_id_store ps db : (run_select_by_id ps db).2 = db.
Proof. destruct ps as [|v [|??]]; [done| |done]. cbn. by destruct (as_integer v) as [[?|]|]. Qed.

(** The id drawn from the sequence is not in the table. *)
Lemma next_id_fresh db : pg_ok db → pg_next_id db ∉ f_id <$> pg_rows db.
Proof.
  intros [_ Hb _ _] (f & Hid & Hf)%list_elem_of_fmap.
  rewrite Forall_forall in Hb. specialize (Hb f Hf). lia.
Qed.

Lemma insert_ok db n b :
  pg_ok db → violates (pg_schema db) n b = false →
  pg_ok (Pg (pg_schema db)
            (pg_rows db ++ [Flavor (pg_next_id db) n b
               (if stamp_on_insert (pg_schema db) then Some (pg_clock db) else None)])
            (pg_next_id db + 1) (pg_clock db)).
Proof.
  intros Hok Hv. pose proof (next_id_fresh db Hok) as Hfresh.
  destruct Hok as [Hnd Hb Hc Hr]. split; cbn.
  - rewrite fmap_app. apply NoDup_app. repeat split; [done| |apply NoDup_singleton].
    intros i Hi [->|[]%elem_of_nil]%elem_of_cons. done.
  - apply Forall_app. split; [|by repeat constructor; cbn; lia].
    eapply Forall_impl; [exact Hb|]. cbn. intros; lia.
  - apply Forall_app. split; [done|]. repeat constructor. cbn.
    intros t. destruct (stamp_on_insert _); intros [=]; lia.
  - apply Forall_app. split; [done|]. by repeat constructor.
Qed.

Lemma drawn_ok db :
  pg_ok db → pg_ok (Pg (pg_schema db) (pg_rows db) (pg_next_id db + 1) (pg_clock db)).
Proof.
  intros [? Hb ? ?]. split; cbn; [done| |done..].
  eapply Forall_impl; [exact Hb|]. cbn. intros; lia.
Qed.

Lemma run_insert_ok ps db : pg_ok db → pg_ok (run_insert ps db).2.
Proof.
  intros Hok. destruct ps as [|vn [|vb [|??]]]; [done..| |done]. cbn.
  destruct (as_text vn) as [n|], (as_boolean vb) as [b|]; [|done..].
  destruct (violates _ n b) eqn:Hv; [by apply drawn_ok | by apply (insert_ok db)].
Qed.

Lemma update_ok db i n b :
  pg_ok db → violates (pg_schema db) n b = false →
  pg_ok (with_rows db
           (update_at f_id i (λ f, Flavor (f_id f) n b (Some (pg_clock db))) (pg_rows db))).
Proof.
  intros [Hnd Hb Hc Hr] Hv. split; cbn.
  - by rewrite update_at_keys.
  - unfold update_at. apply Forall_fmap. eapply Forall_impl; [exact Hb|].
    intros f ?; cbn. by case_decide.
  - unfold update_at. apply Forall_fmap. eapply Forall_impl; [exact Hc|].
    intros f Hf; cbn. case_decide; [|done]. cbn. intros t [= <-]. lia.
  - unfold update_at. apply Forall_fmap. eapply Forall_impl; [exact Hr|].
    intros f Hf; cbn. by case_decide.
Qed.

Lemma run_update_ok ps db : pg_ok db → pg_ok (run_update ps db).2.
Proof.
  intros Hok. destruct ps as [|vn [|vb [|vi [|??]]]]; [done..| |done]. cbn.
  destruct (as_text vn) as [n|], (as_boolean vb) as [b|], (as_integer vi) as [[i|]|];
    [|done..].
  destruct (filter _ _); [done|].
  destruct (violates _ n b) eqn:Hv; [done | by apply update_ok].
Qed.

Lemma delete_ok db i :
  pg_ok db → pg_ok (with_rows db (filter (λ f, f_id f ≠ i) (pg_rows db))).
Proof.
  intros [Hnd Hb Hc Hr]. split; cbn; [|by apply Forall_filter..].
  eapply sublist_NoDup; [exact Hnd|]. apply fmap_sublist, sublist_filter.
Qed.

Lemma run_delete_ok ps db : pg_ok db → pg_ok (run_delete ps db).2.
Proof.
  intros Hok. destruct ps as [|v [|??]]; [done| |done]. cbn.
  destruct (as_integer v) as [[i|]|]; [by apply delete_ok | done..].
Qed.

Lemma pg_execute_ok q db : pg_ok db → pg_ok (execute q db).2.
Proof.
  intros Hok%tick_ok. pose proof (pg_execute_cases q db) as Hq.
  repeat (apply elem_of_cons in Hq as [->|Hq]); [..|by apply elem_of_nil in Hq].
  - by rewrite run_select_all_store.
  - by rewrite run_select_by_id_store.
  - by apply run_insert_ok.
  - by apply run_update_ok.
  - by apply run_delete_ok.
  - done.
Qed.

End invariant.

(** ** What each statement does to the table *)

Section table.
Implicit Types (db : pg) (ps : list value).

Lemma tick_table db : pg_table (tick db) = pg_table db.
Proof. done. Qed.

Lemma tick_rows db : pg_rows (tick db) = pg_rows db.
Proof. done. Qed.

(** With distinct ids, the rows of an id are what the table holds. *)
Lemma pg_filter_id db i :
  pg_ok db → filter (λ f, f_id f = i) (pg_rows db) = option_list (pg_table db !! i).
Proof. intros [Hnd _ _ _]. by apply filter_key. Qed.

(** A rejected statement leaves the rows as they were. *)
Lemma pg_rejected_rows q db e :
  (execute q db).1 = Rejected e → pg_rows (execute q db).2 = pg_rows db.
Proof.
  pose proof (pg_execute_cases q db) as Hq.
  repeat (apply elem_of_cons in Hq as [->|Hq]); [..|by apply elem_of_nil in Hq].
  - by rewrite run_select_all_store.
  - by rewrite run_select_by_id_store.
  - unfold run_insert. repeat case_match; by cbn.
  - unfold run_update. repeat case_match; by cbn.
  - unfold run_delete. repeat case_match; by cbn.
  - done.
Qed.

Lemma pg_rejected_table q db e :
  (execute q db).1 = Rejected e → pg_table (execute q db).2 = pg_table db.
Proof. intros Hr. unfold pg_table. by rewrite (pg_rejected_rows _ _ _ Hr). Qed.

Lemma pg_select_all_table ps db :
  pg_table (execute (Query sql_select_all ps) db).2 = pg_table db.
Proof. by rewrite pg_execute_select_all, run_select_all_store. Qed.

Lemma pg_select_by_id_table ps db :
  pg_table (execute (Query sql_select_by_id ps) db).2 = pg_table db.
Proof. by rewrite pg_execute_select_by_id, run_select_by_id_store. Qed.

Lemma pg_select_all_rows db :
  pg_ok db →
  ∃ fs, (execute (Query sql_select_all []) db).1 = Resolved (row_of <$> fs) ∧
        fs ≡ₚ (map_to_list (pg_table db)).*2.
Proof. intros [Hnd _ _ _]. exists (pg_rows db). split; [done|]. by apply index_values. Qed.

Lemma pg_select_by_id_rows db v i :
  pg_ok db → pg_read_id v = Some i →
  (execute (Query sql_select_by_id [v]) db).1
    = Resolved (row_of <$> option_list (pg_table db !! i)).
Proof.
  intros Hok Hi. rewrite pg_execute_select_by_id. unfold run_select_by_id.
  by rewrite (pg_read_id_integer _ _ Hi), tick_rows, pg_filter_id.
Qed.

Lemma pg_select_by_id_found db ps r rows :
  (execute (Query sql_select_by_id ps) db).1 = Resolved (r :: rows) →
  ∃ v i, ps = [v] ∧ pg_read_id v = Some i.
Proof.
  rewrite pg_execute_select_by_id. unfold run_select_by_id.
  destruct ps as [|v [|? ?]]; [done| |done].
  destruct (as_integer v) as [[i|]|] eqn:E; [|done..]. intros _.
  exists v, i. unfold pg_read_id. by rewrite E.
Qed.

Lemma pg_select_by_id_malformed db txt :
  pg_read_id (VStr txt) = None →
  ∃ e, (execute (Query sql_select_by_id [VStr txt]) db).1 = Rejected e.
Proof.
  intros Hi. rewrite pg_execute_select_by_id. unfold run_select_by_id.
  rewrite (pg_read_id_malformed _ Hi). by eexists.
Qed.

Lemma pg_update_malformed db n b txt :
  pg_read_id (VStr txt) = None →
  ∃ e, (execute (Query sql_update [VStr n; VBool b; VStr txt]) db).1 = Rejected e.
Proof.
  intros Hi. rewrite pg_execute_update. unfold run_update. cbn [as_text as_boolean].
  rewrite (pg_read_id_malformed _ Hi). by eexists.
Qed.

Lemma pg_insert_row db n b :
  pg_ok db →
  ∃ f, (execute (Query sql_insert [VStr n; VBool b]) db).1 = Resolved [row_of f] ∧
       f_name f = Some n ∧ f_favorite f = Some b ∧
       pg_table db !! f_id f = None ∧
       pg_table (execute (Query sql_insert [VStr n; VBool b]) db).2
         = <[f_id f := f]> (pg_table db).
Proof.
  intros Hok. rewrite pg_execute_insert. unfold run_insert. cbn.
  rewrite violates_present. eexists. split; [done|]. cbn. split; [done|]. split; [done|].
  pose proof (next_id_fresh db Hok) as Hfresh. split.
  - by apply index_lookup_None.
  - unfold pg_table. cbn. by rewrite index_snoc.
Qed.

Lemma pg_update_row db v i n b f0 :
  pg_ok db → pg_read_id v = Some i → pg_table db !! i = Some f0 →
  ∃ t, newer f0 t ∧
       (execute (Query sql_update [VStr n; VBool b; v]) db).1
         = Resolved [row_of (Flavor i (Some n) (Some b) (Some t))] ∧
       pg_table (execute (Query sql_update [VStr n; VBool b; v]) db).2
         = <[i := Flavor i (Some n) (Some b) (Some t)]> (pg_table db).
Proof.
  intros Hok Hi Hf0. exists (pg_clock (tick db)).
  destruct (index_lookup_elem _ _ _ _ Hf0) as [Hin Hid]. subst i.
  split; [by apply tick_newer|].
  rewrite pg_execute_update. unfold run_update.
  rewrite (pg_read_id_integer _ _ Hi). cbn [as_text as_boolean].
  rewrite violates_present, !tick_rows, filter_update_at, pg_filter_id, Hf0 by done.
  split; [done|].
  unfold pg_table. cbn. rewrite index_update_at by done.
  fold (pg_table db). by rewrite (alter_lookup_insert _ _ _ _ Hf0).
Qed.

Lemma pg_update_missing db v i n b :
  pg_ok db → pg_read_id v = Some i → pg_table db !! i = None →
  (execute (Query sql_update [VStr n; VBool b; v]) db).1 = Resolved [] ∧
  pg_table (execute (Query sql_update [VStr n; VBool b; v]) db).2 = pg_table db.
Proof.
  intros Hok Hi Hnone. rewrite pg_execute_update. unfold run_update.
  rewrite (pg_read_id_integer _ _ Hi). cbn [as_text as_boolean].
  by rewrite tick_rows, pg_filter_id, Hnone.
Qed.

Lemma pg_delete_row db v i :
  pg_ok db → pg_read_id v = Some i →
  (execute (Query sql_delete [v]) db).1 = Resolved [] ∧
  pg_table (execute (Query sql_delete [v]) db).2 = delete i (pg_table db).
Proof.
  intros Hok Hi. rewrite pg_execute_delete. unfold run_delete.
  rewrite (pg_read_id_integer _ _ Hi). split; [done|]. apply index_filter_ne.
Qed.

(** *** Whatever the parameters *)

Lemma pg_update_dom ps db :
  pg_ok db → dom (pg_table (execute (Query sql_update ps) db).2) = dom (pg_table db).
Proof.
  intros Hok. rewrite pg_execute_update. unfold run_update.
  repeat case_match; try done.
  all: unfold pg_table; cbn; rewrite index_update_at by done; apply dom_alter_L.
Qed.

Lemma pg_delete_subseteq ps db :
  pg_ok db → pg_table (execute (Query sql_delete ps) db).2 ⊆ pg_table db.
Proof.
  intros Hok. rewrite pg_execute_delete. unfold run_delete.
  repeat case_match; try done.
  all: unfold pg_table; cbn; rewrite index_filter_ne; apply delete_subseteq.
Qed.

Lemma pg_insert_resolved ps db rows :
  pg_ok db → (execute (Query sql_insert ps) db).1 = Resolved rows →
  ∃ f, rows = [row_of f] ∧ pg_table db !! f_id f = None ∧
       pg_table (execute (Query sql_insert ps) db).2 = <[f_id f := f]> (pg_table db).
Proof.
  intros Hok. rewrite pg_execute_insert. unfold run_insert.
  pose proof (next_id_fresh db Hok) as Hfresh.
  repeat case_match; try done.
  all: intros [= <-]; eexists (Flavor (pg_next_id db) _ _ _); split_and!;
    [done | by apply index_lookup_None | unfold pg_table; cbn; by rewrite index_snoc].
Qed.

Lemma pg_update_resolved db vn vb v i rows :
  pg_ok db → pg_read_id v = Some i →
  (execute (Query sql_update [vn; vb; v]) db).1 = Resolved rows →
  rows = row_of <$> option_list
           (pg_table (execute (Query sql_update [vn; vb; v]) db).2 !! i).
Proof.
  intros Hok%tick_ok Hi. rewrite pg_execute_update. unfold run_update.
  rewrite (pg_read_id_integer _ _ Hi).
  destruct (as_text vn) as [n|], (as_boolean vb) as [b|]; [|done..].
  destruct (filter _ (pg_rows (tick db))) eqn:Hrows.
  - intros [= <-]. cbn. rewrite pg_filter_id in Hrows by done. by destruct (_ !! i).
  - destruct (violates _ n b) eqn:Hv; [done|]. intros [= <-]. cbn [snd].
    by rewrite <-(pg_filter_id _ i) by (by apply update_ok).
Qed.

Lemma pg_insert_subseteq ps db :
  pg_ok db → pg_table db ⊆ pg_table (execute (Query sql_insert ps) db).2.
Proof.
  intros Hok. rewrite pg_execute_insert. unfold run_insert.
  repeat case_match; try done.
  all: unfold pg_table; cbn; rewrite index_snoc by (by apply next_id_fresh).
  all: apply insert_subseteq, index_lookup_None; by apply next_id_fresh.
Qed.

End table.

(** ** The store implements the contract *)

#[export] Instance pg_store : FlavorStore pg := {|
  table := pg_table;
  store_ok := pg_ok;
  read_id := pg_read_id;
  read_id_text := pg_read_id_text;
  execute_ok := pg_execute_ok;
  select_all_table := pg_select_all_table;
  select_by_id_table := pg_select_by_id_table;
  rejected_table := pg_rejected_table;
  select_all_rows := pg_select_all_rows;
  select_by_id_rows := pg_select_by_id_rows;
  select_by_id_found := pg_select_by_id_found;
  select_by_id_malformed := pg_select_by_id_malformed;
  insert_row := pg_insert_row;
  insert_resolved := pg_insert_resolved;
  update_row := pg_update_row;
  update_missing := pg_update_missing;
  update_malformed := pg_update_malformed;
  update_resolved := pg_update_resolved;
  delete_row := pg_delete_row;
  update_keeps_dom := pg_update_dom;
  delete_shrinks := pg_delete_subseteq;
  insert_grows := pg_insert_subseteq
|}.
