(* ===== verification/Service.v ===== *)
(** * The service: the handlers over a store that keeps the contract

    The properties of specification section 8, for the handlers of
    [Handlers] served against any executor that is a [FlavorStore]: what
    each request answers and what it does to the table, stated on the
    abstraction [table]. Requests are the REST interface's: an item path
    whose segment is a text the store reads as an id, a body [{name,
    is_favorite}] of a text and a boolean. The theorems on invariants,
    on the type of the bodies ([response_body_typed]) and on the number
    of rows hold whatever the request carries. *)

From S2P Require Import Prelude Js Async Express Handlers Routes Store.

#[local] Open Scope string_scope.
#[local] Open Scope Z_scope.

(** ** Requests *)

(** GET or DELETE on the item path with segment [txt]. *)
Definition item_request (txt : string) : request :=
  Request (item_params txt) (VObj []).

(** POST on the collection path. *)
Definition create_request (name : string) (fav : bool) : request :=
  Request (VObj []) (flavor_body name fav).

(** PUT on the item path with segment [txt]. *)
Definition update_request (txt : string) (name : string) (fav : bool) : request :=
  Request (item_params txt) (flavor_body name fav).

(** The response of a served request and the table it leaves. *)
Definition response_of {St} (o : hout unit St) : response := out_res o.
Definition table_after {St} `{FlavorStore St} (o : hout unit St) : gmap Z flavor :=
  table (out_store o).

(** What a response says of the number of rows: 201 that one was
    created, 204 that one was deleted. *)
Definition created (r : response) : nat := if statusCode r =? 201 then 1 else 0.
Definition deleted (r : response) : nat := if statusCode r =? 204 then 1 else 0.

(** The sum of [f] over the responses of a session; a request that no
    registration matched counts for nothing. *)
Definition tally (f : response → nat) (resps : list (option response)) : nat :=
  sum_list (from_option f 0%nat <$> resps).

(** The type of the JSON body of each endpoint: the collection lists
    flavors, the others carry one. *)
Definition body_type (ep : endpoint) : jtype :=
  match ep with
  | ListFlavors => TArray flavor_type
  | GetFlavor | CreateFlavor | UpdateFlavor | DeleteFlavor => flavor_type
  end.

(** Evaluate the served requests of the goal, the settlements of their
    queries being among the hypotheses. *)
Ltac serve_settled :=
  unfold response_of, table_after, item_request, create_request, update_request,
    get_flavors, get_flavor, post_flavor, put_flavor, delete_flavor;
  cbn [req_params req_body];
  rewrite ?item_params_id, ?flavor_body_name, ?flavor_body_favorite;
  serve_cases.

Section service.
Context {St : Type} `{FlavorStore St}.
Implicit Types (s : St) (i : Z) (f : flavor) (txt name : string) (fav : bool).

(** ** Every request preserves the invariant of the store *)

(** Whatever the endpoint and the request, serving it leaves the store
    in a state that satisfies its invariant. *)
Lemma serve_store_ok ep req s :
  store_ok s → store_ok (out_store (serve (handler_of ep req) s)).
Proof.
  intros Hok. destruct ep; serve_cases; eauto with flavors.
Qed.

(** ** What a request can do to the table, whatever it carries *)

(** The two GET endpoints never change the table, whatever the request
    and whatever the store answers. *)
Lemma reads_keep_table ep req s :
  ep = ListFlavors ∨ ep = GetFlavor →
  table_after (serve (handler_of ep req) s) = table s.
Proof.
  unfold table_after.
  intros [-> | ->]; serve_cases; eauto with flavors.
Qed.

(** PUT never adds or removes a row: the ids of the table are the same
    after it, whatever the request. *)
Lemma put_keeps_ids req s :
  store_ok s → dom (table_after (serve (put_flavor req) s)) = dom (table s).
Proof.
  unfold table_after. intros Hok. serve_cases; try done.
  all: repeat match goal with
         | E : execute (Query sql_select_by_id _) _ = _ |- _ =>
             pose proof (select_by_id_step _ _ _ _ E) as <-;
             pose proof (execute_step_ok _ _ _ _ E Hok); clear E
         end; eauto with flavors.
Qed.

(** DELETE only removes rows: every row of the table after it was in
    the table before it, unchanged. *)
Lemma delete_only_removes req s :
  store_ok s → table_after (serve (delete_flavor req) s) ⊆ table s.
Proof.
  unfold table_after. intros Hok. serve_cases; try done.
  all: repeat match goal with
         | E : execute (Query sql_select_by_id _) _ = _ |- _ =>
             pose proof (select_by_id_step _ _ _ _ E) as <-;
             pose proof (execute_step_ok _ _ _ _ E Hok); clear E
         end; eauto with flavors.
Qed.

(** POST only adds rows: every row of the table before it is in the
    table after it, unchanged. *)
Lemma post_only_adds req s :
  store_ok s → table s ⊆ table_after (serve (post_flavor req) s).
Proof.
  unfold table_after. intros Hok. serve_cases; eauto with flavors.
Qed.

(** C36: what each endpoint can do to the table, whatever the request
    carries and whatever the store answers: the two GET endpoints leave
    it as it was, POST only adds rows, PUT keeps the set of ids, and
    DELETE only removes rows. *)
Theorem endpoint_effect ep req s :
  store_ok s →
  match ep with
  | ListFlavors | GetFlavor => table_after (serve (handler_of ep req) s) = table s
  | CreateFlavor => table s ⊆ table_after (serve (handler_of ep req) s)
  | UpdateFlavor => dom (table_after (serve (handler_of ep req) s)) = dom (table s)
  | DeleteFlavor => table_after (serve (handler_of ep req) s) ⊆ table s
  end.
Proof.
  intros Hok. destruct ep;
    eauto using reads_keep_table, post_only_adds, put_keeps_ids, delete_only_removes.
Qed.

(** ** Get by id *)

(** C28: GET on an item path answers by what the store makes of the path
    segment and what the table holds: 500 when the store does not read
    the segment as an id (the segment is given to the store as it came,
    and the store rejects it), 200 with exactly the row of that id when
    the table has one, 404 with the fixed text when it has none; the
    table is left as it was in all three cases. *)
Theorem get_by_id s txt :
  store_ok s →
  response_of (serve (get_flavor (item_request txt)) s) =
    match read_id St (VStr txt) with
    | None => server_error_response
    | Some i => from_option (ok_json ∘ row_of) not_found_response (table s !! i)
    end ∧
  table_after (serve (get_flavor (item_request txt)) s) = table s.
Proof.
  intros Hok. destruct (read_id St (VStr txt)) as [i|] eqn:Hi.
  - destruct (select_by_id_settled s (VStr txt) i Hok Hi) as (s1 & E1 & Ht1 & _).
    destruct (table s !! i); by serve_settled.
  - destruct (select_by_id_malformed_settled s txt Hi) as (e & s1 & E1 & Ht1).
    by serve_settled.
Qed.

(** ** Create *)

(** C29: POST answers 201 with a row whose id was not in the table and
    whose name and favorite flag are the body's, and the table gains
    exactly that row. *)
Theorem post_creates s name fav :
  store_ok s →
  ∃ f, response_of (serve (post_flavor (create_request name fav)) s)
         = created_json (row_of f) ∧
       f_name f = Some name ∧ f_favorite f = Some fav ∧
       table s !! f_id f = None ∧
       table_after (serve (post_flavor (create_request name fav)) s)
         = <[f_id f := f]> (table s).
Proof.
  intros Hok.
  destruct (insert_settled s name fav Hok) as (f & s1 & E1 & ? & ? & ? & Ht1 & _).
  exists f. by serve_settled.
Qed.

(** ** Update *)

(** C30: PUT on an id that is in the table answers 200 with the row of
    that id carrying the body's name and favorite flag and a timestamp
    later than the one it had, and the table holds that row in place of
    the old one; on an id that is not in the table it answers 404, issues
    no update, and leaves the table as it was: no row is created. *)
Theorem put_by_id s txt i name fav :
  store_ok s → read_id St (VStr txt) = Some i →
  match table s !! i with
  | Some f0 =>
      ∃ t, newer f0 t ∧
        response_of (serve (put_flavor (update_request txt name fav)) s)
          = ok_json (row_of (Flavor i (Some name) (Some fav) (Some t))) ∧
        table_after (serve (put_flavor (update_request txt name fav)) s)
          = <[i := Flavor i (Some name) (Some fav) (Some t)]> (table s)
  | None =>
      response_of (serve (put_flavor (update_request txt name fav)) s) = not_found_response ∧
      table_after (serve (put_flavor (update_request txt name fav)) s) = table s ∧
      issued (out_trace (serve (put_flavor (update_request txt name fav)) s))
        = [sql_select_by_id]
  end.
Proof.
  intros Hok Hi.
  destruct (select_by_id_settled s (VStr txt) i Hok Hi) as (s1 & E1 & Ht1 & Hok1).
  destruct (table s !! i) as [f0|] eqn:Hf; [|by serve_settled].
  rewrite <-Ht1 in Hf.
  destruct (update_settled s1 (VStr txt) i name fav f0 Hok1 Hi Hf) as (t & s2 & ? & E2 & Ht2 & _).
  exists t. by serve_settled.
Qed.

(** ** Delete *)

(** C31: DELETE on an id that is in the table answers 204 with an empty
    body and removes exactly that row; on an id that is not in the table
    it answers 404, issues no delete, and changes nothing. *)
Theorem delete_by_id s txt i :
  store_ok s → read_id St (VStr txt) = Some i →
  response_of (serve (delete_flavor (item_request txt)) s)
    = (if table s !! i is Some _ then no_content else not_found_response) ∧
  table_after (serve (delete_flavor (item_request txt)) s) = delete i (table s) ∧
  issued (out_trace (serve (delete_flavor (item_request txt)) s))
    = (if table s !! i is Some _ then [sql_select_by_id; sql_delete] else [sql_select_by_id]).
Proof.
  intros Hok Hi.
  destruct (select_by_id_settled s (VStr txt) i Hok Hi) as (s1 & E1 & Ht1 & Hok1).
  destruct (table s !! i) as [f|] eqn:Hf.
  - destruct (delete_settled s1 (VStr txt) i Hok1 Hi) as (s2 & E2 & Ht2 & _).
    by serve_settled.
  - rewrite <-(delete_id (table s) i) in Ht1 by done. by serve_settled.
Qed.

(** ** List *)

(** C32: GET on the collection answers 200 with one JSON object per row
    of the table, each row once, and leaves the table as it was. *)
Theorem list_all s :
  store_ok s →
  ∃ fs, response_of (serve (get_flavors (Request (VObj []) (VObj []))) s)
          = ok_json (VArr (row_of <$> fs)) ∧
        fs ≡ₚ (map_to_list (table s)).*2 ∧
        length fs = size (table s) ∧
        table_after (serve (get_flavors (Request (VObj []) (VObj []))) s) = table s.
Proof.
  intros Hok. destruct (select_all_settled s Hok) as (fs & s1 & E1 & Hfs & Ht1 & _).
  exists fs. serve_settled. repeat split; [done|].
  by rewrite Hfs, length_fmap, length_map_to_list.
Qed.

(** ** Reading back what was written *)

(** C33: after a POST answered 201 with a row, GET on that row's id
    answers 200 with the same row. *)
Theorem get_after_post s name fav :
  store_ok s →
  ∃ f, response_of (serve (post_flavor (create_request name fav)) s)
         = created_json (row_of f) ∧
       response_of (serve (get_flavor (item_request (Z_to_string (f_id f))))
                      (out_store (serve (post_flavor (create_request name fav)) s)))
         = ok_json (row_of f).
Proof.
  intros Hok.
  destruct (insert_settled s name fav Hok) as (f & s1 & E1 & _ & _ & _ & Ht1 & Hok1).
  destruct (select_by_id_settled s1 _ _ Hok1 (read_id_text St (f_id f))) as (s2 & E2 & _).
  rewrite Ht1, lookup_insert_eq in E2. exists f. by serve_settled.
Qed.

(** C34: after a PUT answered 200 with a row, GET on the same path
    answers 200 with that row. *)
Theorem get_after_put s txt i name fav f0 :
  store_ok s → read_id St (VStr txt) = Some i → table s !! i = Some f0 →
  ∃ f, response_of (serve (put_flavor (update_request txt name fav)) s)
         = ok_json (row_of f) ∧
       response_of (serve (get_flavor (item_request txt))
                      (out_store (serve (put_flavor (update_request txt name fav)) s)))
         = ok_json (row_of f).
Proof.
  intros Hok Hi Hf.
  destruct (select_by_id_settled s (VStr txt) i Hok Hi) as (s1 & E1 & Ht1 & Hok1).
  rewrite Hf in E1. rewrite <-Ht1 in Hf.
  destruct (update_settled s1 (VStr txt) i name fav f0 Hok1 Hi Hf)
    as (t & s2 & _ & E2 & Ht2 & Hok2).
  destruct (select_by_id_settled s2 (VStr txt) i Hok2 Hi) as (s3 & E3 & _).
  rewrite Ht2, lookup_insert_eq in E3. eexists. by serve_settled.
Qed.

(** C35: after a DELETE answered 204, GET on the same path answers 404. *)
Theorem get_after_delete s txt i f :
  store_ok s → read_id St (VStr txt) = Some i → table s !! i = Some f →
  response_of (serve (delete_flavor (item_request txt)) s) = no_content ∧
  response_of (serve (get_flavor (item_request txt))
                 (out_store (serve (delete_flavor (item_request txt)) s)))
    = not_found_response.
Proof.
  intros Hok Hi Hf.
  destruct (select_by_id_settled s (VStr txt) i Hok Hi) as (s1 & E1 & Ht1 & Hok1).
  rewrite Hf in E1.
  destruct (delete_settled s1 (VStr txt) i Hok1 Hi) as (s2 & E2 & Ht2 & Hok2).
  destruct (select_by_id_settled s2 (VStr txt) i Hok2 Hi) as (s3 & E3 & _).
  rewrite Ht2, lookup_delete_eq in E3. by serve_settled.
Qed.

(** ** The bodies are flavors *)

(** C24: served against a store that keeps the contract, a handler that
    answers with a JSON body answers with a value of its endpoint's type,
    whatever the request carries: an array of flavor rows from the
    collection, one flavor row from the others, each with the columns of
    the data model in order. In particular an update served alone never
    answers with [undefined]. *)
Theorem response_body_typed ep req s v :
  store_ok s →
  sent (response_of (serve (handler_of ep req) s)) = Some (BodyJson v) →
  has_type (body_type ep) v = true.
Proof.
  intros Hok. unfold response_of.
  destruct ep; cbn [body_type]; serve_cases; intros; simplify_eq/=.
  all: try match goal with
    | E : execute (Query sql_select_by_id _) _ = (Resolved (_ :: _), _) |- _ =>
        destruct (select_by_id_typed _ _ _ _ _ Hok E) as (? & ? & ? & ? & ? & ? & ?)
    end; simplify_eq.
  all: try done.
  all: match goal with
    | E : execute (Query sql_select_all _) _ = _ |- _ =>
        exact (proj2 (has_type_array _ _) (select_all_typed _ _ _ Hok E))
    | E : execute (Query sql_insert _) _ = _ |- _ => exact (insert_typed _ _ _ _ Hok E)
    | E : execute (Query sql_update _) ?s1 = _, Hs : store_ok ?s1,
      Hi : read_id _ _ = Some _, Hin : is_Some _ |- _ =>
        exact (update_typed _ _ _ _ _ _ _ Hs Hi Hin E)
    end.
Qed.

(** ** The number of rows *)

(** Whatever the request carries, the table has one row more after a
    request answered 201, one row less after a request answered 204, and
    as many rows as before otherwise. *)
Lemma serve_size ep req s :
  store_ok s →
  (size (table_after (serve (handler_of ep req) s))
     + deleted (response_of (serve (handler_of ep req) s))
   = size (table s) + created (response_of (serve (handler_of ep req) s)))%nat.
Proof.
  intros Hok. unfold response_of, table_after. destruct ep; serve_cases; try done.
  all: repeat match goal with
         | E : execute (Query sql_select_by_id _) ?s = (Resolved (_ :: _), _),
           E' : execute (Query sql_delete _) _ = _ |- _ =>
             destruct (delete_found_step _ _ _ _ _ _ _ E E' Hok) as [[? ?] ?]; clear E'
         | E : execute (Query sql_select_all _) _ = _ |- _ =>
             pose proof (execute_step_ok _ _ _ _ E Hok);
             rewrite <-(select_all_step _ _ _ _ E) in *; clear E
         | E : execute (Query sql_select_by_id _) _ = _ |- _ =>
             pose proof (execute_step_ok _ _ _ _ E Hok);
             rewrite <-(select_by_id_step _ _ _ _ E) in *; clear E
         | E : execute (Query sql_insert _) _ = (Resolved _, _) |- _ =>
             rewrite (insert_step_size _ _ _ _ E) by done; clear E
         | E : execute (Query sql_update _) _ = (Resolved _, _) |- _ =>
             rewrite (update_step_size _ _ _ _ E) by done; clear E
         | E : execute _ _ = (Rejected _, _) |- _ =>
             rewrite (rejected_step _ _ _ _ E); clear E
         end; simplify_eq; cbn; lia.
Qed.

(** ** Sessions *)

Lemma handle_store_ok r s : store_ok s → store_ok (handle r s).2.
Proof.
  intros Hok. unfold handle, express_app.
  destruct (path_segments (http_path r)) as [segs|]; cbn; [|done].
  destruct (dispatch (http_method r) segs) as [[ep params]|]; cbn; [|done].
  by apply serve_store_ok.
Qed.

(** The invariant of the store holds at the end of every session. It
    is the store's law that every statement keeps the invariant,
    carried along the session: it holds whatever the handlers do. *)
Lemma session_store_ok rs s : store_ok s → store_ok (session rs s).2.
Proof.
  revert s. induction rs as [|r rs IH]; intros s Hok; [done|]. cbn.
  pose proof (handle_store_ok r s Hok) as Hok'.
  destruct (handle r s) as [resp s']. specialize (IH s' Hok').
  by destruct (session rs s') as [resps s''].
Qed.

Lemma handle_size r s :
  store_ok s →
  (size (table (handle r s).2) + from_option deleted 0 (handle r s).1
   = size (table s) + from_option created 0 (handle r s).1)%nat.
Proof.
  intros Hok. unfold handle, express_app.
  destruct (path_segments (http_path r)) as [segs|]; cbn; [|lia].
  destruct (dispatch (http_method r) segs) as [[ep params]|]; cbn; [|lia].
  by apply serve_size.
Qed.

(** C37: over any session, whatever the requests carry, the number of
    rows at the end is the number at the start, plus the requests
    answered 201, minus the requests answered 204: the table holds the
    rows created and not deleted. *)
Theorem session_cardinality rs s :
  store_ok s →
  (size (table (session rs s).2) + tally deleted (session rs s).1
   = size (table s) + tally created (session rs s).1)%nat.
Proof.
  unfold tally. revert s. induction rs as [|r rs IH]; intros s Hok; [done|]. cbn.
  pose proof (handle_size r s Hok) as Hr. pose proof (handle_store_ok r s Hok) as Hok'.
  destruct (handle r s) as [resp s']. specialize (IH s' Hok').
  destruct (session rs s') as [resps s'']. cbn in *. lia.
Qed.

(** Every request of a session has its entry in the result, in order. *)
Lemma session_length rs s : length (session rs s).1 = length rs.
Proof.
  revert s. induction rs as [|r rs IH]; intros s; [done|]. cbn.
  destruct (handle r s) as [resp s']. specialize (IH s').
  destruct (session rs s') as [resps s'']. cbn in *. by rewrite IH.
Qed.

(** A session in two parts is the first part, then the second from the
    store the first left. *)
Lemma session_app rs1 rs2 s :
  session (rs1 ++ rs2) s =
    (((session rs1 s).1 ++ (session rs2 (session rs1 s).2).1)%list,
     (session rs2 (session rs1 s).2).2).
Proof.
  revert s. induction rs1 as [|r rs1 IH]; intros s; cbn; [by destruct (session rs2 s)|].
  destruct (handle r s) as [resp s']. rewrite IH.
  by destruct (session rs1 s') as [resps s''].
Qed.

End service.
