(* ===== verification/Crud.v ===== *)
(** * The service as a machine on the table, and the refinement

    What the specification promises of the five operations, as a
    labelled transition system on the table alone: from a table, an
    operation of the REST interface answers with a response and leaves a
    table ([crud]). The machine does not say which id a create draws or
    which time an update stamps, only that the id is new and the time
    later; it takes the texts that denote ids as a parameter, as the
    store contract does.

    The implementation is the whole path of a request: the route table
    of [Routes], the handler of [Handlers], and any store that keeps the
    contract of [Store]. The refinement theorems say that this path,
    seen through [table], takes only steps of the machine: request by
    request ([handle_refines]) and over a session
    ([session_refines_crud]). *)

From Stdlib Require Import Ascii.
From S2P Require Import Prelude Js Async Express Handlers Routes Store Service.

#[local] Open Scope string_scope.
#[local] Open Scope Z_scope.

(** ** Operations *)

(** The operations of the REST interface: the item operations carry the
    path segment as text, create and update the name and the flag of
    the body. *)
Inductive op : Type :=
| OpList
| OpGet (txt : string)
| OpCreate (name : string) (fav : bool)
| OpUpdate (txt : string) (name : string) (fav : bool)
| OpDelete (txt : string).

(** The path segment of an item operation. *)
Definition item_of (o : op) : option string :=
  match o with
  | OpGet txt | OpUpdate txt _ _ | OpDelete txt => Some txt
  | OpList | OpCreate _ _ => None
  end.

(** A text that can stand as the last segment of a path: not empty, and
    without a slash. *)
Fixpoint no_slash (s : string) : bool :=
  match s with
  | "" => true
  | String c s => negb (Ascii.eqb c "/"%char) && no_slash s
  end.

Definition is_segment (s : string) : bool :=
  negb (String.eqb s "") && no_slash s.

Definition op_ok (o : op) : bool := from_option is_segment true (item_of o).

(** The request that asks for an operation; a request without a body
    reaches the handler with the empty object the parser leaves. *)
Definition http_of (o : op) : http_request :=
  match o with
  | OpList => HttpRequest GET "/api/flavors" (VObj [])
  | OpGet txt => HttpRequest GET ("/api/flavors/" ++ txt) (VObj [])
  | OpCreate name fav => HttpRequest POST "/api/flavors" (flavor_body name fav)
  | OpUpdate txt name fav => HttpRequest PUT ("/api/flavors/" ++ txt) (flavor_body name fav)
  | OpDelete txt => HttpRequest DELETE ("/api/flavors/" ++ txt) (VObj [])
  end.

(** The endpoint and the handler's request an operation comes to. *)
Definition endpoint_of (o : op) : endpoint :=
  match o with
  | OpList => ListFlavors
  | OpGet _ => GetFlavor
  | OpCreate _ _ => CreateFlavor
  | OpUpdate _ _ _ => UpdateFlavor
  | OpDelete _ => DeleteFlavor
  end.

Definition request_of (o : op) : request :=
  match o with
  | OpList => Request (VObj []) (VObj [])
  | OpGet txt | OpDelete txt => item_request txt
  | OpCreate name fav => create_request name fav
  | OpUpdate txt name fav => update_request txt name fav
  end.

(** ** Runs *)

(** A sequence of labelled steps of a machine, each from the state the
    one before left: the labels are the operations and what they
    answered. *)
Inductive lts_run {T O R : Type} (step : T → O → R → T → Prop)
  : T → list O → list R → T → Prop :=
| lts_run_nil t : lts_run step t [] [] t
| lts_run_cons t o r t1 os rs t' :
    step t o r t1 → lts_run step t1 os rs t' → lts_run step t (o :: os) (r :: rs) t'.

(** ** The machine *)

(** An item operation on a table: the segment denotes no id, an id the
    table does not hold, or the id of a row. *)
Inductive located : Type :=
| Malformed
| Missing (i : Z)
| Found (i : Z) (f : flavor).

Section machine.
Context (ident : string → option Z).
Implicit Types (t : gmap Z flavor) (i : Z) (f : flavor).

Definition locate (txt : string) t : located :=
  match ident txt with
  | None => Malformed
  | Some i => from_option (Found i) (Missing i) (t !! i)
  end.

(** One operation: the table before, the response, the table after. *)
Inductive crud : gmap Z flavor → op → response → gmap Z flavor → Prop :=
| crud_list t fs :
    fs ≡ₚ (map_to_list t).*2 →
    crud t OpList (ok_json (VArr (row_of <$> fs))) t
| crud_get t txt i f :
    locate txt t = Found i f →
    crud t (OpGet txt) (ok_json (row_of f)) t
| crud_create t name fav f :
    t !! f_id f = None → f_name f = Some name → f_favorite f = Some fav →
    crud t (OpCreate name fav) (created_json (row_of f)) (<[f_id f := f]> t)
| crud_update t txt name fav i f0 ts :
    locate txt t = Found i f0 → newer f0 ts →
    crud t (OpUpdate txt name fav)
      (ok_json (row_of (Flavor i (Some name) (Some fav) (Some ts))))
      (<[i := Flavor i (Some name) (Some fav) (Some ts)]> t)
| crud_delete t txt i f :
    locate txt t = Found i f →
    crud t (OpDelete txt) no_content (delete i t)
| crud_missing t o txt i :
    item_of o = Some txt → locate txt t = Missing i →
    crud t o not_found_response t
| crud_malformed t o txt :
    item_of o = Some txt → locate txt t = Malformed →
    crud t o server_error_response t.

(** A sequence of operations, each from the table the one before left. *)
Definition crud_run : gmap Z flavor → list op → list response → gmap Z flavor → Prop :=
  lts_run crud.

End machine.

(** The texts a store reads as ids. *)
Definition ident_of (St : Type) `{FlavorStore St} : string → option Z :=
  λ txt, read_id St (VStr txt).

(** ** Sample operations *)

Definition sample_ops : list op :=
  [OpCreate "Vanilla" true; OpGet "1"; OpUpdate "1" "Vanilla Bean" false;
   OpDelete "1"; OpGet "1"].

(** ** Runs of any machine *)

Section runs.
Context {T O R : Type}.
Implicit Types (step : T → O → R → T → Prop) (t : T) (os : list O) (rs : list R).

(** The responses of a run are as many as its operations. *)
Lemma lts_run_length step t os rs t' : lts_run step t os rs t' → length rs = length os.
Proof. induction 1; cbn; congruence. Qed.

Lemma lts_run_app step t os1 rs1 t1 os2 rs2 t2 :
  lts_run step t os1 rs1 t1 → lts_run step t1 os2 rs2 t2 →
  lts_run step t (os1 ++ os2) (rs1 ++ rs2) t2.
Proof. induction 1; cbn; [done|]. intros. econstructor; eauto. Qed.

(** A run goes on by one step at its end. *)
Lemma lts_run_snoc step t os rs t1 o r t2 :
  lts_run step t os rs t1 → step t1 o r t2 → lts_run step t (os ++ [o]) (rs ++ [r]) t2.
Proof. intros Hrun Hstep. eapply lts_run_app; [exact Hrun|]. repeat econstructor; eauto. Qed.

(** A machine that has the steps of another has its runs. *)
Lemma lts_run_mono step step' t os rs t' :
  (∀ t1 o r t2, step t1 o r t2 → step' t1 o r t2) →
  lts_run step t os rs t' → lts_run step' t os rs t'.
Proof. intros Hsub. induction 1; econstructor; eauto. Qed.

End runs.

(** ** What the machine guarantees *)

Section machine_facts.
Context (ident : string → option Z).
Implicit Types (t : gmap Z flavor) (o : op) (r : response).

Lemma locate_found txt t i f : locate ident txt t = Found i f → t !! i = Some f.
Proof.
  unfold locate. destruct (ident txt) as [j|]; [|done].
  destruct (t !! j) eqn:Hj; naive_solver.
Qed.

(** The status of the response is decided by the table and the
    operation: the machine leaves open only the id a create draws, the
    time an update stamps, and the order of a list. *)
Lemma crud_status t o r1 t1 r2 t2 :
  crud ident t o r1 t1 → crud ident t o r2 t2 → statusCode r1 = statusCode r2.
Proof. destruct 1; inversion 1; simplify_eq/=; congruence. Qed.

(** The table has one row more after a 201, one row less after a 204,
    and as many rows otherwise. *)
Lemma crud_size t o r t' :
  crud ident t o r t' →
  (size t' + deleted r = size t + created r)%nat.
Proof.
  destruct 1 as [| | |t txt name fav i f0 ts Hl%locate_found _|t txt i f Hl%locate_found| |];
    cbn; rewrite ?Nat.add_0_r; try done.
  - rewrite map_size_insert_None by done. lia.
  - by rewrite map_size_insert_Some.
  - rewrite map_size_delete_Some by done.
    assert (size t ≠ 0%nat) by (apply map_size_non_empty_iff; intros ->; by simplify_map_eq).
    lia.
Qed.

(** On an id the table does not hold, an item operation answers 404 and
    leaves the table. *)
Lemma crud_at_missing t o txt i r t' :
  item_of o = Some txt → locate ident txt t = Missing i → crud ident t o r t' →
  r = not_found_response ∧ t' = t.
Proof. intros Ho Hl. inversion 1; simplify_eq/=; by try congruence. Qed.

(** A row is deleted once: after a delete answered 204, no delete of the
    same segment is. *)
Lemma crud_delete_once t txt t1 t2 :
  crud ident t (OpDelete txt) no_content t1 → ¬ crud ident t1 (OpDelete txt) no_content t2.
Proof.
  inversion 1 as [| | | |? ? i f Hl| |]; simplify_eq.
  inversion 1 as [| | | |? ? j g Hl'| |]; simplify_eq.
  unfold locate in Hl, Hl'. destruct (ident txt) as [k|]; [|done].
  destruct (t !! k) eqn:?; simplify_eq/=. by simplify_map_eq.
Qed.

Lemma crud_run_delete_twice t txt t' :
  ¬ crud_run ident t [OpDelete txt; OpDelete txt] [no_content; no_content] t'.
Proof.
  inversion 1 as [|? ? ? t1 ? ? ? H1 Hrun]; simplify_eq.
  inversion Hrun as [|? ? ? t2 ? ? ? H2 _]; simplify_eq.
  exact (crud_delete_once _ _ _ _ H1 H2).
Qed.

End machine_facts.

(** ** Routing an operation *)

Lemma pieces_no_slash s : no_slash s = true → pieces s = [s].
Proof.
  induction s as [|c s IH]; cbn; [done|]. intros [Hc Hs]%andb_prop.
  apply negb_true_iff in Hc. by rewrite Hc, IH.
Qed.

(** The path of an item: its three segments. *)
Lemma path_segments_item txt :
  is_segment txt = true →
  path_segments ("/api/flavors/" ++ txt) = Some ["api"; "flavors"; txt].
Proof.
  intros [Hne Hs]%andb_prop. unfold path_segments. cbv [String.append]. cbn.
  rewrite (pieces_no_slash _ Hs). unfold drop_trailing. cbn.
  by destruct txt.
Qed.

(** The application gives an operation to the handler of its endpoint,
    with the request of the service theorems. *)
Lemma express_app_of o :
  op_ok o = true →
  express_app (http_of o) = Some (handler_of (endpoint_of o) (request_of o)).
Proof.
  destruct o as [|txt|name fav|txt name fav|txt]; cbn; intros Hok;
    unfold express_app; cbn [http_of http_path http_method http_body];
    rewrite ?path_segments_item by done; try done.
  all: apply andb_prop in Hok as [Hne%negb_true_iff%String.eqb_neq _].
  all: cbn; by rewrite dispatch_item.
Qed.

(** ** The refinement *)

Section refinement.
Context {St : Type} `{FlavorStore St}.
Implicit Types (s : St) (o : op) (txt name : string) (fav : bool).

(** The check by id of an item operation settles as the machine locates
    the segment, and leaves the table as it was. *)
Lemma select_located s txt :
  store_ok s →
  ∃ rp s1, execute (Query sql_select_by_id [VStr txt]) s = (rp, s1) ∧
           table s1 = table s ∧ store_ok s1 ∧
           match locate (ident_of St) txt (table s) with
           | Malformed => ∃ e, rp = Rejected e
           | Missing i => read_id St (VStr txt) = Some i ∧ rp = Resolved []
           | Found i f =>
               read_id St (VStr txt) = Some i ∧ table s1 !! i = Some f ∧
               rp = Resolved [row_of f]
           end.
Proof.
  intros Hok. unfold locate, ident_of. destruct (read_id St (VStr txt)) as [i|] eqn:Hi.
  - destruct (select_by_id_settled s (VStr txt) i Hok Hi) as (s1 & E1 & Ht1 & Hok1).
    eexists _, s1. split_and!; [done..|]. rewrite Ht1.
    destruct (table s !! i) eqn:Hf; cbn; eauto.
  - destruct (select_by_id_malformed_settled s txt Hi) as (e & s1 & E1 & Ht1).
    eexists _, s1. split_and!; [done..| |by eexists].
    eapply execute_step_ok; eauto.
Qed.

Lemma list_refines s :
  store_ok s →
  crud (ident_of St) (table s) OpList
    (response_of (serve (get_flavors (request_of OpList)) s))
    (table_after (serve (get_flavors (request_of OpList)) s)).
Proof.
  intros Hok. destruct (select_all_settled s Hok) as (fs & s1 & E1 & Hfs & Ht1 & _).
  serve_settled. by constructor.
Qed.

Lemma create_refines s name fav :
  store_ok s →
  crud (ident_of St) (table s) (OpCreate name fav)
    (response_of (serve (post_flavor (create_request name fav)) s))
    (table_after (serve (post_flavor (create_request name fav)) s)).
Proof.
  intros Hok.
  destruct (insert_settled s name fav Hok) as (f & s1 & E1 & ? & ? & ? & Ht1 & _).
  serve_settled. by constructor.
Qed.

Lemma get_refines s txt :
  store_ok s →
  crud (ident_of St) (table s) (OpGet txt)
    (response_of (serve (get_flavor (item_request txt)) s))
    (table_after (serve (get_flavor (item_request txt)) s)).
Proof.
  intros Hok. destruct (select_located s txt Hok) as (rp & s1 & E1 & Ht1 & _ & Hl).
  destruct (locate _ txt (table s)) as [|i|i f] eqn:Hloc.
  - destruct Hl as [e ->]. serve_settled. by eapply crud_malformed.
  - destruct Hl as [_ ->]. serve_settled. by eapply crud_missing.
  - destruct Hl as (_ & _ & ->). serve_settled. by eapply crud_get.
Qed.

Lemma update_refines s txt name fav :
  store_ok s →
  crud (ident_of St) (table s) (OpUpdate txt name fav)
    (response_of (serve (put_flavor (update_request txt name fav)) s))
    (table_after (serve (put_flavor (update_request txt name fav)) s)).
Proof.
  intros Hok. destruct (select_located s txt Hok) as (rp & s1 & E1 & Ht1 & Hok1 & Hl).
  destruct (locate _ txt (table s)) as [|i|i f0] eqn:Hloc.
  - destruct Hl as [e ->]. serve_settled. by eapply crud_malformed.
  - destruct Hl as [_ ->]. serve_settled. by eapply crud_missing.
  - destruct Hl as (Hi & Hf & ->).
    destruct (update_settled s1 (VStr txt) i name fav f0 Hok1 Hi Hf)
      as (ts & s2 & ? & E2 & Ht2 & _).
    serve_settled. rewrite ?Ht2, ?Ht1. by eapply crud_update.
Qed.

Lemma delete_refines s txt :
  store_ok s →
  crud (ident_of St) (table s) (OpDelete txt)
    (response_of (serve (delete_flavor (item_request txt)) s))
    (table_after (serve (delete_flavor (item_request txt)) s)).
Proof.
  intros Hok. destruct (select_located s txt Hok) as (rp & s1 & E1 & Ht1 & Hok1 & Hl).
  destruct (locate _ txt (table s)) as [|i|i f] eqn:Hloc.
  - destruct Hl as [e ->]. serve_settled. by eapply crud_malformed.
  - destruct Hl as [_ ->]. serve_settled. by eapply crud_missing.
  - destruct Hl as (Hi & _ & ->).
    destruct (delete_settled s1 (VStr txt) i Hok1 Hi) as (s2 & E2 & Ht2 & _).
    serve_settled. rewrite ?Ht2, ?Ht1. by eapply crud_delete.
Qed.

(** One operation served by its handler is a step of the machine. *)
Lemma serve_refines o s :
  store_ok s →
  crud (ident_of St) (table s) o
    (response_of (serve (handler_of (endpoint_of o) (request_of o)) s))
    (table_after (serve (handler_of (endpoint_of o) (request_of o)) s)).
Proof.
  destruct o; eauto using list_refines, get_refines, create_refines, update_refines,
    delete_refines.
Qed.

(** One request through the route table is a step of the machine. *)
Lemma handle_refines o s :
  store_ok s → op_ok o = true →
  ∃ r, (handle (http_of o) s).1 = Some r ∧
       crud (ident_of St) (table s) o r (table (handle (http_of o) s).2) ∧
       store_ok (handle (http_of o) s).2.
Proof.
  intros Hok Ho. unfold handle. rewrite (express_app_of o Ho). eexists. split; [done|].
  split; [by apply serve_refines | by apply serve_store_ok].
Qed.

(** C13: the service refines the machine. Whatever store keeps the
    contract, a session of operations of the REST interface, each sent
    as its HTTP request through the route table and served to its end,
    answers every request, and its responses and the tables it goes
    through are a run of the machine from the table at the start: the
    implementation does nothing the specification of the five operations
    does not allow. *)
Theorem session_refines_crud os s :
  store_ok s → Forall (λ o, op_ok o = true) os →
  ∃ rs, (session (http_of <$> os) s).1 = Some <$> rs ∧
        crud_run (ident_of St) (table s) os rs (table (session (http_of <$> os) s).2).
Proof.
  intros Hok Hos. revert s Hok.
  induction Hos as [|o os Ho _ IH]; intros s Hok; [exists []; split; [done|constructor]|].
  destruct (handle_refines o s Hok Ho) as (r & Hr & Hstep & Hok'). cbn.
  destruct (handle (http_of o) s) as [resp s']. cbn in Hr, Hstep, Hok'. subst resp.
  destruct (IH s' Hok') as (rs & Hrs & Hrun).
  destruct (session (http_of <$> os) s') as [resps s'']. cbn in *. subst resps.
  exists (r :: rs). split; [done|]. by econstructor.
Qed.

End refinement.
