(* ===== verification/Interleave.v ===== *)
(** * Requests in flight together

    The runtime handles each request in a task of its own and switches
    between tasks only where one awaits: in server.js, at [await
    db.query(...)]. Between two awaits a handler runs alone, and it
    shares nothing with the other handlers but the store. So an
    execution of several requests is fixed by the order in which the
    store settles their pending queries. A [pool] holds the store and
    the programs that remain of the handlers in flight; [resume i]
    settles the pending query of task [i] and runs the task to its next
    await; a schedule is the list of the tasks resumed, in order.

    All the requests of a pool are in flight from the start. A request
    that arrives later is a task that is not resumed until then: its
    handler reaches the store for the first time at its first await.
    The pool keeps the log of the queries settled, each with its task,
    and a request ends at the last of its queries: [ended] reads off
    the log the requests that have ended, in the order in which they
    ended.

    The file first relates pools to the runs of [Express], for any
    handlers: a task that has ended ran as its handler runs against the
    replies it received, with the queries the log holds for it
    ([task_result_scripted]), and the schedule that runs each task to
    its end before the next is the sequential run
    ([serial_is_sequential]). Then it turns to the five handlers of
    server.js: they await at most twice ([handler_awaits_twice]), so
    every task resumed twice has finished ([resumed_twice_finished]);
    the queries settled for a request are the statements of its
    endpoint, in order ([request_issues_in_order]), at most two of
    them; and every run of a pool ends, with every request answered
    ([every_request_answered]). The store invariant survives every
    schedule ([interleave_store_ok]). *)

From S2P Require Import Prelude Js Async Express Handlers Routes Store Service Crud.

#[local] Open Scope Z_scope.

(** ** Tasks *)

(** What remains of a handler in flight: a program suspended at an
    await, or the completion and handler state it ended with. *)
Abbreviation task := (prog (completion unit * hstate)).

(** The handler of a request starts on a fresh response and runs to its
    first await. *)
Definition start (m : handler unit) : task := m init_hstate.

Definition finished (t : task) : option (completion unit * hstate) :=
  match t with
  | Ret a => Some a
  | Await _ _ => None
  end.

(** Feed a program the settlements of its awaits, in order, as far as
    they go. *)
Fixpoint feed {A} (t : prog A) (rs : list reply) {struct rs} : prog A :=
  match rs, t with
  | r :: rs, Await _ k => feed (k r) rs
  | _, _ => t
  end.

(** Replay on a program the queries a log holds for it with their
    settlements: each must be the query the program awaits. *)
Fixpoint replay {A} (t : prog A) (tr : list (query * reply)) {struct tr} : option (prog A) :=
  match tr with
  | [] => Some t
  | (q, r) :: tr =>
      match t with
      | Await q' k => if decide (q' = q) then replay (k r) tr else None
      | Ret _ => None
      end
  end.

(** A program that awaits at most [n] times, whatever the settlements. *)
Fixpoint awaits_within {A} (n : nat) (t : prog A) {struct t} : Prop :=
  match t with
  | Ret _ => True
  | Await _ k =>
      match n with
      | O => False
      | S n => ∀ r, awaits_within n (k r)
      end
  end.

(** Every end a program can come to, whatever the settlements, is one
    of [P]. *)
Fixpoint ends_in {A} (P : A → Prop) (t : prog A) {struct t} : Prop :=
  match t with
  | Ret a => P a
  | Await _ k => ∀ r, ends_in P (k r)
  end.

(** A handler that ended having returned and written its response. *)
Definition responded (a : completion unit * hstate) : Prop :=
  a.1 = Normal () ∧ is_Some (sent (res a.2)).

(** ** Pools and schedules *)

Section pool.
Context {St : Type} `{!Executor St}.

(** The store, the tasks by index, and the queries settled so far, each
    with the task that awaited it, oldest first. *)
Record pool := Pool {
  pool_store : St;
  pool_tasks : list task;
  pool_log : list (nat * (query * reply))
}.

(** The requests [ms] in flight over the store [s], none resumed yet. *)
Definition spawn (ms : list (handler unit)) (s : St) : pool := Pool s (start <$> ms) [].

(** Settle the pending query of task [i] and run the task to its next
    await. Nothing happens when the task has finished or does not exist. *)
Definition resume (i : nat) (p : pool) : pool :=
  match pool_tasks p !! i with
  | Some (Await q k) =>
      let rs := execute q (pool_store p) in
      Pool rs.2 (<[i := k rs.1]> (pool_tasks p)) (pool_log p ++ [(i, (q, rs.1))])
  | _ => p
  end.

Definition interleave (sched : list nat) (p : pool) : pool :=
  foldl (λ p i, resume i p) p sched.

(** One step of a pool: some task that awaits is resumed. *)
Inductive step : relation pool :=
| step_resume i q k p :
    pool_tasks p !! i = Some (Await q k) → step p (resume i p).

(** What each task ended with, if it has ended. *)
Definition results (p : pool) : list (option (completion unit * hstate)) :=
  finished <$> pool_tasks p.

(** The tasks of a log in the order of the last query each was settled,
    and those of them that have ended: the requests in the order in
    which they ended. *)
Fixpoint last_settled (log : list (nat * (query * reply))) : list nat :=
  match log with
  | [] => []
  | e :: log =>
      if decide (e.1 ∈ log.*1) then last_settled log else e.1 :: last_settled log
  end.

Definition ended (p : pool) : list nat :=
  filter (λ i, is_Some (pool_tasks p !! i ≫= finished)) (last_settled (pool_log p)).

(** A pool in which no task awaits: nothing is left to do. *)
Definition quiescent (p : pool) : Prop :=
  Forall (λ t, is_Some (finished t)) (pool_tasks p).

#[export] Instance quiescent_dec p : Decision (quiescent p).
Proof. unfold quiescent. apply _. Defined.

(** The settlements task [i] received, and its queries with them. *)
Definition trace_of (i : nat) (log : list (nat * (query * reply))) : list (query * reply) :=
  snd <$> filter (λ e, e.1 = i) log.

Definition replies_of (i : nat) (log : list (nat * (query * reply))) : list reply :=
  snd <$> trace_of i log.

(** The schedule that runs each of [n] tasks to its end before the next:
    a handler that awaits at most twice has ended once resumed twice. *)
Definition serial (n : nat) : list nat := i ← seq 0 n; [i; i].

(** The sequential run: each handler served to its end on the store the
    one before left. *)
Fixpoint serve_all (ms : list (handler unit)) (s : St)
    : list (completion unit * hstate) * St :=
  match ms with
  | [] => ([], s)
  | m :: ms =>
      let o := serve m s in
      let rest := serve_all ms (out_store o) in
      (out_value o :: rest.1, rest.2)
  end.

(** The tasks of [p] are the tasks [ts0], each resumed with the replies
    the log of [p] holds for it. *)
Definition tracks (ts0 : list task) (p : pool) : Prop :=
  pool_tasks p = imap (λ i t0, feed t0 (replies_of i (pool_log p))) ts0.

(** The log of [p] holds for each task the queries it issued, in order,
    and the task stands where they leave the handler. *)
Definition logged (ts0 : list task) (p : pool) : Prop :=
  ∀ i t0, ts0 !! i = Some t0 →
    replay t0 (trace_of i (pool_log p)) = pool_tasks p !! i.

End pool.
Arguments pool St : clear implicits.

(** [b i] bounds the awaits left to task [i]. *)
Definition bounded (b : nat → nat) (ts : list task) : Prop :=
  ∀ i t, ts !! i = Some t → awaits_within (b i) t.

(** The handlers of the requests [reqs], each given by its endpoint. *)
Definition in_flight (reqs : list (endpoint * request)) : list (handler unit) :=
  (λ er, handler_of er.1 er.2) <$> reqs.

(** ** Feeding and bounds *)

Section programs.
Context {A : Type}.
Implicit Types (t : prog A) (rs : list reply).

(** One more settlement resumes the program where the others left it. *)
Lemma feed_snoc t rs r :
  feed t (rs ++ [r]) = match feed t rs with
                       | Await _ k => k r
                       | Ret a => Ret a
                       end.
Proof.
  revert t. induction rs as [|r0 rs IH]; intros [a|q k]; cbn; done.
Qed.

(** Against the scripted executor, a program fed to its end returns what
    it was fed to. *)
Lemma exec_scripted_feed t rs a : feed t rs = Ret a → out_value (exec t rs) = a.
Proof.
  revert t. induction rs as [|r rs IH]; intros [b|q k]; cbn; try congruence.
  apply IH.
Qed.

Lemma awaits_within_mono n m t : (n ≤ m)%nat → awaits_within n t → awaits_within m t.
Proof.
  revert m t. induction n as [|n IH]; intros m [a|q k] Hle; cbn; try done.
  intros Hk. destruct m as [|m]; [lia|]. intros r. apply (IH m); [lia | done].
Qed.

Lemma awaits_within_0 t : awaits_within 0 t → ∃ a, t = Ret a.
Proof. destruct t; [eauto | done]. Qed.

(** One more entry replays on the program the others left. *)
Lemma replay_snoc t tr q r :
  replay t (tr ++ [(q, r)]) =
    t' ← replay t tr;
    match t' with
    | Await q' k => if decide (q' = q) then Some (k r) else None
    | Ret _ => None
    end.
Proof.
  revert t. induction tr as [|[q0 r0] tr IH]; intros [a|q' k]; cbn; try done.
  case_decide; [apply IH | done].
Qed.

(** Against the scripted executor, a program whose trace replays to its
    end runs to that end, uses up the script, and issues that trace. *)
Lemma exec_scripted_replay t tr a :
  replay t tr = Some (Ret a) → exec t tr.*2 = Outcome a [] tr.
Proof.
  revert t. induction tr as [|[q r] tr IH]; intros [b|q' k]; cbn; try done.
  - by intros [= <-].
  - case_decide as Hq; [|done]. subst q'. intros Hk. by rewrite (IH _ Hk).
Qed.

(** A program that awaits at most [n] times replays at most [n]
    entries. *)
Lemma replay_awaits_within n t tr :
  awaits_within n t → is_Some (replay t tr) → (length tr ≤ n)%nat.
Proof.
  revert n t. induction tr as [|[q r] tr IH]; intros n [a|q' k]; cbn;
    try (intros; lia); try (by intros _ [? [=]]).
  destruct n as [|n]; [done|]. intros Hk. case_decide; [|by intros [? [=]]].
  intros Hs. apply le_n_S, (IH n (k r)); [apply Hk | done].
Qed.

(** What holds of every end of a program holds of the end it is fed to. *)
Lemma ends_in_feed (P : A → Prop) t rs a : ends_in P t → feed t rs = Ret a → P a.
Proof.
  revert t. induction rs as [|r rs IH]; intros [b|q k]; cbn; try congruence.
  intros Hk. by apply IH.
Qed.

End programs.

(** ** Schedules *)

Section schedules.
Context {St : Type} `{!Executor St}.
Implicit Types (p : pool St) (sched : list nat) (i j : nat) (t : task).

Lemma interleave_app sched1 sched2 p :
  interleave (sched1 ++ sched2) p = interleave sched2 (interleave sched1 p).
Proof. apply foldl_app. Qed.

(** Resuming a task that awaits settles its query on the store. *)
Lemma resume_await i p q k :
  pool_tasks p !! i = Some (Await q k) →
  resume i p =
    Pool (execute q (pool_store p)).2
         (<[i := k (execute q (pool_store p)).1]> (pool_tasks p))
         (pool_log p ++ [(i, (q, (execute q (pool_store p)).1))]).
Proof. unfold resume. by intros ->. Qed.

(** Resuming a task that has finished changes nothing. *)
Lemma resume_finished i p a : pool_tasks p !! i = Some (Ret a) → resume i p = p.
Proof. unfold resume. by intros ->. Qed.

(** A resumption leaves the other tasks as they are. *)
Lemma resume_other i j p : j ≠ i → pool_tasks (resume i p) !! j = pool_tasks p !! j.
Proof.
  intros Hne. unfold resume. destruct (pool_tasks p !! i) as [[a|q k]|]; [done| |done].
  cbn. by rewrite list_lookup_insert_ne.
Qed.

(** A query settled for a task makes the task the last settled. *)
Lemma last_settled_snoc log i e :
  last_settled (log ++ [(i, e)]) = filter (λ j, j ≠ i) (last_settled log) ++ [i].
Proof.
  induction log as [|[j e'] log IH]; [done|]. cbn [app last_settled fst].
  rewrite fmap_app, IH. cbn [fmap list_fmap fst].
  destruct (decide (j ∈ log.*1 ++ [i])) as [Hin|Hin];
    rewrite elem_of_app, list_elem_of_singleton in Hin.
  - destruct (decide (j ∈ log.*1)) as [|Hn]; [done|]. destruct Hin as [?| ->]; [done|].
    by rewrite filter_cons_False by (intros Hi; by apply Hi).
  - destruct (decide (j ∈ log.*1)); [tauto|].
    rewrite filter_cons_True by (intros ->; tauto). done.
Qed.

(** A task appears among the ended once, when its last query is
    settled: a resumption adds the task resumed if it has ended, and
    changes nothing else. *)
Lemma ended_resume i p q k :
  pool_tasks p !! i = Some (Await q k) →
  ended (resume i p)
    = ended p ++ (if finished (k (execute q (pool_store p)).1) is Some _ then [i] else []).
Proof.
  intros Hi. rewrite (resume_await _ _ _ _ Hi). unfold ended. cbn [pool_tasks pool_log].
  rewrite last_settled_snoc, filter_app, list_filter_filter. f_equal.
  - apply list_filter_iff. intros j. split.
    + intros [Hj Hne]. by rewrite list_lookup_insert_ne in Hj.
    + intros Hj. assert (j ≠ i) by (intros ->; rewrite Hi in Hj; by destruct Hj).
      by rewrite list_lookup_insert_ne.
  - rewrite filter_cons, filter_nil.
    rewrite list_lookup_insert_eq by (by eapply lookup_lt_Some). cbn.
    destruct (finished _); [by rewrite decide_True by by eexists|].
    rewrite decide_False; [done|]. by intros [? ?].
Qed.

(** A resumption is a step or nothing, so a schedule is a sequence of
    steps, and every sequence of steps is a schedule. *)
Lemma resume_step i p : resume i p = p ∨ step p (resume i p).
Proof.
  destruct (pool_tasks p !! i) as [[a|q k]|] eqn:Hi.
  - left. by eapply resume_finished.
  - right. by econstructor.
  - left. unfold resume. by rewrite Hi.
Qed.

Lemma interleave_steps sched p : rtc step p (interleave sched p).
Proof.
  revert p. induction sched as [|i sched IH]; intros p; [done|]. cbn.
  destruct (resume_step i p) as [Heq|Hstep]; [rewrite Heq at 1; apply IH|].
  by eapply rtc_l.
Qed.

Lemma steps_interleave p p' : rtc step p p' → ∃ sched, p' = interleave sched p.
Proof.
  induction 1 as [p|p p1 p' Hstep _ [sched ->]]; [by exists []|].
  destruct Hstep as [i q k p Hi]. by exists (i :: sched).
Qed.

(** ** What a task holds: its handler, fed the replies it received *)

Lemma replies_of_snoc j log i q r :
  replies_of j (log ++ [(i, (q, r))]) =
    replies_of j log ++ (if decide (i = j) then [r] else []).
Proof.
  unfold replies_of, trace_of. rewrite filter_app, !fmap_app.
  f_equal. rewrite filter_cons, filter_nil. cbn. by case_decide.
Qed.

Lemma spawn_tracks ms (s : St) : tracks (start <$> ms) (spawn ms s).
Proof.
  unfold tracks. cbn. apply list_eq. intros i.
  rewrite list_lookup_imap. by destruct (_ !! i).
Qed.

Lemma resume_tracks ts0 i p : tracks ts0 p → tracks ts0 (resume i p).
Proof.
  unfold tracks. intros Hp.
  destruct (pool_tasks p !! i) as [[a|q k]|] eqn:Hi;
    [by erewrite resume_finished | | by unfold resume; rewrite Hi].
  rewrite (resume_await _ _ _ _ Hi). cbn [pool_tasks pool_log]. apply list_eq. intros j.
  rewrite list_lookup_imap, replies_of_snoc. rewrite Hp, list_lookup_imap in Hi.
  destruct (decide (i = j)) as [<-|Hne].
  - rewrite list_lookup_insert_eq by (by eapply lookup_lt_Some; rewrite Hp, list_lookup_imap).
    destruct (ts0 !! i) as [t0|]; [|done]. cbn in *. simplify_eq.
    by rewrite feed_snoc, Hi.
  - rewrite list_lookup_insert_ne by done. by rewrite app_nil_r, Hp, list_lookup_imap.
Qed.

Lemma interleave_tracks ts0 sched p : tracks ts0 p → tracks ts0 (interleave sched p).
Proof.
  revert p. induction sched as [|i sched IH]; intros p Hp; [done|].
  by apply IH, resume_tracks.
Qed.

Lemma trace_of_snoc j log i q r :
  trace_of j (log ++ [(i, (q, r))]) =
    trace_of j log ++ (if decide (i = j) then [(q, r)] else []).
Proof.
  unfold trace_of. rewrite filter_app, fmap_app. f_equal.
  rewrite filter_cons, filter_nil. cbn. by case_decide.
Qed.

Lemma spawn_logged ms (s : St) : logged (start <$> ms) (spawn ms s).
Proof. by intros i t0 Hi. Qed.

Lemma resume_logged ts0 i p : logged ts0 p → logged ts0 (resume i p).
Proof.
  intros Hp. destruct (pool_tasks p !! i) as [[a|q k]|] eqn:Hi;
    [by erewrite resume_finished | | by unfold resume; rewrite Hi].
  rewrite (resume_await _ _ _ _ Hi). intros j t0 Hj. cbn [pool_tasks pool_log].
  rewrite trace_of_snoc. destruct (decide (i = j)) as [<-|Hne].
  - rewrite replay_snoc, (Hp _ _ Hj), Hi. cbn. rewrite decide_True by done.
    by rewrite list_lookup_insert_eq by (by eapply lookup_lt_Some).
  - rewrite app_nil_r, list_lookup_insert_ne by done. by apply Hp.
Qed.

Lemma interleave_logged ts0 sched p : logged ts0 p → logged ts0 (interleave sched p).
Proof.
  revert p. induction sched as [|i sched IH]; intros p Hp; [done|].
  by apply IH, resume_logged.
Qed.

(** However the requests of a pool are interleaved, a task that has
    ended ran as its handler runs when it is served alone against an
    executor that answers with the replies the task received: it ends
    with the same response, and it issued exactly the queries the log
    holds for it, in that order. This holds of any handlers: it says
    that the pool runs them as [serve] does, not what they do. *)
Lemma task_result_scripted ms (s : St) sched i m a :
  ms !! i = Some m →
  results (interleave sched (spawn ms s)) !! i = Some (Some a) →
  serve m (replies_of i (pool_log (interleave sched (spawn ms s))))
    = Outcome a [] (trace_of i (pool_log (interleave sched (spawn ms s)))).
Proof.
  intros Hm Ha. pose proof (interleave_logged _ sched _ (spawn_logged ms s) i (start m)) as Hp.
  rewrite list_lookup_fmap, Hm in Hp. specialize (Hp eq_refl).
  unfold results in Ha. rewrite list_lookup_fmap, <-Hp in Ha.
  apply exec_scripted_replay. destruct (replay _ _) as [[b|]|]; by simplify_eq/=.
Qed.

End schedules.

(** ** Running one task to its end *)

Section serial.
Context {St : Type} `{!Executor St}.
Implicit Types (p : pool St) (sched : list nat) (i j : nat) (t : task).

(** A task that awaits at most [n] times, resumed [n] times in a row,
    has run as [exec] runs it. *)
Lemma resume_exec n i t p :
  awaits_within n t → pool_tasks p !! i = Some t →
  pool_tasks (interleave (replicate n i) p)
    = <[i := Ret (out_value (exec t (pool_store p)))]> (pool_tasks p) ∧
  pool_store (interleave (replicate n i) p) = out_store (exec t (pool_store p)).
Proof.
  revert t p. induction n as [|n IH]; intros [a|q k] p Hn Hi; try done.
  - by rewrite list_insert_id.
  - cbn [replicate interleave foldl]. rewrite (resume_finished _ _ _ Hi). by apply IH.
  - cbn [replicate interleave foldl]. rewrite (resume_await _ _ _ _ Hi).
    set (r := execute q (pool_store p)).
    destruct (IH (k r.1) (Pool r.2 (<[i := k r.1]> (pool_tasks p))
                           (pool_log p ++ [(i, (q, r.1))]))) as [Ht Hs];
      [apply Hn | by apply list_lookup_insert_eq; eapply lookup_lt_Some |].
    cbn in Ht, Hs. split; [|exact Hs]. unfold interleave in *.
    by rewrite Ht, list_insert_insert_eq.
Qed.

(** The tasks after [ended] run to their ends in order. *)
Lemma serial_from (ended : list task) ms (s : St) log :
  Forall (λ m, awaits_within 2 (start m)) ms →
  let p := interleave (i ← seq (length ended) (length ms); [i; i])
             (Pool s (ended ++ (start <$> ms)) log) in
  pool_tasks p = ended ++ (Ret <$> (serve_all ms s).1) ∧
  pool_store p = (serve_all ms s).2.
Proof.
  intros Hms. revert ended s log.
  induction Hms as [|m ms Hm _ IH]; intros ended s log; [done|].
  cbn [length seq mbind list_bind fmap list_fmap serve_all fst snd].
  change ([length ended; length ended] ++ ?l) with (replicate 2 (length ended) ++ l).
  rewrite interleave_app.
  destruct (resume_exec 2 (length ended) (start m)
              (Pool s (ended ++ start m :: (start <$> ms)) log) Hm) as [Ht Hs];
    [by apply list_lookup_middle|].
  destruct (interleave (replicate 2 _) _) as [s1 ts1 log1]. cbn in Ht, Hs. subst s1 ts1.
  rewrite insert_app_r_alt, Nat.sub_diag by lia. cbn [insert list_insert].
  rewrite (cons_middle _ ended), app_assoc.
  specialize (IH (ended ++ [Ret (out_value (serve m s))]) (out_store (serve m s)) log1).
  rewrite length_app, Nat.add_1_r in IH. cbn [length] in IH.
  change (exec (start m) s) with (serve m s).
  destruct IH as [-> ->]. by rewrite <-app_assoc.
Qed.

(** The schedule that resumes each task twice before the next is the
    sequential run, for handlers that await at most twice. *)
Lemma serial_run ms (s : St) :
  Forall (λ m, awaits_within 2 (start m)) ms →
  results (interleave (serial (length ms)) (spawn ms s)) = Some <$> (serve_all ms s).1 ∧
  pool_store (interleave (serial (length ms)) (spawn ms s)) = (serve_all ms s).2.
Proof.
  intros Hms. destruct (serial_from [] ms s [] Hms) as [Ht Hs].
  unfold results, serial, spawn. cbn in Ht, Hs. rewrite Ht, Hs.
  split; [|done]. by rewrite <-list_fmap_compose.
Qed.

(** ** Every task ends *)

Lemma bounded_mono b b' ts : (∀ i, (b i ≤ b' i)%nat) → bounded b ts → bounded b' ts.
Proof. intros Hb Hts i t Hi. eapply awaits_within_mono; [apply Hb | by apply Hts]. Qed.

(** A resumption uses up one await of the task resumed. *)
Lemma resume_bounded b i p :
  bounded b (pool_tasks p) →
  bounded (λ j, if decide (j = i) then pred (b j) else b j) (pool_tasks (resume i p)).
Proof.
  intros Hb. destruct (pool_tasks p !! i) as [[a|q k]|] eqn:Hi.
  - rewrite (resume_finished _ _ _ Hi). intros j t Hj. case_decide; [|by apply Hb].
    by simplify_eq.
  - rewrite (resume_await _ _ _ _ Hi). cbn. intros j t Hj.
    destruct (decide (j = i)) as [->|Hne].
    + rewrite list_lookup_insert_eq in Hj by (by eapply lookup_lt_Some). simplify_eq.
      specialize (Hb _ _ Hi). cbn in Hb. by destruct (b i).
    + rewrite list_lookup_insert_ne in Hj by done. by apply Hb.
  - unfold resume. rewrite Hi. intros j t Hj. case_decide; [congruence | by apply Hb].
Qed.

Lemma interleave_bounded b sched p :
  bounded b (pool_tasks p) →
  bounded (λ j, b j - length (filter (λ i, i = j) sched))%nat
    (pool_tasks (interleave sched p)).
Proof.
  revert b p. induction sched as [|i sched IH]; intros b p Hb.
  - eapply bounded_mono; [|exact Hb]. intros j. cbn. lia.
  - cbn [interleave foldl]. eapply bounded_mono; [|apply IH, resume_bounded, Hb].
    intros j. cbn beta. rewrite filter_cons. repeat case_decide; simplify_eq/=; lia.
Qed.

(** Whatever the schedule, a task whose handler awaits at most twice
    has ended once the schedule has resumed it twice. *)
Lemma twice_finished ms (s : St) sched i :
  Forall (λ m, awaits_within 2 (start m)) ms → (i < length ms)%nat →
  (2 ≤ length (filter (λ j, j = i) sched))%nat →
  ∃ a, results (interleave sched (spawn ms s)) !! i = Some (Some a).
Proof.
  intros Hms Hi Hsched.
  assert (bounded (λ _, 2%nat) (pool_tasks (spawn ms s))) as Hb.
  { intros j t Hj. cbn in Hj. apply list_lookup_fmap_Some in Hj as (m & -> & Hm).
    by eapply Forall_lookup_1 in Hms. }
  apply (interleave_bounded _ sched) in Hb.
  pose proof (interleave_tracks _ sched _ (spawn_tracks ms s)) as Hp.
  destruct (lookup_lt_is_Some_2 (pool_tasks (interleave sched (spawn ms s))) i) as [t Ht].
  { rewrite Hp, length_imap, length_fmap. done. }
  specialize (Hb i t Ht). cbn beta in Hb.
  replace (2 - _)%nat with 0%nat in Hb by lia.
  apply awaits_within_0 in Hb as [a ->]. exists a.
  unfold results. by rewrite list_lookup_fmap, Ht.
Qed.

End serial.

(** ** Every run ends

    A step settles one query of one task, so it uses up one of the awaits
    the task has left: with [bs] a bound on the awaits of each task, the
    sum of [bs] bounds the steps a pool can still take. *)

Section runs.
Context {St : Type} `{!Executor St}.
Implicit Types (p : pool St) (bs : list nat) (i : nat).

Lemma step_budget bs p p' :
  Forall2 awaits_within bs (pool_tasks p) → step p p' →
  ∃ bs', Forall2 awaits_within bs' (pool_tasks p') ∧
         length (pool_log p') = S (length (pool_log p)) ∧
         S (sum_list bs') = sum_list bs.
Proof.
  intros Hbs Hstep. destruct Hstep as [i q k p Hi].
  rewrite (resume_await _ _ _ _ Hi). cbn [pool_tasks pool_log].
  destruct (Forall2_lookup_r _ _ _ _ _ Hbs Hi) as ([|b] & Hb & Hw); [done|].
  exists (<[i:=b]> bs). split_and!.
  - apply Forall2_insert; [done | apply Hw].
  - rewrite length_app. cbn. lia.
  - pose proof (sum_list_insert bs i (S b) b Hb). lia.
Qed.

(** The queries settled so far and the awaits left never add up to more
    than the awaits there were to begin with. *)
Lemma steps_budget bs p p' :
  rtc step p p' → Forall2 awaits_within bs (pool_tasks p) →
  ∃ bs', Forall2 awaits_within bs' (pool_tasks p') ∧
         (length (pool_log p') + sum_list bs' = length (pool_log p) + sum_list bs)%nat.
Proof.
  intros Hsteps. revert bs. induction Hsteps as [p|p p1 p' Hstep _ IH]; intros bs Hbs; [eauto|].
  destruct (step_budget _ _ _ Hbs Hstep) as (bs1 & Hbs1 & Hlog & Hsum).
  destruct (IH _ Hbs1) as (bs' & Hbs' & Heq). exists bs'. split; [done | lia].
Qed.

(** A pool with work left can take a step: a task that awaits waits
    only for the store, and the store settles every query. *)
Lemma not_quiescent_step p : ¬ quiescent p → ∃ p', step p p'.
Proof.
  intros (t & [i Hi]%list_elem_of_lookup & Hn)%not_Forall_Exists%Exists_exists; [|apply _].
  destruct t as [a|q k]; [by destruct Hn; eexists|]. exists (resume i p). by econstructor.
Qed.

Lemma steps_tracks ts0 p p' : rtc step p p' → tracks ts0 p → tracks ts0 p'.
Proof.
  induction 1 as [p|p p1 p' [i q k p0 Hi] _ IH]; [done|]. intros Hp.
  by apply IH, resume_tracks.
Qed.

Lemma steps_logged ts0 p p' : rtc step p p' → logged ts0 p → logged ts0 p'.
Proof.
  induction 1 as [p|p p1 p' [i q k p0 Hi] _ IH]; [done|]. intros Hp.
  by apply IH, resume_logged.
Qed.

(** A task has settled no more queries than its handler can await. *)
Lemma task_queries_bounded n ms (s : St) p i m :
  rtc step (spawn ms s) p → ms !! i = Some m → awaits_within n (start m) →
  (length (trace_of i (pool_log p)) ≤ n)%nat.
Proof.
  intros Hsteps Hm Hn. eapply replay_awaits_within; [exact Hn|].
  rewrite (steps_logged _ _ _ Hsteps (spawn_logged ms s) i (start m))
    by (by rewrite list_lookup_fmap, Hm).
  apply lookup_lt_is_Some_2.
  rewrite (steps_tracks _ _ _ Hsteps (spawn_tracks ms s)), length_imap, length_fmap.
  by eapply lookup_lt_Some.
Qed.

(** A task that has ended ended as its handler can end. *)
Lemma tracks_ends_in (P : completion unit * hstate → Prop) ts0 p i t0 a :
  tracks ts0 p → ts0 !! i = Some t0 → ends_in P t0 →
  pool_tasks p !! i = Some (Ret a) → P a.
Proof.
  intros Hp Ht0 HP. rewrite Hp, list_lookup_imap, Ht0. cbn. intros [= Ha].
  by eapply ends_in_feed.
Qed.

End runs.

(** ** The handlers of server.js in a pool *)

(** Each of the five handlers awaits at most twice, whatever its request
    and whatever the store replies: it has no loop and no retry. *)
Lemma handler_awaits_twice ep req : awaits_within 2 (start (handler_of ep req)).
Proof.
  destruct ep; unfold start;
    cbv [handler_of get_flavors get_flavor post_flavor put_flavor delete_flavor
      server_error not_found mbind handler_bind hbind try_catch db_query complete
      res_status res_send res_json console_error];
    repeat first
      [ progress cbn
      | intros [[|? ?]|?]
      | match goal with |- context [get_prop ?o ?k] => destruct (get_prop o k) end ];
    done.
Qed.

(** Evaluate a pool of update and delete requests under a schedule, the
    settlements of the queries being among the hypotheses. *)
Ltac pool_settled :=
  unfold spawn, start, update_request, item_request, put_flavor, delete_flavor;
  cbn [fmap list_fmap req_params req_body];
  rewrite ?item_params_id, ?flavor_body_name, ?flavor_body_favorite;
  cbv [interleave foldl mbind handler_bind hbind try_catch db_query complete
    res_status res_send res_json console_error server_error not_found];
  repeat (cbn; match goal with
               | E : execute ?q ?s = _ |- context [execute ?q ?s] => rewrite E
               end);
  cbn.

Lemma in_flight_await_twice reqs :
  Forall (λ m, awaits_within 2 (start m)) (in_flight reqs).
Proof. apply Forall_fmap, Forall_true. intros [ep req]. apply handler_awaits_twice. Qed.

(** The tasks of the requests [reqs] have two awaits each to begin with. *)
Lemma in_flight_budget reqs :
  Forall2 awaits_within (replicate (length reqs) 2%nat) (start <$> in_flight reqs).
Proof.
  induction reqs as [|[ep req] reqs IH]; cbn; constructor; [apply handler_awaits_twice | done].
Qed.

(** Each of the five handlers, given a request it can destructure, ends
    having returned and written its response, whatever the store
    replies. *)
Lemma handler_ends_responded ep req :
  well_formed ep req = true → ends_in responded (start (handler_of ep req)).
Proof.
  intros Hwf. destruct ep; cbn in Hwf; try apply andb_prop in Hwf as [Hp Hb];
    unfold start, responded;
    cbv [handler_of get_flavors get_flavor post_flavor put_flavor delete_flavor
      server_error not_found mbind handler_bind hbind try_catch db_query complete
      res_status res_send res_json console_error];
    repeat first
      [ progress cbn
      | intros [[|? ?]|?]
      | match goal with
        | |- context [get_prop ?o ?k] => destruct (get_prop o k) as [?|?] eqn:?
        end ];
    try (split; [done | by eexists]).
  all: match goal with H : get_prop _ _ = Thrown _ |- _ =>
         apply get_prop_thrown in H; congruence end.
Qed.

(** The queries that replay on a handler are statements of its
    endpoint, in the order of the source, from the first. *)
Lemma handler_replay_statements ep req tr :
  is_Some (replay (start (handler_of ep req)) tr) → issued tr `prefix_of` statements ep.
Proof.
  destruct ep; unfold start, issued, statements;
    cbv [handler_of get_flavors get_flavor post_flavor put_flavor delete_flavor
      server_error not_found mbind handler_bind hbind try_catch db_query complete
      res_status res_send res_json console_error];
    repeat first
      [ progress cbn
      | match goal with |- context [get_prop ?o ?k] => destruct (get_prop o k) end ];
    destruct tr as [|[q1 r1] [|[q2 r2] [|[q3 r3] tr]]]; cbn;
    repeat (case_decide; subst; cbn);
    try (by intros [? [=]]);
    try (destruct r1 as [[|? ?]|?]; cbn; repeat (case_decide; subst; cbn));
    try (by intros [? [=]]);
    try (destruct r2 as [[|? ?]|?]; cbn; repeat (case_decide; subst; cbn));
    try (by intros [? [=]]);
    intros _; try (by eexists); try apply prefix_nil.
Qed.

Section handlers.
Context {St : Type} `{!Executor St}.
Implicit Types (s : St) (reqs : list (endpoint * request)).

(** For the handlers of server.js, the schedule that resumes each
    task twice before the next is the sequential run: the tasks end as
    the handlers end when they are served one after the other, and the
    store is left the same. *)
Lemma serial_is_sequential reqs s :
  results (interleave (serial (length reqs)) (spawn (in_flight reqs) s))
    = Some <$> (serve_all (in_flight reqs) s).1 ∧
  pool_store (interleave (serial (length reqs)) (spawn (in_flight reqs) s))
    = (serve_all (in_flight reqs) s).2.
Proof.
  pose proof (serial_run (in_flight reqs) s (in_flight_await_twice reqs)) as Hrun.
  unfold in_flight in Hrun at 1 4. by rewrite length_fmap in Hrun.
Qed.

(** C38: whatever the schedule and whatever the other requests do, a
    request of server.js has ended once the schedule has resumed it
    twice: a handler awaits at most two queries and waits on nothing
    else. *)
Theorem resumed_twice_finished reqs s sched i :
  (i < length reqs)%nat → (2 ≤ length (filter (λ j, j = i) sched))%nat →
  ∃ a, results (interleave sched (spawn (in_flight reqs) s)) !! i = Some (Some a).
Proof.
  intros Hi Hsched. apply twice_finished; [apply in_flight_await_twice | | done].
  unfold in_flight. by rewrite length_fmap.
Qed.

(** C23: however the requests of server.js are interleaved, the queries
    the store has settled for a request are statements of its endpoint,
    in the order of the source and from the first: the select alone
    for the two GETs, the insert for POST, the check and then the
    update for PUT, the check and then the delete for DELETE. No
    request issues a statement of another endpoint, repeats one, or
    acts before its check, whatever the other requests do. *)
Theorem request_issues_in_order reqs s p i er :
  rtc step (spawn (in_flight reqs) s) p → reqs !! i = Some er →
  issued (trace_of i (pool_log p)) `prefix_of` statements er.1.
Proof.
  intros Hsteps Hi. destruct er as [ep req]. apply (handler_replay_statements ep req).
  rewrite (steps_logged _ _ _ Hsteps (spawn_logged (in_flight reqs) s) i
             (start (handler_of ep req)))
    by (unfold in_flight; by rewrite !list_lookup_fmap, Hi).
  apply lookup_lt_is_Some_2.
  rewrite (steps_tracks _ _ _ Hsteps (spawn_tracks (in_flight reqs) s)).
  unfold in_flight. rewrite length_imap, !length_fmap. by eapply lookup_lt_Some.
Qed.

(** C22: every run of the requests of server.js comes to an end with every
    request answered. However the runtime interleaves the requests, it
    settles at most two queries for each of them, so at most twice as
    many queries as there are requests in all; as long as a request
    awaits, the pool can take a step (the store settles every query);
    and when none awaits, every request that its handler could
    destructure has returned with its response written. *)
Theorem every_request_answered reqs s p :
  rtc step (spawn (in_flight reqs) s) p →
  (length (pool_log p) ≤ 2 * length reqs)%nat ∧
  (∀ i er, reqs !! i = Some er → (length (trace_of i (pool_log p)) ≤ 2)%nat) ∧
  (¬ quiescent p → ∃ p', step p p') ∧
  (quiescent p → ∀ i er, reqs !! i = Some er → well_formed er.1 er.2 = true →
     ∃ a, results p !! i = Some (Some a) ∧ responded a).
Proof.
  intros Hsteps. split_and!; [| |apply not_quiescent_step|].
  - destruct (steps_budget _ _ _ Hsteps (in_flight_budget reqs)) as (bs & _ & Hsum).
    rewrite sum_list_replicate in Hsum. cbn in Hsum. lia.
  - intros i [ep req] Hi.
    eapply (task_queries_bounded 2 _ _ _ _ _ Hsteps); [|apply handler_awaits_twice].
    unfold in_flight. by rewrite list_lookup_fmap, Hi.
  - intros Hq i [ep req] Hi Hwf.
    pose proof (steps_tracks _ _ _ Hsteps (spawn_tracks (in_flight reqs) s)) as Hp.
    destruct (lookup_lt_is_Some_2 (pool_tasks p) i) as [t Ht].
    { unfold in_flight in Hp. rewrite Hp, length_imap, !length_fmap. by eapply lookup_lt_Some. }
    destruct (Forall_lookup_1 _ _ _ _ Hq Ht) as [a Ha]. destruct t; simplify_eq/=.
    exists a. split; [unfold results; by rewrite list_lookup_fmap, Ht|].
    eapply tracks_ends_in; [exact Hp | | by apply handler_ends_responded | exact Ht].
    unfold in_flight. by rewrite !list_lookup_fmap, Hi.
Qed.

End handlers.

Section store.
Context {St : Type} `{FlavorStore St}.
Implicit Types (p : pool St) (s : St) (i : Z) (txt name : string) (fav : bool).

(** The invariant of the store holds after every sequence of steps of a
    pool: no interleaving of requests breaks it. *)
Lemma interleave_store_ok p p' :
  rtc step p p' → store_ok (pool_store p) → store_ok (pool_store p').
Proof.
  induction 1 as [p|p p1 p' Hstep _ IH]; [done|]. intros Hok. apply IH.
  destruct Hstep as [j q k p Hj]. rewrite (resume_await _ _ _ _ Hj). cbn.
  by apply execute_ok.
Qed.

End store.
