(* ===== verification/Linearize.v ===== *)
(** * Which requests in flight together are atomic

    The update and delete handlers check and then act, in two queries,
    and the races of [Races] show what goes wrong when a delete of
    the same row is settled between the two. This file shows that
    nothing else goes wrong: when no delete shares its id with another
    update or delete in flight ([conflict_free]), every interleaving of
    the requests is a run of the specification machine of [Crud], the
    requests taken in the order in which they ended.

    The proof keeps, along the steps of the pool, a history of the
    requests that have ended with their responses ([lin]), in the order
    in which they ended ([Interleave.ended], read off the log of the
    pool): the history is a run of the machine from the table at the
    start to the table now, and every request that has passed its check
    still has its row. A step either ends a request, which adds it to
    the history, or passes a check, which leaves the table as it was.

    The invariant is kept for any handlers that meet the interface
    [OpHandlers] of a machine: a first query that ends the request, with
    a step of the machine, or passes its check, and a second that ends
    it. What a request past its check relies on is a parameter of the
    interface too (its guard): for the machine of [Crud] it is that the
    row is still there ([present]), which is what [conflict_free] keeps.
    The invariant is proved along steps that break no guard of a request
    past its check ([lin_along]); [Overlap] says which steps those are.
    The handlers of server.js meet the interface of that machine
    ([source_handlers]); [Hardened] gives another implementation, and
    [Accepted] another machine. *)

From S2P Require Import Prelude Js Async Express Handlers Routes Store Service Crud Interleave.

#[local] Open Scope Z_scope.

(** ** Requests and conflicts *)

(** The handler of an operation, on the request of the operation. *)
Definition handler_for (o : op) : handler unit :=
  handler_of (endpoint_of o) (request_of o).

(** The segment of an operation that checks and then acts, and of one
    that deletes. *)
Definition writes (o : op) : option string :=
  match o with
  | OpUpdate txt _ _ | OpDelete txt => Some txt
  | OpList | OpGet _ | OpCreate _ _ => None
  end.

Definition deletes (o : op) : option string :=
  match o with
  | OpDelete txt => Some txt
  | OpList | OpGet _ | OpCreate _ _ | OpUpdate _ _ _ => None
  end.

(** No delete is in flight with another operation that checks its id
    before it acts, [checks] giving the segment such an operation
    checks: for the handlers of server.js, with another update or delete
    of its id. *)
Definition conflict_free (ident : string → option Z) (checks : op → option string)
    (os : list op) : Prop :=
  ∀ j k oj ok tj tk i,
    j ≠ k → os !! j = Some oj → os !! k = Some ok →
    deletes oj = Some tj → checks ok = Some tk →
    ident tj = Some i → ident tk ≠ Some i.

(** The requests that have ended, oldest first, each with its response;
    and the operations they were. *)
Definition hist_ops (os : list op) (h : list (nat * response)) : list op :=
  omap (λ k, os !! k) h.*1.

(** Evaluate the handler of an operation to its next await. *)
Ltac start_eval :=
  unfold handler_for, start; cbn [endpoint_of request_of handler_of];
  unfold item_request, create_request, update_request, get_flavors, get_flavor,
    post_flavor, put_flavor, delete_flavor;
  cbn [req_params req_body];
  rewrite ?item_params_id, ?flavor_body_name, ?flavor_body_favorite;
  cbv [mbind handler_bind hbind try_catch db_query complete res_status res_send
    res_json console_error server_error not_found];
  cbn.

(** A machine on the table, and what a request past its check relies on
    of the table, for the id it checked. *)
Definition machine : Type := gmap Z flavor → op → response → gmap Z flavor → Prop.
Definition guard : Type := gmap Z flavor → Z → Prop.

(** The row is in the table. *)
Definition present : guard := λ T i, is_Some (T !! i).

Section stages.
Context {St : Type} `{FlavorStore St}.
Implicit Types (M : machine) (G : guard) (s : St) (o : op) (T : gmap Z flavor) (t : task).

(** Settling [q] on [s] ends the task of [o]: the task returns with a
    response, and the response and the table are a step of the machine. *)
Definition ends_task M s (q : query) (k : reply → task) o : Prop :=
  ∃ r log, k (execute q s).1 = Ret (answered r log) ∧
           M (table s) o r (table (execute q s).2).

(** Settling [q] on [s] passes the check of [o]: a row of its id was
    found, the guard holds of it, and the table is as it was. *)
Definition passes_check G (checks : op → option string) s (q : query) o : Prop :=
  ∃ txt i row rows,
    checks o = Some txt ∧ ident_of St txt = Some i ∧ G (table s) i ∧
    table (execute q s).2 = table s ∧ (execute q s).1 = Resolved (row :: rows).

End stages.

(** An implementation of the operations of the machine [M], with what
    the invariant needs of it: every handler starts at an await whose
    settlement ends the request, with a step of the machine, or passes
    its check; and past its check, under the guard [G], its next await
    ends it. *)
Record OpHandlers (St : Type) `{FlavorStore St} (M : machine) (G : guard) := {
  impl : op → handler unit;
  checks : op → option string;
  started_step o (s : St) :
    store_ok s →
    ∃ q k, start (impl o) = Await q k ∧ (ends_task M s q k o ∨ passes_check G checks s q o);
  checked_step o (s : St) txt i row rows :
    store_ok s → checks o = Some txt → ident_of St txt = Some i → G (table s) i →
    ∃ q k, feed (start (impl o)) [Resolved (row :: rows)] = Await q k ∧ ends_task M s q k o
}.
Arguments impl {St _ _ M G} _ o.
Arguments checks {St _ _ M G} _ o.
Arguments started_step {St _ _ M G} _ o s.
Arguments checked_step {St _ _ M G} _ o s txt i row rows.

Section invariant_def.
Context {St : Type} `{FlavorStore St} {M : machine} {G : guard} (I : OpHandlers St M G).
Implicit Types (s : St) (o : op) (T : gmap Z flavor) (t : task).

(** Where the task of [o] stands over the table [T]: not resumed yet,
    past its check under its guard, or ended with a response. *)
Inductive stage T o : task → option response → Prop :=
| stage_started : stage T o (start (impl I o)) None
| stage_checked txt i row rows :
    checks I o = Some txt → ident_of St txt = Some i → G T i →
    stage T o (feed (start (impl I o)) [Resolved (row :: rows)]) None
| stage_done r log : stage T o (Ret (answered r log)) (Some r).

(** No step of one request breaks the guard of another. *)
Definition keeps_guards (os : list op) : Prop :=
  ∀ j k oj ok txt i T r T',
    j ≠ k → os !! j = Some oj → os !! k = Some ok →
    checks I ok = Some txt → ident_of St txt = Some i →
    M T oj r T' → G T i → G T' i.

(** Settling the query that task [j] awaits in the pool [p] breaks the
    guard of no task that is past its check there. *)
Definition keeps_guards_at (os : list op) (p : pool St) (j : nat) : Prop :=
  ∀ q kj k ok txt i row rows,
    pool_tasks p !! j = Some (Await q kj) → k ≠ j → os !! k = Some ok →
    pool_tasks p !! k = Some (feed (start (impl I ok)) [Resolved (row :: rows)]) →
    checks I ok = Some txt → ident_of St txt = Some i →
    G (table (pool_store p)) i → G (table (execute q (pool_store p)).2) i.

(** The pool [p], reached from the operations [os] in flight over [s0],
    with the history [h]. *)
Record lin (s0 : St) (os : list op) (p : pool St) (h : list (nat * response)) : Prop := Lin {
  lin_ok : store_ok (pool_store p);
  lin_nodup : NoDup h.*1;
  lin_order : h.*1 = ended p;
  lin_run : lts_run M (table s0) (hist_ops os h) h.*2 (table (pool_store p));
  lin_tasks k t :
    pool_tasks p !! k = Some t →
    ∃ o, os !! k = Some o ∧
         stage (table (pool_store p)) o t ((list_to_map h : gmap nat response) !! k);
  lin_hist k r :
    (k, r) ∈ h → ∃ log, pool_tasks p !! k = Some (Ret (answered r log));
  lin_length : length (pool_tasks p) = length os
}.

End invariant_def.

(** ** Sample operations *)

Definition disjoint_ops : list op :=
  [OpUpdate "1" "Vanilla Bean" false; OpDelete "2"; OpGet "1"].

(** ** The machine under a change of the table *)

Section frame.
Context (ident : string → option Z).
Implicit Types (T : gmap Z flavor) (o : op) (i : Z).

(** A step of the machine removes no row but the one an operation
    deletes. *)
Lemma crud_keeps T o r T' i :
  crud ident T o r T' → is_Some (T !! i) →
  (∀ txt, deletes o = Some txt → ident txt ≠ Some i) →
  is_Some (T' !! i).
Proof.
  destruct 1 as [| |T name fav f Hf _ _|T txt name fav j f0 ts _ _
                 |T txt j f Hl| |]; intros Hi Hdel; try done.
  - rewrite lookup_insert_is_Some. destruct (decide (f_id f = i)); eauto.
  - rewrite lookup_insert_is_Some. destruct (decide (j = i)); eauto.
  - rewrite lookup_delete_is_Some. split; [|done]. intros ->.
    apply (Hdel txt eq_refl). unfold locate in Hl.
    destruct (ident txt) as [j|]; [|done]. by destruct (T !! j); simplify_eq/=.
Qed.

(** A task that ends with a step of a machine ends with a step of any
    machine that has its steps, and a check passed under a guard is
    passed under any weaker one. *)
Lemma ends_task_mono {St : Type} `{FlavorStore St} (M M' : machine) (s : St) q k o :
  (∀ T o r T', M T o r T' → M' T o r T') → ends_task M s q k o → ends_task M' s q k o.
Proof. intros Hsub (r & log & ? & ?). exists r, log. eauto. Qed.

Lemma passes_check_mono {St : Type} `{FlavorStore St} (G G' : guard) checks (s : St) q o :
  (∀ T i, G T i → G' T i) → passes_check G checks s q o → passes_check G' checks s q o.
Proof.
  intros Hsub (txt & i & row & rows & ? & ? & ? & ? & ?). exists txt, i, row, rows. eauto 10.
Qed.

Lemma hist_ops_snoc os h k r o :
  os !! k = Some o → hist_ops os (h ++ [(k, r)]) = hist_ops os h ++ [o].
Proof. intros Ho. unfold hist_ops. rewrite fmap_app, omap_app. cbn. by rewrite Ho. Qed.

(** A history of all the requests holds all the operations. *)
Lemma hist_ops_all os h : h.*1 ≡ₚ seq 0 (length os) → hist_ops os h ≡ₚ os.
Proof. intros Hh. unfold hist_ops. by rewrite Hh, omap_lookup_seq. Qed.

End frame.

(** ** The two steps of a handler *)

Section steps.
Context {St : Type} `{FlavorStore St}.
Implicit Types (s : St) (o : op) (T : gmap Z flavor) (txt name : string) (fav : bool).

#[local] Abbreviation ends_step := (ends_task (crud (ident_of St))).
#[local] Abbreviation passes_row := (passes_check present).

(** The list and the create end at their one query. *)
Lemma list_step s :
  store_ok s →
  ∃ q k, start (handler_for OpList) = Await q k ∧ ends_step s q k OpList.
Proof.
  intros Hok. destruct (select_all_settled s Hok) as (fs & s1 & E1 & Hfs & Ht1 & _).
  eexists _, _. split; [start_eval; reflexivity|]. unfold ends_task. rewrite E1. cbn.
  eexists _, _. split; [reflexivity|]. rewrite Ht1. by constructor.
Qed.

Lemma create_step s name fav :
  store_ok s →
  ∃ q k, start (handler_for (OpCreate name fav)) = Await q k ∧
         ends_step s q k (OpCreate name fav).
Proof.
  intros Hok.
  destruct (insert_settled s name fav Hok) as (f & s1 & E1 & ? & ? & ? & Ht1 & _).
  eexists _, _. split; [start_eval; reflexivity|]. unfold ends_task. rewrite E1. cbn.
  eexists _, _. split; [reflexivity|]. rewrite Ht1. by constructor.
Qed.

(** The first query of an item operation is the check by id; a rejection
    and an empty result end the task, and so does a row for a get, while
    an update and a delete go on. *)
Lemma item_start o txt :
  item_of o = Some txt →
  ∃ k, start (handler_for o) = Await (Query sql_select_by_id [VStr txt]) k ∧
       (∀ e, k (Rejected e) = Ret (answered server_error_response [e])) ∧
       k (Resolved []) = Ret (answered not_found_response []) ∧
       ∀ row rows,
         k (Resolved (row :: rows)) =
           if writes o is Some _ then feed (start (handler_for o)) [Resolved (row :: rows)]
           else Ret (answered (ok_json row) []).
Proof.
  destruct o; intros [= ->]; (eexists; split; [start_eval; reflexivity|]); cbn; done.
Qed.

Lemma item_step s o txt :
  store_ok s → item_of o = Some txt →
  ∃ q k, start (handler_for o) = Await q k ∧ (ends_step s q k o ∨ passes_row writes s q o).
Proof.
  intros Hok Ho. destruct (item_start o txt Ho) as (k & Hs & Hrej & Hnone & Hrow).
  destruct (select_located s txt Hok) as (rp & s1 & E1 & Ht1 & _ & Hl).
  exists (Query sql_select_by_id [VStr txt]), k. split; [done|].
  unfold ends_task, passes_check, present. rewrite E1. cbn [fst snd]. rewrite Ht1.
  destruct (locate _ txt (table s)) as [|i|i f] eqn:Hloc.
  - destruct Hl as [e ->]. left. eexists _, _. split; [apply Hrej|]. by eapply crud_malformed.
  - destruct Hl as [_ ->]. left. eexists _, _. split; [apply Hnone|]. by eapply crud_missing.
  - destruct Hl as (Hi & _ & ->). pose proof (locate_found _ _ _ _ _ Hloc) as Hf.
    destruct (writes o) as [txt'|] eqn:Hw.
    + right. exists txt, i, (row_of f), []. destruct o; naive_solver.
    + left. destruct o; simplify_eq/=. eexists _, _. split; [apply Hrow|].
      by eapply crud_get.
Qed.

(** Every operation starts at an await, and its first query ends it or
    passes its check. *)
Lemma source_started o s :
  store_ok s →
  ∃ q k, start (handler_for o) = Await q k ∧ (ends_step s q k o ∨ passes_row writes s q o).
Proof.
  intros Hok. destruct (item_of o) as [txt|] eqn:Ho; [by eapply item_step|].
  destruct o; simplify_eq/=.
  - destruct (list_step s Hok) as (q & k & ? & ?). eauto.
  - destruct (create_step s name fav Hok) as (q & k & ? & ?). eauto.
Qed.

(** Past its check, an update or a delete whose row is still there ends
    at its second query. *)
Lemma source_checked o s txt i row rows :
  store_ok s → writes o = Some txt → ident_of St txt = Some i → is_Some (table s !! i) →
  ∃ q k, feed (start (handler_for o)) [Resolved (row :: rows)] = Await q k ∧
         ends_step s q k o.
Proof.
  intros Hok Hw Hi [f0 Hf]. unfold ident_of in Hi.
  assert (locate (ident_of St) txt (table s) = Found i f0) as Hloc
    by (unfold locate, ident_of; by rewrite Hi, Hf).
  destruct o as [| | |txt' name fav|txt']; simplify_eq/=.
  - destruct (update_settled s (VStr txt) i name fav f0 Hok Hi Hf) as (ts & s2 & ? & E2 & Ht2 & _).
    eexists _, _. split; [start_eval; reflexivity|]. unfold ends_task. rewrite E2. cbn.
    eexists _, _. split; [reflexivity|]. rewrite Ht2. by eapply crud_update.
  - destruct (delete_settled s (VStr txt) i Hok Hi) as (s2 & E2 & Ht2 & _).
    eexists _, _. split; [start_eval; reflexivity|]. unfold ends_task. rewrite E2. cbn.
    eexists _, _. split; [reflexivity|]. rewrite Ht2. by eapply crud_delete.
Qed.

(** The handlers of server.js, where the update and the delete check
    before they act. *)
Definition source_handlers : OpHandlers St (crud (ident_of St)) present := {|
  impl := handler_for;
  checks := writes;
  started_step := source_started;
  checked_step := source_checked
|}.

End steps.

(** ** The invariant *)

Section invariant.
Context {St : Type} `{FlavorStore St} {M : machine} {G : guard} (I : OpHandlers St M G).
Implicit Types (s : St) (p : pool St) (o : op) (T : gmap Z flavor) (t : task).
Implicit Types (h : list (nat * response)) (os : list op).

(** A stage looks at the table only for the row of its check, and only
    past the check. *)
Lemma stage_frame T T' o t resp :
  stage I T o t resp →
  (∀ txt i row rows,
     t = feed (start (impl I o)) [Resolved (row :: rows)] →
     checks I o = Some txt → ident_of St txt = Some i → G T i → G T' i) →
  stage I T' o t resp.
Proof. destruct 1; intros HT; econstructor; eauto. Qed.

(** A task that awaits has not ended, and a task that has ended is in
    its last stage. *)
Lemma stage_await T o q k resp : stage I T o (Await q k) resp → resp = None.
Proof. by inversion 1. Qed.

Lemma stage_ret s o a resp :
  store_ok s → stage I (table s) o (Ret a) resp → ∃ r log, a = answered r log ∧ resp = Some r.
Proof.
  intros Hok Hst. remember (Ret a) as t eqn:Ht.
  destruct Hst as [|txt i row rows Hw Hi Hin|r log]; [..|by simplify_eq; eauto].
  - destruct (started_step I o s Hok) as (q & k & Hq & _). congruence.
  - destruct (checked_step I o s txt i row rows Hok Hw Hi Hin) as (q & k & Hq & _). congruence.
Qed.

(** The query a task awaits ends it, with a step of the machine, or is
    its first and passes its check. *)
Lemma stage_next s o q k resp :
  store_ok s → stage I (table s) o (Await q k) resp →
  ends_task M s q k o ∨
  (start (impl I o) = Await q k ∧ passes_check G (checks I) s q o).
Proof.
  intros Hok Hst. remember (Await q k) as t eqn:Ht.
  destruct Hst as [|txt i row rows Hw Hi Hin|]; [..|done].
  - destruct (started_step I o s Hok) as (q' & k' & Hs & [Hend|Hchk]);
      rewrite Hs in Ht; simplify_eq; auto.
  - destruct (checked_step I o s txt i row rows Hok Hw Hi Hin) as (q' & k' & Hs & Hend).
    rewrite Hs in Ht. simplify_eq. auto.
Qed.

(** At the start nothing has ended. *)
Lemma lin_spawn s os : store_ok s → lin I s os (spawn (impl I <$> os) s) [].
Proof.
  intros Hok. split; cbn;
    [done|constructor|done|constructor| |by intros ?? ?%elem_of_nil|by rewrite !length_fmap].
  intros k t. rewrite !list_lookup_fmap. destruct (os !! k) as [o|]; [|done].
  intros [= <-]. exists o. split; [done|]. rewrite lookup_empty. constructor.
Qed.

(** A step that passes a check changes the task and nothing else. *)
Lemma lin_check s0 os p h j o q k :
  lin I s0 os p h → os !! j = Some o → pool_tasks p !! j = Some (Await q k) →
  start (impl I o) = Await q k → passes_check G (checks I) (pool_store p) q o →
  lin I s0 os (resume j p) h.
Proof.
  intros [Hok Hnd Hord Hrun Htasks Hhist Hlen] Ho Hj Hs
    (txt & i & row & rows & Hw & Hi & Hin & HT & Hr).
  assert (h.*1 = ended (resume j p)) as Hord'.
  { destruct (checked_step I o _ txt i row rows Hok Hw Hi Hin) as (q' & k' & Hq & _).
    rewrite Hs in Hq. cbn in Hq.
    by rewrite (ended_resume _ _ _ _ Hj), Hr, Hq, app_nil_r. }
  rewrite (resume_await _ _ _ _ Hj) in Hord' |- *.
  split; cbn [pool_store pool_tasks]; rewrite ?HT, ?length_insert;
    [|done|done|done| | |done].
  - by apply execute_ok.
  - intros k' t Hk'. destruct (decide (k' = j)) as [->|Hne].
    + rewrite list_lookup_insert_eq in Hk' by (by eapply lookup_lt_Some). simplify_eq.
      destruct (Htasks _ _ Hj) as (o' & ? & Hst%stage_await). simplify_eq.
      exists o. split; [done|]. rewrite Hst, Hr.
      replace (k (Resolved (row :: rows)))
        with (feed (start (impl I o)) [Resolved (row :: rows)]) by (by rewrite Hs).
      by eapply stage_checked.
    + rewrite list_lookup_insert_ne in Hk' by done. by apply Htasks.
  - intros k' r Hin'. destruct (Hhist _ _ Hin') as [log Hk']. exists log.
    rewrite list_lookup_insert_ne; [done|]. intros <-. congruence.
Qed.

(** A step that ends a request adds it to the history; the guards of
    the requests past their check stay. *)
Lemma lin_finish s0 os p h j o q k :
  keeps_guards_at I os p j →
  lin I s0 os p h → os !! j = Some o → pool_tasks p !! j = Some (Await q k) →
  ends_task M (pool_store p) q k o →
  ∃ r, lin I s0 os (resume j p) (h ++ [(j, r)]).
Proof.
  intros Hcf [Hok Hnd Hord Hrun Htasks Hhist Hlen] Ho Hj (r & log & Hk & Hcrud). exists r.
  destruct (Htasks _ _ Hj) as (o' & ? & Hnone%stage_await). simplify_eq.
  apply not_elem_of_list_to_map in Hnone. pose proof (lookup_lt_Some _ _ _ Hj) as Hlt.
  assert ((h ++ [(j, r)]).*1 = ended (resume j p)) as Hord'
    by (by rewrite (ended_resume _ _ _ _ Hj), Hk, fmap_app, Hord).
  rewrite (resume_await _ _ _ _ Hj) in Hord' |- *.
  split; cbn [pool_store pool_tasks]; rewrite ?length_insert; [| |done| | | |done].
  - by apply execute_ok.
  - rewrite fmap_app. apply NoDup_app. split_and!; [done| |apply NoDup_singleton].
    by intros x Hx ->%list_elem_of_singleton.
  - rewrite (hist_ops_snoc _ _ _ _ _ Ho), fmap_app. by eapply lts_run_snoc.
  - intros k' t Hk'. rewrite list_to_map_snoc by done.
    destruct (decide (k' = j)) as [->|Hne].
    + rewrite list_lookup_insert_eq in Hk' by done. simplify_eq.
      exists o. split; [done|]. rewrite lookup_insert_eq, Hk. constructor.
    + rewrite list_lookup_insert_ne in Hk' by done. rewrite lookup_insert_ne by done.
      destruct (Htasks _ _ Hk') as (o' & Ho' & Hst). exists o'. split; [done|].
      eapply stage_frame; [exact Hst|]. intros txt i row rows -> Hw Hi Hin.
      by eapply (Hcf q k k' o' txt i row rows).
  - intros k' r' [Hin|Hin%list_elem_of_singleton]%elem_of_app.
    + destruct (Hhist _ _ Hin) as [log' Hk']. exists log'.
      rewrite list_lookup_insert_ne; [done|]. intros <-. congruence.
    + simplify_eq. exists log. by rewrite list_lookup_insert_eq, Hk.
Qed.

(** A step that breaks no guard keeps the invariant, with the same
    history or with one more request ended. *)
Lemma lin_resume s0 os p h j q k :
  lin I s0 os p h → pool_tasks p !! j = Some (Await q k) → keeps_guards_at I os p j →
  ∃ h', lin I s0 os (resume j p) h'.
Proof.
  intros Hlin Hj Hkg. destruct (lin_tasks _ _ _ _ _ Hlin _ _ Hj) as (o & Ho & Hst).
  destruct (stage_next _ _ _ _ _ (lin_ok _ _ _ _ _ Hlin) Hst) as [Hend|[Hs Hchk]].
  - destruct (lin_finish _ _ _ _ _ _ _ _ Hkg Hlin Ho Hj Hend) as [r ?]. eauto.
  - exists h. by eapply lin_check.
Qed.

(** Where the requests break no guard of one another by what they are,
    no step does. *)
Lemma keeps_guards_here s0 os p h j :
  keeps_guards I os → lin I s0 os p h → keeps_guards_at I os p j.
Proof.
  intros Hkg Hlin q kj k ok txt i row rows Hj Hne Hok Hk Hw Hi Hin.
  destruct (lin_tasks _ _ _ _ _ Hlin _ _ Hj) as (oj & Hoj & Hst).
  destruct (stage_next _ _ _ _ _ (lin_ok _ _ _ _ _ Hlin) Hst)
    as [(r & log & _ & Hstep)|[_ (? & ? & ? & ? & _ & _ & _ & -> & _)]]; [|done].
  by eapply (Hkg j k oj ok txt i).
Qed.

(** The invariant along the steps of a relation each of whose steps
    resumes a task and breaks no guard. *)
Lemma lin_along (R : relation (pool St)) os s p :
  (∀ p p' h, lin I s os p h → R p p' →
     ∃ j q k, pool_tasks p !! j = Some (Await q k) ∧ p' = resume j p ∧
              keeps_guards_at I os p j) →
  store_ok s → rtc R (spawn (impl I <$> os) s) p → ∃ h, lin I s os p h.
Proof.
  intros HR Hok Hsteps.
  eapply (rtc_ind_r (λ p, ∃ h, lin I s os p h)); [|intros p1 p2 _ Hstep [h Hh]|exact Hsteps].
  - eexists. by apply lin_spawn.
  - destruct (HR _ _ _ Hh Hstep) as (j & q & k & Hj & -> & Hkg). by eapply lin_resume.
Qed.

Lemma lin_steps os s p :
  store_ok s → keeps_guards I os →
  rtc step (spawn (impl I <$> os) s) p → ∃ h, lin I s os p h.
Proof.
  intros Hok Hkg. apply lin_along; [|done]. intros p1 p2 h Hlin Hstep. revert Hlin.
  destruct Hstep as [j q k p1 Hj]. intros Hlin.
  exists j, q, k. split_and!; [done..|]. exact (keeps_guards_here _ _ _ _ _ Hkg Hlin).
Qed.

(** The history holds the requests that have ended, with the responses
    they gave. *)
Lemma lin_results s0 os p h k r :
  lin I s0 os p h →
  (k, r) ∈ h ↔ ∃ log, results p !! k = Some (Some (answered r log)).
Proof.
  intros [Hokp Hnd _ Hrun Htasks Hhist _]. unfold results. rewrite list_lookup_fmap. split.
  - intros [log Hk]%Hhist. exists log. by rewrite Hk.
  - intros [log Hk]. destruct (pool_tasks p !! k) as [[a|]|] eqn:Ht; simplify_eq/=.
    destruct (Htasks _ _ Ht) as (o & Ho & Hst).
    apply (stage_ret _ _ _ _ Hokp) in Hst as (r' & log' & [= <- _] & Hr).
    by apply elem_of_list_to_map.
Qed.

(** When no request awaits, the history holds them all. *)
Lemma lin_complete s0 os p h :
  lin I s0 os p h → quiescent p → h.*1 ≡ₚ seq 0 (length os).
Proof.
  intros Hlin Hq. apply NoDup_Permutation; [apply Hlin | apply NoDup_seq |].
  intros k. rewrite elem_of_seq, list_elem_of_fmap. split.
  - intros ([k' r] & -> & [log Hk]%(lin_hist _ _ _ _ _ Hlin)).
    apply lookup_lt_Some in Hk. rewrite (lin_length _ _ _ _ _ Hlin) in Hk. cbn. lia.
  - intros [_ Hk]. rewrite <-(lin_length _ _ _ _ _ Hlin) in Hk.
    destruct (lookup_lt_is_Some_2 _ _ Hk) as [t Ht].
    destruct (Forall_lookup_1 _ _ _ _ Hq Ht) as [a Ha]. destruct t; simplify_eq/=.
    destruct (lin_tasks _ _ _ _ _ Hlin _ _ Ht) as (o & _ & Hst).
    apply (stage_ret _ _ _ _ (lin_ok _ _ _ _ _ Hlin)) in Hst as (r & log & -> & Hr).
    exists (k, r). split; [done|]. by apply elem_of_list_to_map; [apply Hlin|].
Qed.

(** What the invariant says of the history. *)
Lemma lin_history s0 os p h :
  lin I s0 os p h →
  NoDup h.*1 ∧ h.*1 = ended p ∧
  lts_run M (table s0) (hist_ops os h) h.*2 (table (pool_store p)) ∧
  (∀ k r, (k, r) ∈ h ↔ ∃ log, results p !! k = Some (Some (answered r log))) ∧
  (quiescent p → hist_ops os h ≡ₚ os).
Proof.
  intros Hlin. split_and!; [apply Hlin..| |].
  - intros k r. by eapply lin_results.
  - intros Hq. by eapply hist_ops_all, lin_complete.
Qed.

(** Requests in flight over handlers that meet the interface of a
    machine are atomic when none breaks the guard of another: the
    requests that have ended, in the order in which they ended, with the
    responses they gave, are a run of the machine, and when no request
    awaits they are all the requests. *)
Lemma linearizable os s p :
  store_ok s → keeps_guards I os →
  rtc step (spawn (impl I <$> os) s) p →
  ∃ h, NoDup h.*1 ∧ h.*1 = ended p ∧
       lts_run M (table s) (hist_ops os h) h.*2 (table (pool_store p)) ∧
       (∀ k r, (k, r) ∈ h ↔ ∃ log, results p !! k = Some (Some (answered r log))) ∧
       (quiescent p → hist_ops os h ≡ₚ os).
Proof.
  intros Hok Hcf Hsteps. destruct (lin_steps os s p Hok Hcf Hsteps) as [h Hlin].
  exists h. by apply lin_history.
Qed.

End invariant.

(** ** The machine of the five operations *)

Section strict.
Context {St : Type} `{FlavorStore St} (I : OpHandlers St (crud (ident_of St)) present).

(** A row that a request has checked stays when no delete of it is in
    flight. *)
Lemma conflict_free_keeps os :
  conflict_free (ident_of St) (checks I) os → keeps_guards I os.
Proof.
  intros Hcf j k oj ok txt i T r T' Hne Hj Hk Hw Hi Hstep Hin.
  eapply crud_keeps; [exact Hstep|exact Hin|]. intros txt' Hdel Hi'.
  by apply (Hcf j k oj ok txt' txt i).
Qed.

(** Handlers of the machine of [Crud] are atomic when no delete meets
    another operation that checks its row. *)
Lemma conflict_free_atomic os (s : St) p :
  store_ok s → conflict_free (ident_of St) (checks I) os →
  rtc step (spawn (impl I <$> os) s) p →
  ∃ h, NoDup h.*1 ∧ h.*1 = ended p ∧
       crud_run (ident_of St) (table s) (hist_ops os h) h.*2 (table (pool_store p)) ∧
       (∀ k r, (k, r) ∈ h ↔ ∃ log, results p !! k = Some (Some (answered r log))) ∧
       (quiescent p → hist_ops os h ≡ₚ os).
Proof. intros Hok Hcf. by apply (linearizable I), conflict_free_keeps. Qed.

End strict.

(** ** The handlers of server.js *)

Section source.
Context {St : Type} `{FlavorStore St}.

(** C14: requests in flight together are atomic unless a delete meets an
    update or a delete of its row. For operations of the REST interface
    none of whose deletes shares its id with another update or delete,
    in flight over a store that keeps the contract, however the runtime
    interleaves them: the requests that have ended, taken in the order in
    which they ended, with the responses they gave, are a run of the
    specification machine from the table at the start to the table now;
    and when no request awaits, they are all the requests. *)
Theorem conflict_free_linearizable os (s : St) p :
  store_ok s → conflict_free (ident_of St) writes os →
  rtc step (spawn (handler_for <$> os) s) p →
  ∃ h, NoDup h.*1 ∧ h.*1 = ended p ∧
       crud_run (ident_of St) (table s) (hist_ops os h) h.*2 (table (pool_store p)) ∧
       (∀ k r, (k, r) ∈ h ↔ ∃ log, results p !! k = Some (Some (answered r log))) ∧
       (quiescent p → hist_ops os h ≡ₚ os).
Proof. exact (conflict_free_atomic source_handlers os s p). Qed.

End source.
