(* ===== verification/Hardened.v ===== *)
(** * The update as one statement

    Section 9 of the specification leaves open whether the check-then-act
    of the update is kept or replaced by a single statement with a row
    check. [put_atomic] is that handler: it issues the update of line 86
    of server.js alone and answers 404 when it resolves to no row. It is
    not code of the repository; it is the reference the source's PUT is
    measured against.

    Served alone, it takes the same step of the machine of [Crud] as the
    source's handler does ([put_atomic_refines], beside
    [Crud.update_refines]): the existence check changes no answer. In
    flight with other requests it ends at its one query, so it meets the
    interface of [Linearize] with nothing to check ([hardened_handlers]),
    and the update is atomic against the deletes of its row: what is left
    of the races of [Races] is two deletes of one row. *)

From S2P Require Import Prelude Js Async Express Handlers Routes Store Service Crud Interleave.
From S2P Require Import Linearize.

#[local] Open Scope string_scope.
#[local] Open Scope Z_scope.
#[local] Open Scope js_scope.

(** ** The handler *)

(** PUT /api/flavors/:id with the update alone: no row back is 404. *)
Definition put_atomic (req : request) : handler unit :=
  id ← complete (get_prop (req_params req) "id");
  name ← complete (get_prop (req_body req) "name");
  is_favorite ← complete (get_prop (req_body req) "is_favorite");
  try
    rows ← db_query sql_update [name; is_favorite; id];
    if js_is_empty rows then not_found
    else res_json (js_index rows 0)
  catch err =>> server_error err.

(** The handlers of server.js with the update replaced. *)
Definition hardened_for (o : op) : handler unit :=
  match o with
  | OpUpdate _ _ _ => put_atomic (request_of o)
  | OpList | OpGet _ | OpCreate _ _ | OpDelete _ => handler_for o
  end.

(** ** A sample: an update, a delete and a get of the same row *)

Definition same_row_ops : list op :=
  [OpUpdate "1" "Vanilla Bean" false; OpDelete "1"; OpGet "1"].

(** ** The update alone *)

Section update.
Context {St : Type} `{FlavorStore St}.
Implicit Types (s : St) (o : op) (txt name : string) (fav : bool).

#[local] Abbreviation ends_step := (ends_task (crud (ident_of St))).
#[local] Abbreviation passes_row := (passes_check present).

(** The update settled on a store, by where its segment points: rejected
    for a text that denotes no id, no row for an id the table does not
    hold, and the new row otherwise. *)
Lemma update_located s txt name fav :
  store_ok s →
  ∃ rp s1, execute (Query sql_update [VStr name; VBool fav; VStr txt]) s = (rp, s1) ∧
           store_ok s1 ∧
           match locate (ident_of St) txt (table s) with
           | Malformed => (∃ e, rp = Rejected e) ∧ table s1 = table s
           | Missing i => rp = Resolved [] ∧ table s1 = table s
           | Found i f0 =>
               ∃ ts, newer f0 ts ∧
                     rp = Resolved [row_of (Flavor i (Some name) (Some fav) (Some ts))] ∧
                     table s1 = <[i := Flavor i (Some name) (Some fav) (Some ts)]> (table s)
           end.
Proof.
  intros Hok. unfold locate, ident_of. destruct (read_id St (VStr txt)) as [i|] eqn:Hi.
  - destruct (table s !! i) as [f0|] eqn:Hf; cbn.
    + destruct (update_settled s (VStr txt) i name fav f0 Hok Hi Hf) as (ts & s1 & ? & ? & ? & ?).
      eauto 10.
    + destruct (update_missing_settled s (VStr txt) i name fav Hok Hi Hf) as (s1 & ? & ? & ?).
      eauto 10.
  - destruct (update_malformed_settled s name fav txt Hi) as (e & s1 & E1 & Ht1).
    eexists _, s1. split_and!; [done| |by eexists|done].
    eapply execute_step_ok; eauto.
Qed.

(** Served alone, the update as one statement takes the step of the
    machine: the same step the source's handler takes after its check. *)
Lemma put_atomic_refines s txt name fav :
  store_ok s →
  crud (ident_of St) (table s) (OpUpdate txt name fav)
    (response_of (serve (put_atomic (update_request txt name fav)) s))
    (table_after (serve (put_atomic (update_request txt name fav)) s)).
Proof.
  intros Hok. destruct (update_located s txt name fav Hok) as (rp & s1 & E1 & _ & Hl).
  unfold put_atomic, response_of, table_after.
  destruct (locate _ txt (table s)) as [|i|i f0] eqn:Hloc.
  - destruct Hl as [[e ->] Ht1]. serve_settled. rewrite ?Ht1. by eapply crud_malformed.
  - destruct Hl as [-> Ht1]. serve_settled. rewrite ?Ht1. by eapply crud_missing.
  - destruct Hl as (ts & Hts & -> & Ht1). serve_settled. rewrite ?Ht1. by eapply crud_update.
Qed.

(** In flight, it starts at the update and ends with it. *)
Lemma put_atomic_started s txt name fav :
  store_ok s →
  ∃ q k, start (hardened_for (OpUpdate txt name fav)) = Await q k ∧
         ends_step s q k (OpUpdate txt name fav).
Proof.
  intros Hok. destruct (update_located s txt name fav Hok) as (rp & s1 & E1 & _ & Hl).
  eexists _, _. split; [unfold hardened_for, put_atomic; start_eval; reflexivity|].
  unfold ends_task. rewrite E1. cbn [fst snd].
  destruct (locate _ txt (table s)) as [|i|i f0] eqn:Hloc.
  - destruct Hl as [[e ->] ->]. eexists _, _. split; [reflexivity|]. by eapply crud_malformed.
  - destruct Hl as [-> ->]. eexists _, _. split; [reflexivity|]. by eapply crud_missing.
  - destruct Hl as (ts & Hts & -> & ->). eexists _, _. split; [reflexivity|].
    by eapply crud_update.
Qed.

(** The other operations are the source's; of them only the delete
    checks before it acts. *)
Lemma hardened_started o s :
  store_ok s →
  ∃ q k, start (hardened_for o) = Await q k ∧
         (ends_step s q k o ∨ passes_row deletes s q o).
Proof.
  intros Hok. destruct (decide (is_Some (deletes o) ∨ writes o = None)) as [Ho|Ho].
  - assert (hardened_for o = handler_for o ∧ deletes o = writes o) as [-> Hd]
      by (destruct o, Ho as [[? ?]|?]; by simplify_eq/=).
    destruct (source_started o s Hok) as (q & k & Hs & [Hend|Hchk]); [by eauto|].
    exists q, k. split; [done|right]. unfold passes_check. by rewrite Hd.
  - destruct o as [| | |txt name fav|]; try (exfalso; apply Ho; cbn; by eauto).
    destruct (put_atomic_started s txt name fav Hok) as (q & k & ? & ?). eauto.
Qed.

Lemma hardened_checked o s txt i row rows :
  store_ok s → deletes o = Some txt → ident_of St txt = Some i → is_Some (table s !! i) →
  ∃ q k, feed (start (hardened_for o)) [Resolved (row :: rows)] = Await q k ∧
         ends_step s q k o.
Proof.
  intros Hok Hd Hi Hin. destruct o; simplify_eq/=.
  by apply (source_checked (OpDelete txt) s txt i row rows).
Qed.

(** The handlers with the update as one statement: only the delete
    checks before it acts. *)
Definition hardened_handlers : OpHandlers St (crud (ident_of St)) present := {|
  impl := hardened_for;
  checks := deletes;
  started_step := hardened_started;
  checked_step := hardened_checked
|}.

(** C18: with the update issued as one statement, the update is atomic
    against the deletes of its row. For operations of the REST interface
    no two of whose deletes share an id, in flight over a store that
    keeps the contract, however the runtime interleaves them, updates of
    the deleted rows included: the requests that have ended, in the
    order in which they ended and with the responses they gave, are a
    run of the specification machine, and when no request awaits they
    are all the requests. The update/delete race of server.js is the
    work of the existence check of its PUT. *)
Theorem atomic_update_linearizable os (s : St) p :
  store_ok s → conflict_free (ident_of St) deletes os →
  rtc step (spawn (hardened_for <$> os) s) p →
  ∃ h, NoDup h.*1 ∧ h.*1 = ended p ∧
       crud_run (ident_of St) (table s) (hist_ops os h) h.*2 (table (pool_store p)) ∧
       (∀ k r, (k, r) ∈ h ↔ ∃ log, results p !! k = Some (Some (answered r log))) ∧
       (quiescent p → hist_ops os h ≡ₚ os).
Proof. exact (conflict_free_atomic hardened_handlers os s p). Qed.

End update.
