(* ===== verification/Races.v ===== *)
(** * The check-then-act races, in full

    The update and the delete handlers check that the row exists and then
    act on it, in two queries (lines 79 and 86, 107 and 115 of
    server.js), and another request can be served between the two.
    [Linearize] shows that nothing goes wrong when no delete meets
    another update or delete of its row. This file takes the two pairs
    that do meet, an update with a delete and two deletes of one row, and
    gives every outcome they can have, whatever the order in which the
    store settles their queries.

    Each pair is followed along the steps of its pool by an invariant
    that says where each of the two tasks stands ([put_stands],
    [del_stands], [del2_stands]) over the table as it is now. What the
    pairs can answer that no order of the two requests explains is one
    outcome each: an update answered 200 with no flavor, and two deletes
    both answered 204. *)

From S2P Require Import Prelude Js Async Express Handlers Routes Store Service Crud Interleave.
From S2P Require Import Linearize.

#[local] Open Scope Z_scope.

(** ** Handlers that check and then act *)

(** What a handler that checks by id and then acts does at its two
    awaits: [k1] is its continuation at the check, [k2] at the statement
    [act], and [ok rows] the response it gives when [act] resolves to
    [rows]. *)
Record check_then_act (act : query) (ok : list value → response) (k1 k2 : reply → task)
  : Prop := CheckThenAct {
  cta_rejected e : k1 (Rejected e) = Ret (answered server_error_response [e]);
  cta_none : k1 (Resolved []) = Ret (answered not_found_response []);
  cta_found row rows : k1 (Resolved (row :: rows)) = Await act k2;
  cta_acted rows : k2 (Resolved rows) = Ret (answered (ok rows) []);
  cta_failed e : k2 (Rejected e) = Ret (answered server_error_response [e])
}.

(** The statements of the two handlers on the segment [txt]. *)
Definition check_of (txt : string) : query := Query sql_select_by_id [VStr txt].
Definition update_of (txt name : string) (fav : bool) : query :=
  Query sql_update [VStr name; VBool fav; VStr txt].
Definition delete_of (txt : string) : query := Query sql_delete [VStr txt].

(** The response of an update, for the rows its statement resolved to. *)
Definition updated (rows : list value) : response := ok_json (js_index rows 0).

(** The pools of the two races. *)
Definition put_and_delete {St : Type} `{!Executor St} (txt name : string) (fav : bool) (s : St)
  : pool St :=
  spawn [put_flavor (update_request txt name fav); delete_flavor (item_request txt)] s.

Definition two_deletes {St : Type} `{!Executor St} (txt : string) (s : St) : pool St :=
  spawn [delete_flavor (item_request txt); delete_flavor (item_request txt)] s.

Section stands.
Context (txt name : string) (fav : bool) (i : Z) (f0 : flavor).
Context (kp1 kp2 kd1 kd2 : reply → task).
Implicit Types (T : gmap Z flavor) (t : task).

(** Where the update stands over the table [T], in flight with a
    delete of its row: before its check or past it, the row being as it
    was or gone; ended with the new row; or ended with 404 or with no
    flavor, the row being gone. *)
Inductive put_stands T : task → Prop :=
| put_started :
    T !! i = Some f0 ∨ T !! i = None → put_stands T (Await (check_of txt) kp1)
| put_checked :
    T !! i = Some f0 ∨ T !! i = None → put_stands T (Await (update_of txt name fav) kp2)
| put_updated ts :
    newer f0 ts →
    put_stands T
      (Ret (answered (ok_json (row_of (Flavor i (Some name) (Some fav) (Some ts)))) []))
| put_missed : T !! i = None → put_stands T (Ret (answered not_found_response []))
| put_lost : T !! i = None → put_stands T (Ret (answered (ok_json VUndefined) [])).

(** Where the delete stands, in flight with an update of its row: the
    row is there until the delete has acted. *)
Inductive del_stands T : task → Prop :=
| del_started : is_Some (T !! i) → del_stands T (Await (check_of txt) kd1)
| del_checked : is_Some (T !! i) → del_stands T (Await (delete_of txt) kd2)
| del_done : T !! i = None → del_stands T (Ret (answered no_content [])).

(** Where a delete stands, in flight with another delete of its row:
    the row may be gone at any time, and is gone once the delete has
    ended. *)
Inductive del2_stands T : task → Prop :=
| del2_started : del2_stands T (Await (check_of txt) kd1)
| del2_checked : del2_stands T (Await (delete_of txt) kd2)
| del2_done : T !! i = None → del2_stands T (Ret (answered no_content []))
| del2_missed : T !! i = None → del2_stands T (Ret (answered not_found_response [])).

End stands.

(** ** The two handlers as tasks *)

Lemma put_task txt name fav :
  ∃ k1 k2,
    start (put_flavor (update_request txt name fav)) = Await (check_of txt) k1 ∧
    check_then_act (update_of txt name fav) updated k1 k2.
Proof.
  eexists _, _. split.
  - change (put_flavor (update_request txt name fav)) with (handler_for (OpUpdate txt name fav)).
    start_eval. reflexivity.
  - split; intros; cbn; reflexivity.
Qed.

Lemma delete_task txt :
  ∃ k1 k2,
    start (delete_flavor (item_request txt)) = Await (check_of txt) k1 ∧
    check_then_act (delete_of txt) (λ _, no_content) k1 k2.
Proof.
  eexists _, _. split.
  - change (delete_flavor (item_request txt)) with (handler_for (OpDelete txt)).
    start_eval. reflexivity.
  - split; intros; cbn; reflexivity.
Qed.

(** ** One step of a task *)

Section resumed.
Context {St : Type} `{FlavorStore St}.
Context (txt : string) (i : Z) (Hi : read_id St (VStr txt) = Some i).
Implicit Types (s : St) (T : gmap Z flavor) (t : task) (q : query) (k : reply → task).

(** What a step of one task leaves of the row of the other: the table
    after, [T'], is the table before with the row as it was, rewritten,
    or removed. *)
Definition row_kept T T' : Prop := is_Some (T !! i) → is_Some (T' !! i).
Definition row_gone T T' : Prop := T !! i = None → T' !! i = None.
Definition others_kept T T' : Prop := delete i T' = delete i T.

(** The check settles to the row of the id, if the table has one. *)
Lemma check_settled s (k1 k2 : reply → task) act ok :
  store_ok s → check_then_act act ok k1 k2 →
  table (execute (check_of txt) s).2 = table s ∧
  k1 (execute (check_of txt) s).1
    = if table s !! i is Some _ then Await act k2 else Ret (answered not_found_response []).
Proof.
  intros Hok Hk. destruct (select_by_id_settled s (VStr txt) i Hok Hi) as (s1 & E1 & Ht1 & _).
  unfold check_of. rewrite E1. cbn [fst snd]. split; [done|].
  destruct (table s !! i); cbn; [apply Hk | apply Hk].
Qed.

(** ** Deletes *)

Section deletes.
Context (kd1 kd2 : reply → task).
Context (Hdel : check_then_act (delete_of txt) (λ _, no_content) kd1 kd2).

#[local] Abbreviation del_stands := (del_stands txt i kd1 kd2).
#[local] Abbreviation del2_stands := (del2_stands txt i kd1 kd2).

(** A delete stays where it stands when the other task steps. *)
Lemma del_stands_frame T T' t :
  del_stands T t → row_kept T T' → row_gone T T' → del_stands T' t.
Proof. destruct 1; intros Hk Hg; constructor; auto. Qed.

Lemma del2_stands_frame T T' t : del2_stands T t → row_gone T T' → del2_stands T' t.
Proof. destruct 1; intros Hg; constructor; auto. Qed.

(** A delete resumed, whatever the other task is: past its check, or
    ended. It leaves the other rows as they were, and once it has acted
    the row is gone. *)
Lemma del2_resumed s q k :
  store_ok s → del2_stands (table s) (Await q k) →
  del2_stands (table (execute q s).2) (k (execute q s).1) ∧
  row_gone (table s) (table (execute q s).2) ∧
  others_kept (table s) (table (execute q s).2) ∧
  (table (execute q s).2 = table s ∨
   table (execute q s).2 !! i = None ∧ k (execute q s).1 = Ret (answered no_content [])).
Proof.
  intros Hok Hst. unfold row_gone, others_kept. inversion Hst; subst.
  - destruct (check_settled s _ _ _ _ Hok Hdel) as [-> ->].
    split_and!; [|done|done|by left]. destruct (table s !! i) eqn:Hrow; by constructor.
  - destruct (delete_settled s (VStr txt) i Hok Hi) as (s1 & E1 & Ht1 & _).
    unfold delete_of. rewrite E1. cbn [fst snd]. rewrite Ht1, (cta_acted _ _ _ _ Hdel).
    split_and!; [constructor| | |right]; rewrite ?lookup_delete_eq, ?delete_delete_eq; done.
Qed.

(** The delete resumed while its row is there. *)
Lemma del_resumed s q k :
  store_ok s → del_stands (table s) (Await q k) →
  del_stands (table (execute q s).2) (k (execute q s).1) ∧
  others_kept (table s) (table (execute q s).2) ∧
  (table (execute q s).2 !! i = table s !! i ∨ table (execute q s).2 !! i = None).
Proof.
  intros Hok Hst. unfold others_kept. inversion Hst as [[f Hrow]|[f Hrow]|]; subst.
  - destruct (check_settled s _ _ _ _ Hok Hdel) as [-> ->].
    rewrite Hrow. split_and!; [constructor; by eauto|done|by left].
  - destruct (delete_settled s (VStr txt) i Hok Hi) as (s1 & E1 & Ht1 & _).
    unfold delete_of. rewrite E1. cbn [fst snd]. rewrite Ht1, (cta_acted _ _ _ _ Hdel).
    split_and!; [constructor| |right]; rewrite ?lookup_delete_eq, ?delete_delete_eq; done.
Qed.

(** ** Two deletes *)

(** The pool of two deletes of the row [i]: once the row is gone, one of
    them has answered 204. *)
Record racing2 (T0 : gmap Z flavor) (p : pool St) : Prop := Racing2 {
  racing2_ok : store_ok (pool_store p);
  racing2_others : others_kept T0 (table (pool_store p));
  racing2_tasks :
    ∃ t1 t2, pool_tasks p = [t1; t2] ∧
             del2_stands (table (pool_store p)) t1 ∧ del2_stands (table (pool_store p)) t2 ∧
             (table (pool_store p) !! i = None →
              Ret (answered no_content []) ∈ [t1; t2])
}.

Lemma racing2_step T0 p p' : racing2 T0 p → step p p' → racing2 T0 p'.
Proof.
  intros [Hok Hoth (t1 & t2 & Hts & H1 & H2 & H204)] Hstep. revert Hok Hoth Hts H1 H2 H204.
  destruct Hstep as [j q k p Hj]. intros Hok Hoth Hts H1 H2 H204.
  rewrite (resume_await _ _ _ _ Hj). rewrite Hts in Hj |- *.
  destruct j as [|[|j]]; simplify_eq/=.
  - destruct (del2_resumed _ _ _ Hok H1) as (H1' & Hg & Ho & Hrow).
    split; cbn; [by apply execute_ok|unfold others_kept in *; congruence|].
    eexists _, _. split_and!; [done|done|by eapply del2_stands_frame|].
    rewrite !elem_of_cons in *. destruct Hrow as [->|[_ ->]]; [|by left].
    intros [?|?]%H204; [done|by right].
  - destruct (del2_resumed _ _ _ Hok H2) as (H2' & Hg & Ho & Hrow).
    split; cbn; [by apply execute_ok|unfold others_kept in *; congruence|].
    eexists _, _. split_and!; [done|by eapply del2_stands_frame|done|].
    rewrite !elem_of_cons in *. destruct Hrow as [->|[_ ->]]; [|by right; left].
    intros [?|[?|?]]%H204; [by left|done|by right; right].
Qed.

Lemma racing2_steps T0 p p' : racing2 T0 p → rtc step p p' → racing2 T0 p'.
Proof. intros Hp Hsteps. induction Hsteps; eauto using racing2_step. Qed.

(** When neither awaits, the row is gone, each delete has answered 204
    or 404, and one of them 204. *)
Lemma racing2_end T0 p :
  racing2 T0 p → quiescent p →
  table (pool_store p) = delete i T0 ∧
  ∃ r1 r2, results p = [Some (answered r1 []); Some (answered r2 [])] ∧
           r1 ∈ [no_content; not_found_response] ∧ r2 ∈ [no_content; not_found_response] ∧
           (r1 = no_content ∨ r2 = no_content).
Proof.
  intros [_ Hoth (t1 & t2 & Hts & H1 & H2 & H204)] Hq. unfold quiescent, results in *.
  rewrite Hts in Hq |- *. apply Forall_cons in Hq as [[? Hf1] [[? Hf2] _]%Forall_cons].
  assert (table (pool_store p) !! i = None) as Hrow by (inversion H1; by simplify_eq/=).
  split; [rewrite <-Hoth; symmetry; by apply delete_id|].
  apply H204 in Hrow. rewrite !elem_of_cons, elem_of_nil in Hrow.
  inversion H1; inversion H2; simplify_eq/=; eexists _, _; (split; [done|]);
    rewrite !elem_of_cons; destruct Hrow as [?|[?|[]]]; by auto.
Qed.

End deletes.

(** ** The update and the delete *)

Section update.
Context (name : string) (fav : bool) (f0 : flavor).
Context (kp1 kp2 kd1 kd2 : reply → task).
Context (Hput : check_then_act (update_of txt name fav) updated kp1 kp2).
Context (Hdel : check_then_act (delete_of txt) (λ _, no_content) kd1 kd2).

#[local] Abbreviation put_stands := (put_stands txt name fav i f0 kp1 kp2).
#[local] Abbreviation del_stands := (del_stands txt i kd1 kd2).

(** The update stays where it stands when the delete steps. *)
Lemma put_stands_frame T T' t :
  put_stands T t → T' !! i = T !! i ∨ T' !! i = None → put_stands T' t.
Proof. destruct 1; intros [Heq|Heq]; constructor; rewrite ?Heq; auto. Qed.

(** The update resumed: past its check, or ended. It keeps the row, and
    leaves the other rows as they were. *)
Lemma put_resumed s q k :
  store_ok s → put_stands (table s) (Await q k) →
  put_stands (table (execute q s).2) (k (execute q s).1) ∧
  row_kept (table s) (table (execute q s).2) ∧ row_gone (table s) (table (execute q s).2) ∧
  others_kept (table s) (table (execute q s).2).
Proof.
  intros Hok Hst. unfold row_kept, row_gone, others_kept.
  inversion Hst as [Hrow|Hrow| | |]; subst.
  - destruct (check_settled s _ _ _ _ Hok Hput) as [-> ->].
    split_and!; [|done..]. destruct Hrow as [Hrow|Hrow]; rewrite Hrow; constructor; auto.
  - destruct Hrow as [Hrow|Hrow].
    + destruct (update_settled s (VStr txt) i name fav f0 Hok Hi Hrow)
        as (ts & s1 & Hts & E1 & Ht1 & _).
      unfold update_of. rewrite E1. cbn [fst snd]. rewrite Ht1, (cta_acted _ _ _ _ Hput).
      split_and!; [by constructor|by rewrite lookup_insert_eq|by rewrite Hrow|].
      apply delete_insert_eq.
    + destruct (update_missing_settled s (VStr txt) i name fav Hok Hi Hrow) as (s1 & E1 & Ht1 & _).
      unfold update_of. rewrite E1. cbn [fst snd]. rewrite Ht1, (cta_acted _ _ _ _ Hput).
      split_and!; [by constructor|done..].
Qed.

(** The pool of an update and a delete of the row [i], which held [f0]
    in the table [T0] at the start. *)
Record racing (T0 : gmap Z flavor) (p : pool St) : Prop := Racing {
  racing_ok : store_ok (pool_store p);
  racing_others : others_kept T0 (table (pool_store p));
  racing_tasks :
    ∃ tp td, pool_tasks p = [tp; td] ∧
             put_stands (table (pool_store p)) tp ∧ del_stands (table (pool_store p)) td
}.

Lemma racing_step T0 p p' : racing T0 p → step p p' → racing T0 p'.
Proof.
  intros [Hok Hoth (tp & td & Hts & Hp & Hd)] Hstep. revert Hok Hoth Hts Hp Hd.
  destruct Hstep as [j q k p Hj]. intros Hok Hoth Hts Hp Hd.
  rewrite (resume_await _ _ _ _ Hj). rewrite Hts in Hj |- *.
  destruct j as [|[|j]]; simplify_eq/=.
  - destruct (put_resumed _ _ _ Hok Hp) as (Hp' & Hk & Hg & Ho).
    split; cbn; [by apply execute_ok|unfold others_kept in *; congruence|].
    eexists _, _. split_and!; [done|done|]. by eapply del_stands_frame.
  - destruct (del_resumed kd1 kd2 Hdel _ _ _ Hok Hd) as (Hd' & Ho & Hrow).
    split; cbn; [by apply execute_ok|unfold others_kept in *; congruence|].
    eexists _, _. split_and!; [done| |done]. by eapply put_stands_frame.
Qed.

Lemma racing_steps T0 p p' : racing T0 p → rtc step p p' → racing T0 p'.
Proof. intros Hp Hsteps. induction Hsteps; eauto using racing_step. Qed.

(** When neither awaits, the delete has answered 204, the row is gone,
    and the update has answered in one of three ways. *)
Lemma racing_end T0 p :
  racing T0 p → quiescent p →
  table (pool_store p) = delete i T0 ∧
  ∃ rp, results p = [Some (answered rp []); Some (answered no_content [])] ∧
        ((∃ ts, newer f0 ts ∧
                rp = ok_json (row_of (Flavor i (Some name) (Some fav) (Some ts)))) ∨
         rp = not_found_response ∨ rp = ok_json VUndefined).
Proof.
  intros [_ Hoth (tp & td & Hts & Hp & Hd)] Hq. unfold quiescent, results in *.
  rewrite Hts in Hq |- *. apply Forall_cons in Hq as [[? Hfp] [[? Hfd] _]%Forall_cons].
  destruct Hd as [| |Hrow]; simplify_eq/=. split.
  - rewrite <-Hoth. symmetry. by apply delete_id.
  - destruct Hp; simplify_eq/=; eexists; (split; [done|]); eauto.
Qed.

End update.

End resumed.

(** ** The races *)

Section races.
Context {St : Type} `{FlavorStore St}.
Implicit Types (p : pool St) (s : St) (i : Z) (txt name : string) (fav : bool).

(** The schedule that settles the delete between the update's check and
    its statement. *)
Lemma put_delete_lost s txt i name fav f0 :
  store_ok s → read_id St (VStr txt) = Some i → table s !! i = Some f0 →
  results (interleave [0; 1; 1; 0]%nat (put_and_delete txt name fav s))
    = [Some (answered (ok_json VUndefined) []); Some (answered no_content [])].
Proof.
  intros Hok Hi Hf.
  destruct (select_by_id_settled s (VStr txt) i Hok Hi) as (s1 & E1 & Ht1 & Hok1).
  destruct (select_by_id_settled s1 (VStr txt) i Hok1 Hi) as (s2 & E2 & Ht2 & Hok2).
  destruct (delete_settled s2 (VStr txt) i Hok2 Hi) as (s3 & E3 & Ht3 & Hok3).
  destruct (update_missing_settled s3 (VStr txt) i name fav Hok3 Hi) as (s4 & E4 & Ht4 & _);
    [by rewrite Ht3, lookup_delete_eq|].
  rewrite Hf in E1. rewrite Ht1, Hf in E2. unfold put_and_delete. by pool_settled.
Qed.

(** The schedule that settles both checks before either delete. *)
Lemma delete_delete_both s txt i f0 :
  store_ok s → read_id St (VStr txt) = Some i → table s !! i = Some f0 →
  results (interleave [0; 1; 0; 1]%nat (two_deletes txt s))
    = [Some (answered no_content []); Some (answered no_content [])].
Proof.
  intros Hok Hi Hf.
  destruct (select_by_id_settled s (VStr txt) i Hok Hi) as (s1 & E1 & Ht1 & Hok1).
  destruct (select_by_id_settled s1 (VStr txt) i Hok1 Hi) as (s2 & E2 & Ht2 & Hok2).
  destruct (delete_settled s2 (VStr txt) i Hok2 Hi) as (s3 & E3 & Ht3 & Hok3).
  destruct (delete_settled s3 (VStr txt) i Hok3 Hi) as (s4 & E4 & Ht4 & _).
  rewrite Hf in E1. rewrite Ht1, Hf in E2. unfold two_deletes. by pool_settled.
Qed.

(** C19: an update and a delete of the same row in flight together,
    whatever the order in which the store settles their queries. When
    both have ended the row is gone and the delete has answered 204; the
    update has answered 200 with the new row, 404, or 200 with
    [undefined] for its body. The last is what the schedule that settles
    the delete between the update's check and its statement gives, and no
    order of the two requests explains it: the machine of [Crud] never
    answers an update that way, from any table. *)
Theorem put_delete_race s txt i name fav f0 :
  store_ok s → read_id St (VStr txt) = Some i → table s !! i = Some f0 →
  (∀ p, rtc step (put_and_delete txt name fav s) p → quiescent p →
     table (pool_store p) = delete i (table s) ∧
     ∃ rp, results p = [Some (answered rp []); Some (answered no_content [])] ∧
           ((∃ ts, newer f0 ts ∧
                   rp = ok_json (row_of (Flavor i (Some name) (Some fav) (Some ts)))) ∨
            rp = not_found_response ∨ rp = ok_json VUndefined)) ∧
  results (interleave [0; 1; 1; 0]%nat (put_and_delete txt name fav s))
    = [Some (answered (ok_json VUndefined) []); Some (answered no_content [])] ∧
  ∀ t t', ¬ crud (ident_of St) t (OpUpdate txt name fav) (ok_json VUndefined) t'.
Proof.
  intros Hok Hi Hf. split_and!; [|by eapply put_delete_lost|by inversion 1].
  destruct (put_task txt name fav) as (kp1 & kp2 & Hp0 & Hput).
  destruct (delete_task txt) as (kd1 & kd2 & Hd0 & Hdel).
  intros p Hsteps Hq.
  eapply racing_end; [eassumption..| |exact Hq].
  eapply racing_steps; [eassumption..| |exact Hsteps].
  split; cbn; [done|done|]. rewrite Hp0, Hd0. eexists _, _. split; [done|].
  split; constructor; eauto.
Qed.

(** C20: two deletes of the same row in flight together, whatever the
    order in which the store settles their queries. When both have ended
    the row is gone, each has answered 204 or 404, and one of them 204.
    Both answer 204 when both checks are settled before either delete,
    though the row was deleted once, and no order of the two requests
    explains it: in a run of the machine of [Crud], from any table, the
    second delete of a row is not answered 204. *)
Theorem delete_delete_race s txt i f0 :
  store_ok s → read_id St (VStr txt) = Some i → table s !! i = Some f0 →
  (∀ p, rtc step (two_deletes txt s) p → quiescent p →
     table (pool_store p) = delete i (table s) ∧
     ∃ r1 r2, results p = [Some (answered r1 []); Some (answered r2 [])] ∧
              r1 ∈ [no_content; not_found_response] ∧
              r2 ∈ [no_content; not_found_response] ∧
              (r1 = no_content ∨ r2 = no_content)) ∧
  results (interleave [0; 1; 0; 1]%nat (two_deletes txt s))
    = [Some (answered no_content []); Some (answered no_content [])] ∧
  ∀ t t', ¬ crud_run (ident_of St) t [OpDelete txt; OpDelete txt] [no_content; no_content] t'.
Proof.
  intros Hok Hi Hf.
  split_and!; [|by eapply delete_delete_both|by intros t t' Hrun%crud_run_delete_twice].
  destruct (delete_task txt) as (kd1 & kd2 & Hd0 & Hdel).
  intros p Hsteps Hq.
  eapply racing2_end; [eassumption..| |exact Hq].
  eapply racing2_steps; [eassumption..| |exact Hsteps].
  split; cbn; [done|done|]. rewrite Hd0. eexists _, _. split; [done|].
  split_and!; [constructor..|]. by rewrite Hf.
Qed.

End races.
