(* ===== verification/Accepted.v ===== *)
(** * What every interleaving refines

    Section 5 of the specification accepts the race of the update and
    the delete handlers: the row may be deleted between the check and
    the act, the act then affects no row, and the handler still reports
    success. [racy] is the machine of [Crud] with those two outcomes
    added: on an id the table does not hold, an update may answer 200
    with no flavor and a delete 204, the table being left as it is.

    The handlers of server.js meet the interface of [Linearize] for that
    machine with nothing to guard ([racy_handlers]): past its check a
    request ends at its next query whether its row is there or not. So
    the invariant of [Linearize] holds of every pool, and every
    interleaving of any requests is a run of [racy]
    ([interleaving_refines_racy]).

    A step of [racy] leaves the table a step of the machine of [Crud]
    leaves; only the response differs, and in one way: success is told
    where the machine answers 404 ([told], [racy_told]). So a race never
    harms the store: the table is always what the requests that have
    ended leave when served one after the other
    ([races_misreport_only]). [Races] shows that both added outcomes are
    reached. *)

From S2P Require Import Prelude Js Async Express Handlers Routes Store Service Crud Interleave.
From S2P Require Import Linearize.

#[local] Open Scope string_scope.
#[local] Open Scope Z_scope.

(** ** The machine with the accepted races *)

Section machine.
Context (ident : string → option Z).
Implicit Types (t : gmap Z flavor) (o : op) (r : response).

(** One operation, the act of which may come after its row is gone:
    a step of the machine of [Crud]; an update that finds no row to
    rewrite after its check (line 92 of server.js: [rows[0]] of no
    rows); or a delete that finds no row to remove after its check
    (line 118). *)
Inductive racy : gmap Z flavor → op → response → gmap Z flavor → Prop :=
| racy_strict t o r t' : crud ident t o r t' → racy t o r t'
| racy_update_lost t txt name fav i :
    locate ident txt t = Missing i →
    racy t (OpUpdate txt name fav) (ok_json VUndefined) t
| racy_delete_gone t txt i :
    locate ident txt t = Missing i →
    racy t (OpDelete txt) no_content t.

End machine.

(** What a request was told, against what the machine of [Crud]
    answers: the same, or success where the machine answers 404. *)
Inductive told : response → response → Prop :=
| told_same r : told r r
| told_update_lost : told (ok_json VUndefined) not_found_response
| told_delete_gone : told no_content not_found_response.

(** Past its check a request relies on nothing. *)
Definition unguarded : guard := λ _ _, True.

(** ** A sample: an update and two deletes of the same row *)

Definition racing_ops : list op :=
  [OpUpdate "1" "Vanilla Bean" false; OpDelete "1"; OpDelete "1"].

(** ** The machine against the machine of the five operations *)

Section machine_facts.
Context (ident : string → option Z).
Implicit Types (t : gmap Z flavor) (o : op) (r : response).

(** A step with an accepted race leaves the table a step without
    leaves, and tells the request what that step answers or success in
    place of its 404. *)
Lemma racy_told t o r t' :
  racy ident t o r t' → ∃ r', crud ident t o r' t' ∧ told r r'.
Proof.
  destruct 1 as [t o r t' Hstep|t txt name fav i Hl|t txt i Hl].
  - exists r. split; [done|constructor].
  - exists not_found_response. split; [by eapply crud_missing|constructor].
  - exists not_found_response. split; [by eapply crud_missing|constructor].
Qed.

Lemma racy_run_told t os rs t' :
  lts_run (racy ident) t os rs t' →
  ∃ rs', crud_run ident t os rs' t' ∧ Forall2 told rs rs'.
Proof.
  induction 1 as [t|t o r t1 os rs t' Hstep _ (rs' & Hrun & Hrs)].
  - exists []. split; constructor.
  - destruct (racy_told _ _ _ _ Hstep) as (r' & Hstep' & Hr).
    exists (r' :: rs'). split; [by econstructor|by constructor].
Qed.

End machine_facts.

(** ** The handlers of server.js *)

Section source.
Context {St : Type} `{FlavorStore St}.
Implicit Types (s : St) (o : op) (os : list op) (p : pool St).

#[local] Abbreviation ends_racy := (ends_task (racy (ident_of St))).

(** The first query of a request ends it or passes its check, as in
    [Linearize]. *)
Lemma racy_started o s :
  store_ok s →
  ∃ q k, start (handler_for o) = Await q k ∧
         (ends_racy s q k o ∨ passes_check unguarded writes s q o).
Proof.
  intros Hok. destruct (source_started o s Hok) as (q & k & Hs & [Hend|Hchk]).
  - exists q, k. split; [done|left]. eapply ends_task_mono; [|exact Hend]. by constructor.
  - exists q, k. split; [done|right]. by eapply passes_check_mono; [|exact Hchk].
Qed.

(** Past its check, an update or a delete ends at its next query whether
    its row is there or not: with the step of the machine of [Crud], or
    with success told over no row. *)
Lemma racy_checked o s txt i row rows :
  store_ok s → writes o = Some txt → ident_of St txt = Some i → unguarded (table s) i →
  ∃ q k, feed (start (handler_for o)) [Resolved (row :: rows)] = Await q k ∧
         ends_racy s q k o.
Proof.
  intros Hok Hw Hi _. destruct (table s !! i) as [f0|] eqn:Hf.
  - destruct (source_checked o s txt i row rows Hok Hw Hi) as (q & k & Hs & Hend);
      [by rewrite Hf|].
    exists q, k. split; [done|]. eapply ends_task_mono; [|exact Hend]. by constructor.
  - assert (locate (ident_of St) txt (table s) = Missing i) as Hloc
      by (unfold locate; by rewrite Hi, Hf).
    unfold ident_of in Hi. destruct o as [| | |txt' name fav|txt']; simplify_eq/=.
    + destruct (update_missing_settled s (VStr txt) i name fav Hok Hi Hf) as (s1 & E1 & Ht1 & _).
      eexists _, _. split; [start_eval; reflexivity|]. unfold ends_task. rewrite E1. cbn.
      eexists _, _. split; [reflexivity|]. rewrite Ht1. by eapply racy_update_lost.
    + destruct (delete_settled s (VStr txt) i Hok Hi) as (s1 & E1 & Ht1 & _).
      eexists _, _. split; [start_eval; reflexivity|]. unfold ends_task. rewrite E1. cbn.
      eexists _, _. split; [reflexivity|]. rewrite Ht1, delete_id by done.
      by eapply racy_delete_gone.
Qed.

(** The handlers of server.js implement the machine with the accepted
    races, with nothing to guard. *)
Definition racy_handlers : OpHandlers St (racy (ident_of St)) unguarded := {|
  impl := handler_for;
  checks := writes;
  started_step := racy_started;
  checked_step := racy_checked
|}.

(** Whatever the requests in flight, their history is a run of the
    machine with the accepted races. *)
Lemma racy_linearizable os s p :
  store_ok s → rtc step (spawn (handler_for <$> os) s) p →
  ∃ h, NoDup h.*1 ∧ h.*1 = ended p ∧
       lts_run (racy (ident_of St)) (table s) (hist_ops os h) h.*2 (table (pool_store p)) ∧
       (∀ k r, (k, r) ∈ h ↔ ∃ log, results p !! k = Some (Some (answered r log))) ∧
       (quiescent p → hist_ops os h ≡ₚ os).
Proof. intros Hok. by apply (linearizable racy_handlers). Qed.

(** C16: every interleaving of any requests of the REST interface is a
    run of the machine with the accepted races. Over a store that keeps
    the contract, whatever operations are in flight together, conflicting
    updates and deletes included, and however the runtime interleaves
    them: the requests that have ended, in the order in which they
    ended and with the responses they gave, are a run of [racy] from
    the table at the start to the table now, and when no request awaits
    they are all the requests. The check-then-act race does what
    section 5 of the specification accepts and nothing else. *)
Theorem interleaving_refines_racy os s p :
  store_ok s → rtc step (spawn (handler_for <$> os) s) p →
  ∃ h, NoDup h.*1 ∧ h.*1 = ended p ∧
       lts_run (racy (ident_of St)) (table s) (hist_ops os h) h.*2 (table (pool_store p)) ∧
       (∀ k r, (k, r) ∈ h ↔ ∃ log, results p !! k = Some (Some (answered r log))) ∧
       (quiescent p → hist_ops os h ≡ₚ os).
Proof. exact (racy_linearizable os s p). Qed.

(** C17: a race never harms the store, it only misreports. Whatever
    operations are in flight together and however the runtime
    interleaves them, the table is the one the requests that have ended
    leave when served one after the other, in the order in which they
    ended, by the machine of the five operations; and each of them was
    told what the machine answers there, or success (200 with no
    flavor, 204) where the machine answers 404. *)
Theorem races_misreport_only os s p :
  store_ok s → rtc step (spawn (handler_for <$> os) s) p →
  ∃ h rs, NoDup h.*1 ∧ h.*1 = ended p ∧
          crud_run (ident_of St) (table s) (hist_ops os h) rs (table (pool_store p)) ∧
          Forall2 told h.*2 rs ∧
          (∀ k r, (k, r) ∈ h ↔ ∃ log, results p !! k = Some (Some (answered r log))) ∧
          (quiescent p → hist_ops os h ≡ₚ os).
Proof.
  intros Hok Hsteps.
  destruct (racy_linearizable os s p Hok Hsteps) as (h & Hnd & Hord & Hrun & Hres & Hall).
  destruct (racy_run_told _ _ _ _ _ Hrun) as (rs & Hrun' & Hrs). by exists h, rs.
Qed.

End source.
