(* ===== verification/Overlap.v ===== *)
(** * Atomic unless a delete overlaps a write of its row

    [Linearize] asks that no delete be in flight with another update or
    delete of its row, which is a condition on the requests. Requests in
    one pool need not overlap in time, though: a request that is resumed
    only after another has ended comes after it. This file gives the
    condition on the run: a step is calm ([calm_at]) unless it settles
    the delete statement of a row (line 115 of server.js) while another
    request is between its check and its statement on that row (lines
    79 to 86, 107 to 115).

    Along calm steps the invariant of [Linearize] is kept with the
    machine of [Crud] and the guard that the row is there, so the
    requests are atomic ([overlap_free_linearizable]). The pools of
    [Linearize] take only calm steps ([conflict_free_calm]), and so
    does the schedule that runs each request to its end before the next
    ([serial_calm]); [calm_schedule] decides it for any schedule. The
    condition is tight:
    after a step that is not calm, the request that was between its
    check and its statement reports success over a row that is gone
    ([overlap_misreports]). *)

From S2P Require Import Prelude Js Async Express Handlers Routes Store Service Crud Interleave.
From S2P Require Import Linearize Races Accepted.

#[local] Open Scope Z_scope.

(** ** Tasks about to act *)

(** The segment of the row a task is about to delete: it awaits the
    delete statement. *)
Definition deleting (t : task) : option string :=
  match t with
  | Await (Query sql [VStr txt]) _ => if decide (sql = sql_delete) then Some txt else None
  | _ => None
  end.

(** The segment of the row a task is about to write, past its check: it
    awaits the update or the delete statement. *)
Definition acting (t : task) : option string :=
  match t with
  | Await (Query sql [_; _; VStr txt]) _ =>
      if decide (sql = sql_update) then Some txt else None
  | _ => deleting t
  end.

(** Resuming task [j] among the tasks [ts] overlaps nothing: if it is
    about to delete a row, no other task is about to write that row. *)
Definition calm_at (ident : string → option Z) (ts : list task) (j : nat) : Prop :=
  match (ts !! j ≫= deleting) ≫= ident with
  | Some i =>
      Forall (λ kt : nat * task, kt.1 = j ∨ acting kt.2 ≫= ident ≠ Some i) (imap pair ts)
  | None => True
  end.

#[export] Instance calm_at_dec ident ts j : Decision (calm_at ident ts j).
Proof. unfold calm_at. destruct (_ ≫= _); apply _. Defined.

Section calm.
Context {St : Type} `{FlavorStore St}.

(** One calm step of a pool. *)
Inductive calm_step : relation (pool St) :=
| calm_resume j q k p :
    pool_tasks p !! j = Some (Await q k) →
    calm_at (ident_of St) (pool_tasks p) j →
    calm_step p (resume j p).

(** A schedule all of whose resumptions are calm. *)
Fixpoint calm_schedule (sched : list nat) (p : pool St) : bool :=
  match sched with
  | [] => true
  | j :: sched =>
      bool_decide (calm_at (ident_of St) (pool_tasks p) j) && calm_schedule sched (resume j p)
  end.

End calm.

(** The statement of an operation that checks and then acts: the
    update of lines 86 to 89 for PUT, the delete of line 115 for
    DELETE. The other three operations have none. *)
Definition act_of (o : op) : option query :=
  match o with
  | OpUpdate txt name fav => Some (update_of txt name fav)
  | OpDelete txt => Some (delete_of txt)
  | OpList | OpGet _ | OpCreate _ _ => None
  end.

(** What the handler answers when that statement finds no row:
    [res.json(rows[0])] of no rows for the update (line 92 of
    server.js), [res.status(204).send()] for the delete (line 118). It
    is read only at updates and deletes. *)
Definition told_gone (o : op) : response :=
  match o with
  | OpUpdate _ _ _ => updated []
  | OpList | OpGet _ | OpCreate _ _ | OpDelete _ => no_content
  end.

(** ** A sample: a delete served to its end, then an update of its row *)

Definition successive_ops : list op :=
  [OpDelete "1"; OpUpdate "1" "Vanilla Bean" false; OpGet "1"]%string.

(** ** What the tasks of the handlers await *)

Lemma deleting_acting t txt : deleting t = Some txt → acting t = Some txt.
Proof.
  unfold acting, deleting. intros Hd. by repeat case_match; simplify_eq.
Qed.

Lemma calm_at_lookup ident ts j tj txt i k tk txt' :
  calm_at ident ts j → ts !! j = Some tj → deleting tj = Some txt → ident txt = Some i →
  ts !! k = Some tk → k ≠ j → acting tk = Some txt' → ident txt' ≠ Some i.
Proof.
  unfold calm_at. intros Hcalm Hj Hdel Hi Hk Hne Hact. rewrite Hj in Hcalm. cbn in Hcalm.
  rewrite Hdel in Hcalm. cbn in Hcalm. rewrite Hi in Hcalm.
  rewrite Forall_lookup in Hcalm. destruct (Hcalm k (k, tk)) as [?|Hn]; [|done|].
  - by rewrite list_lookup_imap, Hk.
  - cbn in Hn. by rewrite Hact in Hn.
Qed.

(** A handler awaits its statement only past its check: the update
    handler the update of its segment, the delete handler the delete. *)
Lemma checked_acts o txt row rows :
  writes o = Some txt →
  acting (feed (start (handler_for o)) [Resolved (row :: rows)]) = Some txt ∧
  deleting (feed (start (handler_for o)) [Resolved (row :: rows)]) = deletes o.
Proof. destruct o; intros [= ->]; start_eval; done. Qed.

Lemma started_waits o : acting (start (handler_for o)) = None.
Proof. destruct o; start_eval; done. Qed.

(** Past its check a handler awaits its statement, and answers
    [told_gone] when the statement resolves to no row. *)
Lemma checked_task o txt row rows :
  writes o = Some txt →
  ∃ act k2, act_of o = Some act ∧
            feed (start (handler_for o)) [Resolved (row :: rows)] = Await act k2 ∧
            k2 (Resolved []) = Ret (answered (told_gone o) []).
Proof. destruct o; intros [= ->]; eexists _, _; (split; [done|]); start_eval; done. Qed.

Lemma calm_at_spec ident ts j :
  calm_at ident ts j ↔
  ∀ tj txt i k tk txt',
    ts !! j = Some tj → deleting tj = Some txt → ident txt = Some i →
    ts !! k = Some tk → k ≠ j → acting tk = Some txt' → ident txt' ≠ Some i.
Proof.
  split; [intros; by eapply calm_at_lookup|]. intros Hall. unfold calm_at.
  destruct (ts !! j) as [tj|] eqn:Hj; [|done]. cbn.
  destruct (deleting tj) as [txt|] eqn:Hd; [|done]. cbn.
  destruct (ident txt) as [i|] eqn:Hi; [|done].
  apply Forall_lookup. intros k kt. rewrite list_lookup_imap.
  destruct (ts !! k) as [tk|] eqn:Hk; intros [= <-]. cbn.
  destruct (decide (k = j)) as [|Hne]; [by left|right].
  destruct (acting tk) as [txt'|] eqn:Ha; [|done]. by eapply Hall.
Qed.

(** ** Calm steps keep the rows that were checked *)

Section atomic.
Context {St : Type} `{FlavorStore St}.
Implicit Types (s : St) (p : pool St) (o : op) (os : list op) (i : Z).

(** A schedule that is calm is a sequence of calm steps. *)
Lemma calm_schedule_steps sched p :
  calm_schedule sched p = true → rtc calm_step p (interleave sched p).
Proof.
  revert p. induction sched as [|j sched IH]; intros p; [done|]. cbn.
  intros [Hc%bool_decide_eq_true Hrest]%andb_prop.
  destruct (pool_tasks p !! j) as [[a|q k]|] eqn:Hj.
  - rewrite (resume_finished _ _ _ Hj) in Hrest |- *. by apply IH.
  - eapply rtc_l; [by econstructor|by apply IH].
  - unfold resume in Hrest |- *. rewrite Hj in Hrest |- *. by apply IH.
Qed.

(** A step is calm when no other task is about to write. *)
Lemma calm_alone ts j :
  (∀ k tk, ts !! k = Some tk → k ≠ j → acting tk = None) → calm_at (ident_of St) ts j.
Proof.
  intros Hidle. apply calm_at_spec. intros tj txt i k tk txt' _ _ _ Hk Hne Ha.
  by rewrite (Hidle k tk) in Ha.
Qed.

(** The schedule that runs each request to its end before the next is
    calm: while a request runs, the others have ended or not begun. *)
Lemma serial_calm_from (ended : list task) os s log :
  Forall (λ t, acting t = None) ended →
  calm_schedule (i ← seq (length ended) (length os); [i; i])
    (Pool s (ended ++ (start <$> (handler_for <$> os))) log) = true.
Proof.
  revert ended s log. induction os as [|o os IH]; intros ended s log Hended; [done|].
  cbn [length seq mbind list_bind fmap list_fmap app calm_schedule].
  set (p := Pool s (ended ++ start (handler_for o) :: (start <$> (handler_for <$> os))) log).
  assert (∀ p', (∀ k, k ≠ length ended → pool_tasks p' !! k = pool_tasks p !! k) →
                calm_at (ident_of St) (pool_tasks p') (length ended)) as Hidle.
  { intros p' Hsame. apply calm_alone. intros k tk Hk Hne. rewrite Hsame in Hk by done.
    apply lookup_app_Some in Hk as [Hk|[Hlen Hk]];
      [exact (Forall_lookup_1 _ _ _ _ Hended Hk)|].
    rewrite lookup_cons_ne_0 in Hk by lia.
    apply list_elem_of_lookup_2, list_elem_of_fmap in Hk
      as (m & -> & (o' & -> & _)%list_elem_of_fmap).
    apply started_waits. }
  rewrite !bool_decide_eq_true_2; [|by apply Hidle; intros; apply resume_other|by apply Hidle].
  cbn [andb].
  destruct (resume_exec 2 (length ended) (start (handler_for o)) p) as [Ht Hs];
    [apply (handler_awaits_twice (endpoint_of o))|by apply list_lookup_middle|].
  cbn [replicate interleave foldl] in Ht, Hs.
  destruct (resume _ (resume _ p)) as [s1 ts1 log1]. cbn in Ht, Hs. subst s1 ts1.
  rewrite insert_app_r_alt, Nat.sub_diag by lia. cbn [insert list_insert].
  rewrite (cons_middle _ ended), app_assoc.
  specialize (IH (ended ++ [Ret (out_value (exec (start (handler_for o)) s))])
                (out_store (exec (start (handler_for o)) s)) log1).
  rewrite length_app, Nat.add_1_r in IH. apply IH.
  apply Forall_app. split; [done|]. by constructor.
Qed.

Lemma serial_calm os s :
  calm_schedule (serial (length os)) (spawn (handler_for <$> os) s) = true.
Proof. by apply (serial_calm_from [] os s []). Qed.

(** The first query of a handler removes no row. *)
Lemma started_keeps s o q k i :
  store_ok s → start (handler_for o) = Await q k →
  present (table s) i → present (table (execute q s).2) i.
Proof.
  intros Hok Hs Hin. destruct (deletes o) as [txt|] eqn:Hd.
  - destruct o; simplify_eq/=.
    destruct (item_start (OpDelete txt) txt eq_refl) as (k' & Hs' & _).
    rewrite Hs' in Hs. simplify_eq.
    destruct (select_located s txt Hok) as (rp & s1 & E1 & Ht1 & _).
    rewrite E1. cbn. by rewrite Ht1.
  - destruct (source_started o s Hok) as (q' & k' & Hs' & [(r & log & _ & Hstep)|Hchk]);
      rewrite Hs' in Hs; simplify_eq.
    + eapply crud_keeps; [exact Hstep|exact Hin|]. intros txt. by rewrite Hd.
    + destruct Hchk as (? & ? & ? & ? & _ & _ & _ & -> & _). done.
Qed.

(** What a task of the invariant is about to write, its operation
    writes. *)
Lemma stage_acting T o t resp txt :
  stage (source_handlers (St:=St)) T o t resp → acting t = Some txt →
  writes o = Some txt ∧ (deleting t = Some txt → deletes o = Some txt).
Proof.
  destruct 1 as [|txt' i row rows Hw _ _|]; cbn [impl source_handlers]; [| |done].
  - by rewrite started_waits.
  - destruct (checked_acts o txt' row rows Hw) as [-> <-]. by intros [= ->].
Qed.

(** A calm step breaks no guard: the one statement that removes a row
    is the delete, and no task past its check relies on the row it
    removes. *)
Lemma calm_keeps s0 os p h j :
  lin source_handlers s0 os p h → calm_at (ident_of St) (pool_tasks p) j →
  keeps_guards_at source_handlers os p j.
Proof.
  intros Hlin Hcalm q kj k ok txt i row rows Hj Hne Hok Hk Hw Hi Hin.
  pose proof (lin_ok _ _ _ _ _ Hlin) as Hs.
  destruct (lin_tasks _ _ _ _ _ Hlin _ _ Hj) as (oj & Hoj & Hst).
  remember (Await q kj) as tj eqn:Htj.
  destruct Hst as [|txtj ij rowj rowsj Hwj Hij Hinj|]; [by eapply started_keeps| |done].
  destruct (source_checked oj _ txtj ij rowj rowsj Hs Hwj Hij Hinj)
    as (q' & k' & Hs' & r & log & _ & Hstep).
  destruct (checked_acts oj txtj rowj rowsj Hwj) as [_ Hdj].
  destruct (checked_acts ok txt row rows Hw) as [Hak _].
  cbn [impl source_handlers] in Htj. rewrite Hs' in Htj. simplify_eq.
  eapply crud_keeps; [exact Hstep|exact Hin|]. intros txt' Hdel Hi'. rewrite Hdel in Hdj.
  exact (calm_at_lookup _ _ j _ txt' i k _ txt Hcalm Hj Hdj Hi' Hk Hne Hak Hi).
Qed.

(** Along calm steps the invariant of [Linearize] holds. *)
Lemma calm_lin os s p :
  store_ok s → rtc calm_step (spawn (handler_for <$> os) s) p →
  ∃ h, lin source_handlers s os p h.
Proof.
  intros Hok. apply (lin_along source_handlers); [|done].
  intros p1 p2 h Hlin Hstep. revert Hlin. destruct Hstep as [j q k p1 Hj Hcalm]. intros Hlin.
  exists j, q, k. split_and!; [done..|]. by eapply calm_keeps.
Qed.

(** Where no delete is in flight with another write of its row, every
    step is calm. *)
Lemma conflict_free_calm s0 os p h j :
  conflict_free (ident_of St) writes os → lin source_handlers s0 os p h →
  calm_at (ident_of St) (pool_tasks p) j.
Proof.
  intros Hcf Hlin. apply calm_at_spec. intros tj txt i k tk txt' Hj Hd Hi Hk Hne Ha Hi'.
  destruct (lin_tasks _ _ _ _ _ Hlin _ _ Hj) as (oj & Hoj & Hstj).
  destruct (lin_tasks _ _ _ _ _ Hlin _ _ Hk) as (ok & Hok & Hstk).
  destruct (stage_acting _ _ _ _ _ Hstj (deleting_acting _ _ Hd)) as [_ Hdj].
  destruct (stage_acting _ _ _ _ _ Hstk Ha) as [Hwk _].
  exact (Hcf j k oj ok txt txt' i (not_eq_sym Hne) Hoj Hok (Hdj Hd) Hwk Hi Hi').
Qed.

(** C15: requests are atomic unless a delete is settled while another
    request is between its check and its statement on the same row. For
    any operations of the REST interface in flight over a store that
    keeps the contract, along any steps none of which settles the
    delete statement of a row that another request has checked and not
    yet written: the requests that have ended, in the order in which
    they ended and with the responses they gave, are a run of the
    specification machine from the table at the start to the table now,
    and when no request awaits they are all the requests. Requests on
    the same row that do not overlap in this way, one resumed after the
    other has ended, are covered. *)
Theorem overlap_free_linearizable os s p :
  store_ok s → rtc calm_step (spawn (handler_for <$> os) s) p →
  ∃ h, NoDup h.*1 ∧ h.*1 = ended p ∧
       crud_run (ident_of St) (table s) (hist_ops os h) h.*2 (table (pool_store p)) ∧
       (∀ k r, (k, r) ∈ h ↔ ∃ log, results p !! k = Some (Some (answered r log))) ∧
       (quiescent p → hist_ops os h ≡ₚ os).
Proof.
  intros Hok Hsteps. destruct (calm_lin os s p Hok Hsteps) as [h Hlin].
  exists h. by apply (lin_history source_handlers).
Qed.

(** ** The condition is tight *)

(** The statement of an update or a delete, settled where its row is
    gone, resolves to no row and leaves the table. *)
Lemma act_gone s o txt i act :
  store_ok s → writes o = Some txt → act_of o = Some act →
  ident_of St txt = Some i → table s !! i = None →
  ∃ s', execute act s = (Resolved [], s') ∧ table s' = table s.
Proof.
  unfold ident_of. intros Hok Hw Ha Hi Hf. destruct o; simplify_eq/=.
  - destruct (update_missing_settled s (VStr txt) i name fav Hok Hi Hf) as (s' & ? & ? & _).
    eauto.
  - destruct (delete_settled s (VStr txt) i Hok Hi) as (s' & ? & Ht & _).
    exists s'. by rewrite Ht, delete_id.
Qed.

(** C21: the condition on the steps is tight. Whatever else is in
    flight, when the delete statement of one request (line 115) is
    settled while an update or a delete of the same row is between its
    check and its statement, the step is not calm, and the request it
    overlaps, resumed next, reports success over a row that is gone: 200
    with no flavor for the update (line 92), 204 for the delete (line
    118), where the machine of the five operations answers 404 and
    takes no step with that response. *)
Theorem overlap_misreports p j k tj o txt i row rows row' rows' :
  store_ok (pool_store p) → j ≠ k →
  pool_tasks p !! j
    = Some (feed (start (handler_for (OpDelete tj))) [Resolved (row :: rows)]) →
  pool_tasks p !! k = Some (feed (start (handler_for o)) [Resolved (row' :: rows')]) →
  writes o = Some txt → ident_of St tj = Some i → ident_of St txt = Some i →
  ¬ calm_at (ident_of St) (pool_tasks p) j ∧
  results (interleave [j; k] p) !! k = Some (Some (answered (told_gone o) [])) ∧
  told (told_gone o) not_found_response ∧
  ∀ T', ¬ crud (ident_of St) (table (pool_store (resume j p))) o (told_gone o) T'.
Proof.
  intros Hok Hne Hj Hk Hw Hij Hi. split.
  { intros Hcalm. destruct (checked_acts (OpDelete tj) tj row rows eq_refl) as [_ Hd].
    destruct (checked_acts o txt row' rows' Hw) as [Ha _].
    exact (calm_at_lookup _ _ j _ tj i k _ txt Hcalm Hj Hd Hij Hk (not_eq_sym Hne) Ha Hi). }
  destruct (checked_task (OpDelete tj) tj row rows eq_refl) as (? & kj & [= <-] & Hfj & Hkj).
  destruct (checked_task o txt row' rows' Hw) as (act & k2 & Hact & Hfk & Hk2).
  rewrite Hfj in Hj. rewrite Hfk in Hk.
  destruct (delete_settled (pool_store p) (VStr tj) i Hok Hij) as (s1 & E1 & Ht1 & Hok1).
  destruct (act_gone s1 o txt i act Hok1 Hw Hact Hi) as (s2 & E2 & Ht2);
    [by rewrite Ht1, lookup_delete_eq|].
  assert (pool_store (resume j p) = s1 ∧
          pool_tasks (resume j p) !! k = Some (Await act k2)) as [Hs1 Hk1].
  { rewrite (resume_await _ _ _ _ Hj). unfold delete_of. rewrite E1. cbn.
    by rewrite list_lookup_insert_ne. }
  split_and!.
  - cbn [interleave foldl]. unfold results.
    rewrite (resume_await _ _ _ _ Hk1), Hs1, E2, list_lookup_fmap. cbn.
    rewrite list_lookup_insert_eq by (by eapply lookup_lt_Some). by rewrite Hk2.
  - destruct o; simplify_eq/=; constructor.
  - intros T' Hstep. rewrite Hs1 in Hstep.
    eapply crud_at_missing in Hstep as [Hr _];
      [by destruct o|by destruct o; simplify_eq/=|].
    unfold locate. by rewrite Hi, Ht1, lookup_delete_eq.
Qed.

End atomic.
