(* ===== verification/Scenario.v ===== *)
(** * The service on the relational store: concrete runs

    The example scenarios of specification section 8 served through the
    route table against [PgStore], and the theorems of [Service],
    [Crud], [Interleave] and [Linearize] applied to concrete stores,
    requests and schedules. Everything here evaluates. *)

From S2P Require Import Prelude Js Async Express Handlers Routes Keyed Store PgStore.
From S2P Require Import Service Crud Interleave Linearize Hardened Races Accepted Overlap.

#[local] Open Scope string_scope.
#[local] Open Scope Z_scope.

(** ** Stores and requests *)

(** A schema whose name column is NOT NULL and whose timestamp is set by
    updates only. *)
Definition strict_schema : schema := Schema true false false.

(** The store after one POST of Vanilla on an empty table. *)
Definition one_flavor : pg :=
  out_store (serve (post_flavor (create_request "Vanilla" true)) (pg_empty strict_schema)).

Definition vanilla_row : flavor := Flavor 1 (Some "Vanilla") (Some true) None.

Definition post (name : string) (fav : bool) : http_request :=
  HttpRequest POST "/api/flavors" (flavor_body name fav).
Definition get (path : string) : http_request := HttpRequest GET path (VObj []).
Definition put (path name : string) (fav : bool) : http_request :=
  HttpRequest PUT path (flavor_body name fav).
Definition del (path : string) : http_request := HttpRequest DELETE path (VObj []).

(** An update and a delete of flavor 1, in flight over [one_flavor]. *)
Definition put_1 : handler unit := put_flavor (update_request "1" "Vanilla Bean" false).
Definition delete_1 : handler unit := delete_flavor (item_request "1").
Definition put_and_delete_1 : pool pg := spawn [put_1; delete_1] one_flavor.

Definition put_and_delete_reqs : list (endpoint * request) :=
  [(UpdateFlavor, update_request "1" "Vanilla Bean" false);
   (DeleteFlavor, item_request "1")].

(** The scenarios of the specification, in one session. *)
Definition scenario : list http_request :=
  [ post "Vanilla" true;
    get "/api/flavors/1";
    get "/api/flavors/999";
    put "/api/flavors/1" "Vanilla Bean" false;
    post "Chocolate" false;
    get "/api/flavors";
    del "/api/flavors/1";
    get "/api/flavors/1" ].

(** The scenarios of specification section 8, served in one session
    through the route table against an empty relational store, answer
    201, 200 with the same row, 404, 200 with the updated row and a
    timestamp, 201 with the next id, 200 with both rows, 204, and 404. *)
Example scenario_run :
  (session scenario (pg_empty strict_schema)).1 =
    [ Some (created_json (row_of vanilla_row));
      Some (ok_json (row_of vanilla_row));
      Some not_found_response;
      Some (ok_json (row_of (Flavor 1 (Some "Vanilla Bean") (Some false) (Some 5))));
      Some (created_json (row_of (Flavor 2 (Some "Chocolate") (Some false) None)));
      Some (ok_json (VArr [row_of (Flavor 1 (Some "Vanilla Bean") (Some false) (Some 5));
                           row_of (Flavor 2 (Some "Chocolate") (Some false) None)]));
      Some no_content;
      Some not_found_response ].
Proof. vm_compute. reflexivity. Qed.

(** ** What the store makes of a body

    The handlers give the fields of the body to the store as they came
    (lines 60 and 88); the row that comes back holds what the store read
    them as. A name given as a number comes back as its text and a flag
    given as a text as the boolean it spells; a body without a name is
    refused by the NOT NULL constraint, and the id the refused insert
    drew is not given again. *)

Definition post_ill_typed : http_request :=
  HttpRequest POST "/api/flavors" (VObj [("name", VNum 5); ("is_favorite", VStr "yes")]).

Definition post_no_name : http_request :=
  HttpRequest POST "/api/flavors" (VObj [("is_favorite", VBool true)]).

Example ill_typed_bodies :
  (session [post_ill_typed; post_no_name; post "Vanilla" true] (pg_empty strict_schema)).1 =
    [ Some (created_json (row_of (Flavor 1 (Some "5") (Some true) None)));
      Some server_error_response;
      Some (created_json (row_of (Flavor 3 (Some "Vanilla") (Some true) None))) ].
Proof. vm_compute. reflexivity. Qed.

(** ** The hypotheses of the service theorems, at [one_flavor] *)

Lemma one_flavor_ok : store_ok one_flavor.
Proof. apply (serve_store_ok CreateFlavor), pg_empty_ok. Defined.

Lemma one_flavor_table : table one_flavor !! 1 = Some vanilla_row.
Proof. vm_compute. reflexivity. Defined.

Lemma one_flavor_no_2 : table one_flavor !! 2 = None.
Proof. vm_compute. reflexivity. Defined.

(** ** The service theorems, applied *)

Lemma endpoint_effect_witness :
  store_ok one_flavor ∧
  table_after (serve (handler_of DeleteFlavor (item_request "1")) one_flavor)
    ⊆ table one_flavor.
Proof.
  split; [exact one_flavor_ok|].
  exact (endpoint_effect DeleteFlavor (item_request "1") one_flavor one_flavor_ok).
Defined.

Lemma get_by_id_witness :
  store_ok one_flavor ∧
  response_of (serve (get_flavor (item_request "1")) one_flavor) =
    match read_id pg (VStr "1") with
    | None => server_error_response
    | Some i => from_option (ok_json ∘ row_of) not_found_response (table one_flavor !! i)
    end ∧
  table_after (serve (get_flavor (item_request "1")) one_flavor) = table one_flavor.
Proof. split; [exact one_flavor_ok|]. exact (get_by_id one_flavor "1" one_flavor_ok). Defined.

Lemma post_creates_witness :
  store_ok one_flavor ∧
  ∃ f, response_of (serve (post_flavor (create_request "Mint" true)) one_flavor)
         = created_json (row_of f) ∧
       f_name f = Some "Mint" ∧ f_favorite f = Some true ∧
       table one_flavor !! f_id f = None ∧
       table_after (serve (post_flavor (create_request "Mint" true)) one_flavor)
         = <[f_id f := f]> (table one_flavor).
Proof.
  split; [exact one_flavor_ok|].
  exact (post_creates one_flavor "Mint" true one_flavor_ok).
Defined.

Lemma put_by_id_witness :
  store_ok one_flavor ∧ read_id pg (VStr "1") = Some 1 ∧
  ∃ t, newer vanilla_row t ∧
       response_of (serve (put_flavor (update_request "1" "Vanilla Bean" false)) one_flavor)
         = ok_json (row_of (Flavor 1 (Some "Vanilla Bean") (Some false) (Some t))) ∧
       table_after (serve (put_flavor (update_request "1" "Vanilla Bean" false)) one_flavor)
         = <[1 := Flavor 1 (Some "Vanilla Bean") (Some false) (Some t)]> (table one_flavor).
Proof.
  split; [exact one_flavor_ok|]. split; [reflexivity|].
  exact (put_by_id one_flavor "1" 1 "Vanilla Bean" false one_flavor_ok eq_refl).
Defined.

Lemma delete_by_id_witness :
  store_ok one_flavor ∧ read_id pg (VStr "1") = Some 1 ∧
  response_of (serve (delete_flavor (item_request "1")) one_flavor) = no_content ∧
  table_after (serve (delete_flavor (item_request "1")) one_flavor)
    = delete 1 (table one_flavor) ∧
  issued (out_trace (serve (delete_flavor (item_request "1")) one_flavor))
    = [sql_select_by_id; sql_delete].
Proof.
  split; [exact one_flavor_ok|]. split; [reflexivity|].
  exact (delete_by_id one_flavor "1" 1 one_flavor_ok eq_refl).
Defined.

Lemma list_all_witness :
  store_ok one_flavor ∧
  ∃ fs, response_of (serve (get_flavors (Request (VObj []) (VObj []))) one_flavor)
          = ok_json (VArr (row_of <$> fs)) ∧
        fs ≡ₚ (map_to_list (table one_flavor)).*2 ∧
        length fs = size (table one_flavor) ∧
        table_after (serve (get_flavors (Request (VObj []) (VObj []))) one_flavor)
          = table one_flavor.
Proof.
  split; [exact one_flavor_ok|].
  exact (list_all one_flavor one_flavor_ok).
Defined.

Lemma get_after_post_witness :
  store_ok one_flavor ∧
  ∃ f, response_of (serve (post_flavor (create_request "Mint" true)) one_flavor)
         = created_json (row_of f) ∧
       response_of (serve (get_flavor (item_request (Z_to_string (f_id f))))
                      (out_store (serve (post_flavor (create_request "Mint" true)) one_flavor)))
         = ok_json (row_of f).
Proof.
  split; [exact one_flavor_ok|].
  exact (get_after_post one_flavor "Mint" true one_flavor_ok).
Defined.

Lemma get_after_put_witness :
  store_ok one_flavor ∧ read_id pg (VStr "1") = Some 1 ∧
  table one_flavor !! 1 = Some vanilla_row ∧
  ∃ f, response_of (serve (put_flavor (update_request "1" "Vanilla Bean" false)) one_flavor)
         = ok_json (row_of f) ∧
       response_of (serve (get_flavor (item_request "1"))
                      (out_store (serve (put_flavor (update_request "1" "Vanilla Bean" false))
                                    one_flavor)))
         = ok_json (row_of f).
Proof.
  split; [exact one_flavor_ok|]. split; [reflexivity|]. split; [exact one_flavor_table|].
  exact (get_after_put one_flavor "1" 1 "Vanilla Bean" false vanilla_row
           one_flavor_ok eq_refl one_flavor_table).
Defined.

Lemma get_after_delete_witness :
  store_ok one_flavor ∧ read_id pg (VStr "1") = Some 1 ∧
  table one_flavor !! 1 = Some vanilla_row ∧
  response_of (serve (delete_flavor (item_request "1")) one_flavor) = no_content ∧
  response_of (serve (get_flavor (item_request "1"))
                 (out_store (serve (delete_flavor (item_request "1")) one_flavor)))
    = not_found_response.
Proof.
  split; [exact one_flavor_ok|]. split; [reflexivity|]. split; [exact one_flavor_table|].
  exact (get_after_delete one_flavor "1" 1 vanilla_row one_flavor_ok eq_refl one_flavor_table).
Defined.

Lemma session_cardinality_witness :
  store_ok (pg_empty strict_schema) ∧
  (size (table (session scenario (pg_empty strict_schema)).2)
     + tally deleted (session scenario (pg_empty strict_schema)).1
   = size (table (pg_empty strict_schema))
     + tally created (session scenario (pg_empty strict_schema)).1)%nat.
Proof.
  split; [exact (pg_empty_ok strict_schema)|].
  exact (session_cardinality scenario (pg_empty strict_schema) (pg_empty_ok strict_schema)).
Defined.

(** ** Requests in flight together *)

Lemma resumed_twice_finished_witness :
  (1 < length put_and_delete_reqs)%nat ∧
  (2 ≤ length (filter (λ j, j = 1%nat) [0; 1; 1; 0]%nat))%nat ∧
  ∃ a, results (interleave [0; 1; 1; 0]%nat
                  (spawn (in_flight put_and_delete_reqs) one_flavor)) !! 1%nat
         = Some (Some a).
Proof.
  assert (1 < length put_and_delete_reqs)%nat as H1 by (vm_compute; lia).
  assert (2 ≤ length (filter (λ j, j = 1%nat) [0; 1; 1; 0]%nat))%nat as H2
    by (vm_compute; lia).
  split; [exact H1|]. split; [exact H2|].
  exact (resumed_twice_finished put_and_delete_reqs one_flavor [0; 1; 1; 0]%nat 1 H1 H2).
Defined.

Lemma put_delete_race_witness :
  store_ok one_flavor ∧ read_id pg (VStr "1") = Some 1 ∧
  table one_flavor !! 1 = Some vanilla_row ∧
  (∀ p, rtc step (put_and_delete "1" "Vanilla Bean" false one_flavor) p → quiescent p →
     table (pool_store p) = delete 1 (table one_flavor) ∧
     ∃ rp, results p = [Some (answered rp []); Some (answered no_content [])] ∧
           ((∃ ts, newer vanilla_row ts ∧
                   rp = ok_json (row_of (Flavor 1 (Some "Vanilla Bean") (Some false) (Some ts)))) ∨
            rp = not_found_response ∨ rp = ok_json VUndefined)) ∧
  results (interleave [0; 1; 1; 0]%nat (put_and_delete "1" "Vanilla Bean" false one_flavor))
    = [Some (answered (ok_json VUndefined) []); Some (answered no_content [])] ∧
  ∀ t t', ¬ crud (ident_of pg) t (OpUpdate "1" "Vanilla Bean" false) (ok_json VUndefined) t'.
Proof.
  split; [exact one_flavor_ok|]. split; [reflexivity|]. split; [exact one_flavor_table|].
  exact (put_delete_race one_flavor "1" 1 "Vanilla Bean" false vanilla_row
           one_flavor_ok eq_refl one_flavor_table).
Defined.

Lemma delete_delete_race_witness :
  store_ok one_flavor ∧ read_id pg (VStr "1") = Some 1 ∧
  table one_flavor !! 1 = Some vanilla_row ∧
  (∀ p, rtc step (two_deletes "1" one_flavor) p → quiescent p →
     table (pool_store p) = delete 1 (table one_flavor) ∧
     ∃ r1 r2, results p = [Some (answered r1 []); Some (answered r2 [])] ∧
              r1 ∈ [no_content; not_found_response] ∧
              r2 ∈ [no_content; not_found_response] ∧
              (r1 = no_content ∨ r2 = no_content)) ∧
  results (interleave [0; 1; 0; 1]%nat (two_deletes "1" one_flavor))
    = [Some (answered no_content []); Some (answered no_content [])] ∧
  ∀ t t', ¬ crud_run (ident_of pg) t [OpDelete "1"; OpDelete "1"] [no_content; no_content] t'.
Proof.
  split; [exact one_flavor_ok|]. split; [reflexivity|]. split; [exact one_flavor_table|].
  exact (delete_delete_race one_flavor "1" 1 vanilla_row
           one_flavor_ok eq_refl one_flavor_table).
Defined.

Lemma request_issues_in_order_witness :
  rtc step (spawn (in_flight put_and_delete_reqs) one_flavor)
    (interleave [0; 1; 1; 0]%nat (spawn (in_flight put_and_delete_reqs) one_flavor)) ∧
  put_and_delete_reqs !! 0%nat = Some (UpdateFlavor, update_request "1" "Vanilla Bean" false) ∧
  issued (trace_of 0 (pool_log (interleave [0; 1; 1; 0]%nat
                                  (spawn (in_flight put_and_delete_reqs) one_flavor))))
    `prefix_of` statements UpdateFlavor.
Proof.
  split; [apply interleave_steps|]. split; [reflexivity|].
  exact (request_issues_in_order put_and_delete_reqs one_flavor _ 0 _
           (interleave_steps [0; 1; 1; 0]%nat
              (spawn (in_flight put_and_delete_reqs) one_flavor)) eq_refl).
Defined.

Lemma every_request_answered_witness :
  rtc step (spawn (in_flight put_and_delete_reqs) one_flavor)
    (interleave [0; 1; 1; 0]%nat (spawn (in_flight put_and_delete_reqs) one_flavor)) ∧
  (length (pool_log (interleave [0; 1; 1; 0]%nat
                       (spawn (in_flight put_and_delete_reqs) one_flavor)))
     ≤ 2 * length put_and_delete_reqs)%nat.
Proof.
  split; [apply interleave_steps|].
  exact (proj1 (every_request_answered put_and_delete_reqs one_flavor _
                  (interleave_steps [0; 1; 1; 0]%nat
                     (spawn (in_flight put_and_delete_reqs) one_flavor)))).
Defined.

Lemma response_body_typed_witness :
  store_ok one_flavor ∧
  sent (response_of (serve (handler_of GetFlavor (item_request "1")) one_flavor))
    = Some (BodyJson (row_of vanilla_row)) ∧
  has_type (body_type GetFlavor) (row_of vanilla_row) = true.
Proof.
  assert (sent (response_of (serve (handler_of GetFlavor (item_request "1")) one_flavor))
            = Some (BodyJson (row_of vanilla_row))) as Hs by (vm_compute; reflexivity).
  split; [exact one_flavor_ok|]. split; [exact Hs|].
  exact (response_body_typed GetFlavor (item_request "1") one_flavor _ one_flavor_ok Hs).
Defined.

Lemma session_refines_crud_witness :
  store_ok (pg_empty strict_schema) ∧ Forall (λ o, op_ok o = true) sample_ops ∧
  ∃ rs, (session (http_of <$> sample_ops) (pg_empty strict_schema)).1 = Some <$> rs ∧
        crud_run (ident_of pg) (table (pg_empty strict_schema)) sample_ops rs
          (table (session (http_of <$> sample_ops) (pg_empty strict_schema)).2).
Proof.
  assert (Forall (λ o, op_ok o = true) sample_ops) as Hops by (by repeat constructor).
  split; [apply pg_empty_ok|]. split; [exact Hops|].
  exact (session_refines_crud sample_ops (pg_empty strict_schema)
           (pg_empty_ok strict_schema) Hops).
Defined.

(** ** Requests on different rows *)

Lemma disjoint_ops_conflict_free : conflict_free (ident_of pg) writes disjoint_ops.
Proof.
  intros j k oj ok tj tk i Hjk Hj Hk Hd Hw Hi.
  destruct j as [|[|[|j]]], k as [|[|[|k]]]; simplify_eq/=.
  vm_compute in Hi. vm_compute. congruence.
Defined.

Lemma conflict_free_linearizable_witness :
  store_ok one_flavor ∧ conflict_free (ident_of pg) writes disjoint_ops ∧
  rtc step (spawn (handler_for <$> disjoint_ops) one_flavor)
    (interleave [0; 1; 2; 1; 0]%nat (spawn (handler_for <$> disjoint_ops) one_flavor)) ∧
  ∃ h, NoDup h.*1 ∧
       h.*1 = ended (interleave [0; 1; 2; 1; 0]%nat
                        (spawn (handler_for <$> disjoint_ops) one_flavor)) ∧
       crud_run (ident_of pg) (table one_flavor) (hist_ops disjoint_ops h) h.*2
         (table (pool_store (interleave [0; 1; 2; 1; 0]%nat
                               (spawn (handler_for <$> disjoint_ops) one_flavor)))) ∧
       (∀ k r, (k, r) ∈ h ↔
          ∃ log, results (interleave [0; 1; 2; 1; 0]%nat
                            (spawn (handler_for <$> disjoint_ops) one_flavor)) !! k
                   = Some (Some (answered r log))) ∧
       (quiescent (interleave [0; 1; 2; 1; 0]%nat
                     (spawn (handler_for <$> disjoint_ops) one_flavor)) →
        hist_ops disjoint_ops h ≡ₚ disjoint_ops).
Proof.
  split; [exact one_flavor_ok|]. split; [exact disjoint_ops_conflict_free|].
  split; [apply interleave_steps|].
  exact (conflict_free_linearizable disjoint_ops one_flavor _ one_flavor_ok
           disjoint_ops_conflict_free (interleave_steps _ _)).
Defined.

(** ** The update as one statement, in flight with a delete of its row *)

Lemma same_row_ops_conflict_free : conflict_free (ident_of pg) deletes same_row_ops.
Proof.
  intros j k oj ok tj tk i Hjk Hj Hk Hd Hw Hi.
  destruct j as [|[|[|j]]], k as [|[|[|k]]]; simplify_eq/=.
Defined.

Lemma atomic_update_linearizable_witness :
  store_ok one_flavor ∧ conflict_free (ident_of pg) deletes same_row_ops ∧
  rtc step (spawn (hardened_for <$> same_row_ops) one_flavor)
    (interleave [1; 0; 2; 1]%nat (spawn (hardened_for <$> same_row_ops) one_flavor)) ∧
  ∃ h, NoDup h.*1 ∧
       h.*1 = ended (interleave [1; 0; 2; 1]%nat
                        (spawn (hardened_for <$> same_row_ops) one_flavor)) ∧
       crud_run (ident_of pg) (table one_flavor) (hist_ops same_row_ops h) h.*2
         (table (pool_store (interleave [1; 0; 2; 1]%nat
                               (spawn (hardened_for <$> same_row_ops) one_flavor)))) ∧
       (∀ k r, (k, r) ∈ h ↔
          ∃ log, results (interleave [1; 0; 2; 1]%nat
                            (spawn (hardened_for <$> same_row_ops) one_flavor)) !! k
                   = Some (Some (answered r log))) ∧
       (quiescent (interleave [1; 0; 2; 1]%nat
                     (spawn (hardened_for <$> same_row_ops) one_flavor)) →
        hist_ops same_row_ops h ≡ₚ same_row_ops).
Proof.
  split; [exact one_flavor_ok|]. split; [exact same_row_ops_conflict_free|].
  split; [apply interleave_steps|].
  exact (atomic_update_linearizable same_row_ops one_flavor _ one_flavor_ok
           same_row_ops_conflict_free (interleave_steps _ _)).
Defined.

(** ** Every interleaving, conflicts included *)

Lemma interleaving_refines_racy_witness :
  store_ok one_flavor ∧
  rtc step (spawn (handler_for <$> racing_ops) one_flavor)
    (interleave [0; 1; 2; 1; 2; 0]%nat (spawn (handler_for <$> racing_ops) one_flavor)) ∧
  ∃ h, NoDup h.*1 ∧
       h.*1 = ended (interleave [0; 1; 2; 1; 2; 0]%nat
                        (spawn (handler_for <$> racing_ops) one_flavor)) ∧
       lts_run (racy (ident_of pg)) (table one_flavor) (hist_ops racing_ops h) h.*2
         (table (pool_store (interleave [0; 1; 2; 1; 2; 0]%nat
                               (spawn (handler_for <$> racing_ops) one_flavor)))) ∧
       (∀ k r, (k, r) ∈ h ↔
          ∃ log, results (interleave [0; 1; 2; 1; 2; 0]%nat
                            (spawn (handler_for <$> racing_ops) one_flavor)) !! k
                   = Some (Some (answered r log))) ∧
       (quiescent (interleave [0; 1; 2; 1; 2; 0]%nat
                     (spawn (handler_for <$> racing_ops) one_flavor)) →
        hist_ops racing_ops h ≡ₚ racing_ops).
Proof.
  split; [exact one_flavor_ok|]. split; [apply interleave_steps|].
  exact (interleaving_refines_racy racing_ops one_flavor _ one_flavor_ok
           (interleave_steps _ _)).
Defined.

Lemma races_misreport_only_witness :
  store_ok one_flavor ∧
  rtc step (spawn (handler_for <$> racing_ops) one_flavor)
    (interleave [0; 1; 2; 1; 2; 0]%nat (spawn (handler_for <$> racing_ops) one_flavor)) ∧
  ∃ h rs, NoDup h.*1 ∧
          h.*1 = ended (interleave [0; 1; 2; 1; 2; 0]%nat
                           (spawn (handler_for <$> racing_ops) one_flavor)) ∧
          crud_run (ident_of pg) (table one_flavor) (hist_ops racing_ops h) rs
            (table (pool_store (interleave [0; 1; 2; 1; 2; 0]%nat
                                  (spawn (handler_for <$> racing_ops) one_flavor)))) ∧
          Forall2 told h.*2 rs ∧
          (∀ k r, (k, r) ∈ h ↔
             ∃ log, results (interleave [0; 1; 2; 1; 2; 0]%nat
                               (spawn (handler_for <$> racing_ops) one_flavor)) !! k
                      = Some (Some (answered r log))) ∧
          (quiescent (interleave [0; 1; 2; 1; 2; 0]%nat
                        (spawn (handler_for <$> racing_ops) one_flavor)) →
           hist_ops racing_ops h ≡ₚ racing_ops).
Proof.
  split; [exact one_flavor_ok|]. split; [apply interleave_steps|].
  exact (races_misreport_only racing_ops one_flavor _ one_flavor_ok (interleave_steps _ _)).
Defined.

(** The three requests of the sample end in the order first delete,
    second delete, update. *)
Example racing_ops_ended :
  ended (interleave [0; 1; 2; 1; 2; 0]%nat (spawn (handler_for <$> racing_ops) one_flavor))
    = [1; 2; 0]%nat.
Proof. vm_compute. reflexivity. Qed.

(** The three requests of the sample all report success: the update 200
    with no flavor, and both deletes 204. *)
Example racing_ops_all_succeed :
  results (interleave [0; 1; 2; 1; 2; 0]%nat (spawn (handler_for <$> racing_ops) one_flavor))
    = [Some (answered (ok_json VUndefined) []); Some (answered no_content []);
       Some (answered no_content [])].
Proof. vm_compute. reflexivity. Qed.

(** ** Requests on one row that do not overlap *)

(** A delete served to its end before the update of its row is resumed:
    the two conflict as requests, and every step is calm. *)
Lemma successive_ops_calm :
  rtc calm_step (spawn (handler_for <$> successive_ops) one_flavor)
    (interleave [0; 2; 0; 1; 2]%nat (spawn (handler_for <$> successive_ops) one_flavor)).
Proof. apply calm_schedule_steps. vm_compute. reflexivity. Defined.

Lemma overlap_free_linearizable_witness :
  store_ok one_flavor ∧
  rtc calm_step (spawn (handler_for <$> successive_ops) one_flavor)
    (interleave [0; 2; 0; 1; 2]%nat (spawn (handler_for <$> successive_ops) one_flavor)) ∧
  ∃ h, NoDup h.*1 ∧
       h.*1 = ended (interleave [0; 2; 0; 1; 2]%nat
                        (spawn (handler_for <$> successive_ops) one_flavor)) ∧
       crud_run (ident_of pg) (table one_flavor) (hist_ops successive_ops h) h.*2
         (table (pool_store (interleave [0; 2; 0; 1; 2]%nat
                               (spawn (handler_for <$> successive_ops) one_flavor)))) ∧
       (∀ k r, (k, r) ∈ h ↔
          ∃ log, results (interleave [0; 2; 0; 1; 2]%nat
                            (spawn (handler_for <$> successive_ops) one_flavor)) !! k
                   = Some (Some (answered r log))) ∧
       (quiescent (interleave [0; 2; 0; 1; 2]%nat
                     (spawn (handler_for <$> successive_ops) one_flavor)) →
        hist_ops successive_ops h ≡ₚ successive_ops).
Proof.
  split; [exact one_flavor_ok|]. split; [exact successive_ops_calm|].
  exact (overlap_free_linearizable successive_ops one_flavor _ one_flavor_ok
           successive_ops_calm).
Defined.

(** The update and the first delete of the sample, both past their
    checks: settling the delete overlaps the update, which then answers
    200 with no flavor. *)
Lemma overlap_misreports_witness :
  store_ok (pool_store (interleave [0; 1]%nat
                          (spawn (handler_for <$> racing_ops) one_flavor))) ∧
  1%nat ≠ 0%nat ∧
  ¬ calm_at (ident_of pg)
      (pool_tasks (interleave [0; 1]%nat (spawn (handler_for <$> racing_ops) one_flavor)))
      1 ∧
  results (interleave [1; 0]%nat
             (interleave [0; 1]%nat (spawn (handler_for <$> racing_ops) one_flavor))) !! 0%nat
    = Some (Some (answered (told_gone (OpUpdate "1" "Vanilla Bean" false)) [])) ∧
  told (told_gone (OpUpdate "1" "Vanilla Bean" false)) not_found_response ∧
  ∀ T', ¬ crud (ident_of pg)
            (table (pool_store
                      (resume 1 (interleave [0; 1]%nat
                                   (spawn (handler_for <$> racing_ops) one_flavor)))))
            (OpUpdate "1" "Vanilla Bean" false)
            (told_gone (OpUpdate "1" "Vanilla Bean" false)) T'.
Proof.
  assert (store_ok (pool_store (interleave [0; 1]%nat
                                  (spawn (handler_for <$> racing_ops) one_flavor)))) as Hok
    by exact (interleave_store_ok (spawn (handler_for <$> racing_ops) one_flavor) _
                (interleave_steps _ _) one_flavor_ok).
  split; [exact Hok|]. split; [done|].
  exact (overlap_misreports
           (interleave [0; 1]%nat (spawn (handler_for <$> racing_ops) one_flavor))
           1 0 "1" (OpUpdate "1" "Vanilla Bean" false) "1" 1
           (row_of vanilla_row) [] (row_of vanilla_row) []
           Hok (ltac:(done)) eq_refl eq_refl eq_refl eq_refl eq_refl).
Defined.

(** The schedule of the update/delete race is not calm, and the
    schedule that serves the same two requests one after the other is. *)
Example race_schedule_not_calm :
  calm_schedule [0; 1; 1; 0]%nat (put_and_delete "1" "Vanilla Bean" false one_flavor) = false ∧
  calm_schedule [0; 0; 1; 1]%nat (put_and_delete "1" "Vanilla Bean" false one_flavor) = true.
Proof. split; vm_compute; reflexivity. Qed.
